(** * Jira MCP integration server: a shallow embedding and its properties

    The development follows [mcp-server.ts] and its two sibling revisions
    (the transliterating revision with the remote GitLab strategy, and the
    Data Center revision with the direct REST adapter).

    JavaScript strings are sequences of UTF-16 code units; [length],
    [substring], [split('')], [includes] and non-unicode regular expressions
    all work on code units, so that is what a string is here. *)

From Stdlib Require Import String Ascii DecimalString.
From Stdlib Require Import List NArith ZArith Bool Lia.
Import ListNotations.

Set Warnings "-register-all".

(* ================================================================= *)
(** ** JavaScript strings *)

Module Js.

Definition jsstring := list N.

(** Literals are written as Rocq strings and decoded from UTF-8, so that
    the Cyrillic table below reads as it does in the source. *)
Fixpoint utf8_decode (bs : list N) : jsstring :=
  match bs with
  | [] => []
  | b0 :: t0 =>
      if (b0 <? 0x80)%N then b0 :: utf8_decode t0
      else if (b0 <? 0xE0)%N then
        match t0 with
        | b1 :: t1 => ((b0 - 0xC0) * 64 + (b1 - 0x80))%N :: utf8_decode t1
        | _ => []
        end
      else if (b0 <? 0xF0)%N then
        match t0 with
        | b1 :: b2 :: t2 =>
            ((b0 - 0xE0) * 4096 + (b1 - 0x80) * 64 + (b2 - 0x80))%N
              :: utf8_decode t2
        | _ => []
        end
      else
        match t0 with
        | b1 :: b2 :: b3 :: t3 =>
            let cp := ((b0 - 0xF0) * 262144 + (b1 - 0x80) * 4096
                       + (b2 - 0x80) * 64 + (b3 - 0x80))%N in
            let v := (cp - 0x10000)%N in
            (0xD800 + v / 1024)%N :: (0xDC00 + v mod 1024)%N
              :: utf8_decode t3
        | _ => []
        end
  end.

Definition js (s : string) : jsstring :=
  utf8_decode (map N_of_ascii (list_ascii_of_string s)).

(** The same with every apostrophe read as a double quote, for literals
    that hold JSON text. *)
Definition jsq (s : string) : jsstring :=
  map (fun c => if (c =? 39)%N then 34%N else c) (js s).

Fixpoint str_eqb (a b : jsstring) : bool :=
  match a, b with
  | [], [] => true
  | x :: a', y :: b' => (x =? y)%N && str_eqb a' b'
  | _, _ => false
  end.

(** *** Character classes *)

Definition in_range (lo hi c : N) : bool := ((lo <=? c) && (c <=? hi))%N.

Definition is_upper (c : N) : bool := in_range 65 90 c.      (* [A-Z] *)
Definition is_lower (c : N) : bool := in_range 97 122 c.     (* [a-z] *)
Definition is_digit (c : N) : bool := in_range 48 57 c.      (* [0-9], \d *)
Definition is_lower_alnum (c : N) : bool := is_lower c || is_digit c.
Definition hyphen : N := 45.
Definition is_hyphen (c : N) : bool := (c =? hyphen)%N.

(** WhiteSpace and LineTerminator of ECMAScript: what [trim] removes. *)
Definition is_space (c : N) : bool :=
  in_range 0x09 0x0D c || (c =? 0x20)%N || (c =? 0xA0)%N || (c =? 0x1680)%N
  || in_range 0x2000 0x200A c || (c =? 0x2028)%N || (c =? 0x2029)%N
  || (c =? 0x202F)%N || (c =? 0x205F)%N || (c =? 0x3000)%N
  || (c =? 0xFEFF)%N.

Fixpoint dropWhile (p : N -> bool) (s : jsstring) : jsstring :=
  match s with
  | [] => []
  | c :: t => if p c then dropWhile p t else s
  end.

Definition dropWhileEnd (p : N -> bool) (s : jsstring) : jsstring :=
  rev (dropWhile p (rev s)).

Definition trim (s : jsstring) : jsstring :=
  dropWhileEnd is_space (dropWhile is_space s).

(** [String.prototype.toLowerCase].  The ASCII letters, the two non-ASCII
    code points whose lower case is (or starts with) an ASCII letter
    (KELVIN SIGN and LATIN CAPITAL LETTER I WITH DOT ABOVE) and the basic
    Cyrillic capitals are tabulated.  Every other code unit is kept: its
    real lower case, when it has one, is again outside ASCII, and nothing
    below tells two non-ASCII code units apart after lower-casing. *)
Definition lowerUnit (c : N) : jsstring :=
  if is_upper c then [(c + 32)%N]
  else if (c =? 0x212A)%N then [107%N]
  else if (c =? 0x0130)%N then [105%N; 0x0307%N]
  else if in_range 0x0410 0x042F c then [(c + 0x20)%N]
  else if in_range 0x0400 0x040F c then [(c + 0x50)%N]
  else if (c =? 0x0490)%N then [0x0491%N]
  else [c].

Definition toLowerCase (s : jsstring) : jsstring := flat_map lowerUnit s.

(** [s.startsWith(p)] and [s.includes(p)]. *)
Fixpoint startsWith (p s : jsstring) : bool :=
  match p, s with
  | [], _ => true
  | x :: p', y :: s' => (x =? y)%N && startsWith p' s'
  | _ :: _, [] => false
  end.

Fixpoint includes (p s : jsstring) : bool :=
  startsWith p s ||
  match s with
  | [] => false
  | _ :: t => includes p t
  end.

(** [s.substring(a, b)] for [a <= b]. *)
Definition substring (a b : nat) (s : jsstring) : jsstring :=
  firstn (b - a) (skipn a s).

End Js.
Import Js.

(* ================================================================= *)
(** ** Branch names *)

(** [name.replace(/[^a-z0-9]+/g, "-")]: every maximal run of code units
    outside [[a-z0-9]] becomes one hyphen.  [inRun] tells that the previous
    code unit belonged to the run being replaced. *)
Fixpoint collapseRuns (inRun : bool) (s : jsstring) : jsstring :=
  match s with
  | [] => []
  | c :: t =>
      if is_lower_alnum c then c :: collapseRuns false t
      else if inRun then collapseRuns true t
      else hyphen :: collapseRuns true t
  end.

(** [s.replace(/^-+|-+$/g, "")]. *)
Definition stripHyphens (s : jsstring) : jsstring :=
  dropWhileEnd is_hyphen (dropWhile is_hyphen s).

(** The chain shared by the three revisions of [sanitizeBranchName], before
    the cut at 100 code units. *)
Definition cleaned (name : jsstring) : jsstring :=
  stripHyphens (collapseRuns false (toLowerCase name)).

(** [sanitizeBranchName] of [mcp-server.ts] and of the Data Center
    revision. *)
Definition sanitizeBranchName (name : jsstring) : jsstring :=
  substring 0 100 (cleaned name).

(** The transliterating revision. *)
Module Translit.

(** [transliterationMap], in the order of the source. *)
Definition transliterationMap : list (jsstring * jsstring) :=
  map (fun kv => (js (fst kv), js (snd kv)))
    [ (* Ukrainian characters *)
      ("а", "a"); ("б", "b"); ("в", "v"); ("г", "h"); ("ґ", "g");
      ("д", "d"); ("е", "e"); ("є", "ie");
      ("ж", "zh"); ("з", "z"); ("и", "y"); ("і", "i"); ("ї", "i");
      ("й", "i"); ("к", "k"); ("л", "l");
      ("м", "m"); ("н", "n"); ("о", "o"); ("п", "p"); ("р", "r");
      ("с", "s"); ("т", "t"); ("у", "u");
      ("ф", "f"); ("х", "kh"); ("ц", "ts"); ("ч", "ch"); ("ш", "sh");
      ("щ", "shch"); ("ь", "");
      ("ю", "iu"); ("я", "ia");
      (* Uppercase letters *)
      ("А", "A"); ("Б", "B"); ("В", "V"); ("Г", "H"); ("Ґ", "G");
      ("Д", "D"); ("Е", "E"); ("Є", "IE");
      ("Ж", "ZH"); ("З", "Z"); ("И", "Y"); ("І", "I"); ("Ї", "I");
      ("Й", "I"); ("К", "K"); ("Л", "L");
      ("М", "M"); ("Н", "N"); ("О", "O"); ("П", "P"); ("Р", "R");
      ("С", "S"); ("Т", "T"); ("У", "U");
      ("Ф", "F"); ("Х", "KH"); ("Ц", "TS"); ("Ч", "CH"); ("Ш", "SH");
      ("Щ", "SHCH"); ("Ь", "");
      ("Ю", "IU"); ("Я", "IA");
      (* Russian characters *)
      ("ы", "y"); ("э", "e"); ("ъ", ""); ("ё", "e");
      ("Ы", "Y"); ("Э", "E"); ("Ъ", ""); ("Ё", "E") ]%string.

(** [transliterationMap[char]]: the keys are one code unit long. *)
Fixpoint lookup (tbl : list (jsstring * jsstring)) (char : N)
  : option jsstring :=
  match tbl with
  | [] => None
  | (k, v) :: rest => if str_eqb k [char] then Some v else lookup rest char
  end.

(** [transliterationMap[char] || char]: an entry mapped to the empty
    string is falsy, so the character itself is kept. *)
Definition translitChar (char : N) : jsstring :=
  match lookup transliterationMap char with
  | Some (c :: v) => c :: v
  | Some [] | None => [char]
  end.

(** [text.split('').map(...).join('')]. *)
Definition transliterateToEnglish (text : jsstring) : jsstring :=
  flat_map translitChar text.

Definition sanitizeBranchName (name : jsstring) : jsstring :=
  let transliterated := transliterateToEnglish name in
  substring 0 100
    (stripHyphens (collapseRuns false (toLowerCase transliterated))).

End Translit.

(** [^[a-z0-9]+(-[a-z0-9]+)*$], read as an automaton: [afterAlnum] tells
    that the previous code unit was in [[a-z0-9]]. *)
Fixpoint branch_re (afterAlnum : bool) (s : jsstring) : bool :=
  match s with
  | [] => afterAlnum
  | c :: t =>
      if is_lower_alnum c then branch_re true t
      else if is_hyphen c then afterAlnum && branch_re false t
      else false
  end.

Definition matches_branch_re (s : jsstring) : bool := branch_re false s.


(** The same automaton without the condition on the end of the string:
    [hyphenated false s] says that [s] is made of [[a-z0-9]] and hyphens
    only, does not begin with a hyphen and has no two hyphens in a row. *)
Fixpoint hyphenated (afterAlnum : bool) (s : jsstring) : bool :=
  match s with
  | [] => true
  | c :: t =>
      if is_lower_alnum c then hyphenated true t
      else if is_hyphen c then afterAlnum && hyphenated false t
      else false
  end.

(** [[A-Za-z0-9]]. *)
Definition is_ascii_alnum (c : N) : bool := is_upper c || is_lower_alnum c.

(** What every revision of [sanitizeBranchName] guarantees of its output
    [out] on the input [name]. *)
Definition branch_shape (name out : jsstring) : Prop :=
  List.length out <= 100
  /\ Forall (fun c => is_lower_alnum c = true \/ c = hyphen) out
  /\ (forall post, out <> hyphen :: post)
  /\ (forall pre post, out <> pre ++ hyphen :: hyphen :: post)
  /\ (existsb is_ascii_alnum name = true -> out <> [])
  /\ (out <> [] -> (forall pre, out <> pre ++ [hyphen]) ->
      matches_branch_re out = true)
  /\ (forall pre, out = pre ++ [hyphen] -> List.length out = 100).

(* ================================================================= *)
(** ** JavaScript values *)

(** The values that reach the program: JSON values and [undefined].  A
    number is kept as the decimal [m * 10^e] that was written. *)
Inductive value : Type :=
| VUndef
| VNull
| VBool (b : bool)
| VNum (m e : Z)
| VStr (s : jsstring)
| VArr (items : list value)
| VObj (props : list (jsstring * value)).

(** A decimal literal denotes the number 0 when it is 0 or rounds to 0,
    that is when it is at most [2^-1075] in absolute value. *)
Definition num_is_zero (m e : Z) : bool :=
  ((m =? 0) ||
   ((e <? 0) && (Z.abs m * 2 ^ 1075 <=? 10 ^ (- e))))%Z.

(** ToBoolean. *)
Definition truthy (v : value) : bool :=
  match v with
  | VUndef | VNull => false
  | VBool b => b
  | VNum m e => negb (num_is_zero m e)
  | VStr s => match s with [] => false | _ => true end
  | VArr _ | VObj _ => true
  end.

(** [a || b] on values. *)
Definition or_else (a b : value) : value := if truthy a then a else b.

Fixpoint assoc (k : jsstring) (props : list (jsstring * value))
  : option value :=
  match props with
  | [] => None
  | (k', v) :: rest => if str_eqb k k' then Some v else assoc k rest
  end.

(** [v?.k].  The names the program reads ([key], [fields], [id],
    [issueKey], [isError], [error], [content], [type], [text],
    [transitions], [name], [to], [object], [sha] and the tool arguments) are
    not properties of strings, numbers, booleans or arrays, nor of
    [Object.prototype]. *)
Definition opt_get (v : value) (k : string) : value :=
  match v with
  | VObj props => match assoc (js k) props with Some x => x | None => VUndef end
  | _ => VUndef
  end.

(** Writing a property: an existing key keeps its place. *)
Fixpoint obj_set (props : list (jsstring * value)) (k : jsstring) (v : value)
  : list (jsstring * value) :=
  match props with
  | [] => [(k, v)]
  | (k', v') :: rest =>
      if str_eqb k k' then (k, v) :: rest else (k', v') :: obj_set rest k v
  end.

Definition is_array (v : value) : bool :=
  match v with VArr _ => true | _ => false end.

Definition is_object (v : value) : bool :=   (* typeof v === "object" *)
  match v with VNull | VArr _ | VObj _ => true | _ => false end.

Definition is_string (v : value) : bool :=
  match v with VStr _ => true | _ => false end.

Definition str (s : string) : value := VStr (js s).

(** [v === "literal"]. *)
Definition is_lit (v : value) (s : string) : bool :=
  match v with VStr x => str_eqb x (js s) | _ => false end.

(* ================================================================= *)
(** ** [JSON.parse] *)

Module Json.

Inductive presult (A : Type) : Type :=
| POk (a : A) (rest : jsstring)
| PFail
| PFuel.
Arguments POk {A} a rest.
Arguments PFail {A}.
Arguments PFuel {A}.

Definition is_json_ws (c : N) : bool :=
  ((c =? 0x20) || (c =? 0x09) || (c =? 0x0A) || (c =? 0x0D))%N.

Definition skip_ws (s : jsstring) : jsstring := dropWhile is_json_ws s.

Definition hex_digit (c : N) : option N :=
  if is_digit c then Some (c - 48)%N
  else if in_range 97 102 c then Some (c - 87)%N
  else if in_range 65 70 c then Some (c - 55)%N
  else None.

Definition unescape (c : N) : option N :=
  if (c =? 34)%N then Some 34%N          (* quote *)
  else if (c =? 92)%N then Some 92%N     (* backslash *)
  else if (c =? 47)%N then Some 47%N     (* slash *)
  else if (c =? 98)%N then Some 8%N      (* \b *)
  else if (c =? 102)%N then Some 12%N    (* \f *)
  else if (c =? 110)%N then Some 10%N    (* \n *)
  else if (c =? 114)%N then Some 13%N    (* \r *)
  else if (c =? 116)%N then Some 9%N     (* \t *)
  else None.

Definition cons_fst (c : N) (r : option (jsstring * jsstring))
  : option (jsstring * jsstring) :=
  match r with
  | Some (x, rest) => Some (c :: x, rest)
  | None => None
  end.

(** The characters of a string literal after its opening quote. *)
Fixpoint parse_string (s : jsstring) : option (jsstring * jsstring) :=
  match s with
  | [] => None
  | c :: r =>
      if (c =? 34)%N then Some ([], r)
      else if (c =? 92)%N then
        match r with
        | [] => None
        | e :: r' =>
            if (e =? 117)%N then                       (* \uXXXX *)
              match r' with
              | h1 :: h2 :: h3 :: h4 :: r'' =>
                  match hex_digit h1, hex_digit h2, hex_digit h3, hex_digit h4
                  with
                  | Some a, Some b, Some c', Some d =>
                      cons_fst (a * 4096 + b * 256 + c' * 16 + d)%N
                               (parse_string r'')
                  | _, _, _, _ => None
                  end
              | _ => None
              end
            else
              match unescape e with
              | Some x => cons_fst x (parse_string r')
              | None => None
              end
        end
      else if (c <? 0x20)%N then None
      else cons_fst c (parse_string r)
  end.

Fixpoint span_digits (s : jsstring) : jsstring * jsstring :=
  match s with
  | c :: r =>
      if is_digit c then let (ds, rest) := span_digits r in (c :: ds, rest)
      else ([], s)
  | [] => ([], [])
  end.

Definition digits_value (ds : jsstring) : Z :=
  fold_left (fun a d => (10 * a + (Z.of_N d - 48))%Z) ds 0%Z.

(** A JSON number: an optional minus, an integer part without leading
    zero, an optional fraction and an optional exponent. *)
Definition opt_minus (s : jsstring) : bool * jsstring :=
  match s with
  | c :: r => if (c =? 45)%N then (true, r) else (false, s)
  | [] => (false, s)
  end.

Definition int_part (s : jsstring) : option (jsstring * jsstring) :=
  match s with
  | c :: r =>
      if (c =? 48)%N then Some ([c], r)
      else match span_digits s with
           | ([], _) => None
           | (ds, rest) => Some (ds, rest)
           end
  | [] => None
  end.

Definition frac_part (s : jsstring) : option (jsstring * jsstring) :=
  match s with
  | c :: r =>
      if (c =? 46)%N then
        match span_digits r with
        | ([], _) => None
        | (fd, rest) => Some (fd, rest)
        end
      else Some ([], s)
  | [] => Some ([], s)
  end.

Definition exp_sign (s : jsstring) : bool * jsstring :=
  match s with
  | sg :: r =>
      if (sg =? 45)%N then (true, r)
      else if (sg =? 43)%N then (false, r)
      else (false, s)
  | [] => (false, s)
  end.

Definition exp_part (s : jsstring) : option (Z * jsstring) :=
  match s with
  | c :: r =>
      if ((c =? 101) || (c =? 69))%N then
        let (eneg, r1) := exp_sign r in
        match span_digits r1 with
        | ([], _) => None
        | (ed, rest) =>
            let x := digits_value ed in
            Some ((if eneg then - x else x)%Z, rest)
        end
      else Some (0%Z, s)
  | [] => Some (0%Z, s)
  end.

Definition parse_number (s : jsstring) : option (value * jsstring) :=
  let (neg, s1) := opt_minus s in
  match int_part s1 with
  | None => None
  | Some (ip, s2) =>
      match frac_part s2 with
      | None => None
      | Some (fd, s3) =>
          match exp_part s3 with
          | None => None
          | Some (ex, s4) =>
              let m := digits_value (ip ++ fd) in
              Some (VNum (if neg then - m else m)%Z
                         (ex - Z.of_nat (length fd))%Z, s4)
          end
      end
  end.

Definition parse_literal (s : jsstring) : option (value * jsstring) :=
  if startsWith (js "true") s then Some (VBool true, skipn 4 s)
  else if startsWith (js "false") s then Some (VBool false, skipn 5 s)
  else if startsWith (js "null") s then Some (VNull, skipn 4 s)
  else None.

Definition of_option (r : option (value * jsstring)) : presult value :=
  match r with
  | Some (v, rest) => POk v rest
  | None => PFail
  end.

(** Recursive descent; [fuel] bounds the nesting and the number of
    elements, and [parse_fuel] below always suffices. *)
Fixpoint parse_value (fuel : nat) (s : jsstring) {struct fuel}
  : presult value :=
  match fuel with
  | O => PFuel
  | S f =>
      match skip_ws s with
      | [] => PFail
      | c :: r =>
          if (c =? 123)%N then                          (* { *)
            match skip_ws r with
            | c' :: r' =>
                if (c' =? 125)%N then POk (VObj []) r'
                else parse_members f (c' :: r') []
            | [] => PFail
            end
          else if (c =? 91)%N then                      (* [ *)
            match skip_ws r with
            | c' :: r' =>
                if (c' =? 93)%N then POk (VArr []) r'
                else parse_elements f (c' :: r') []
            | [] => PFail
            end
          else if (c =? 34)%N then
            match parse_string r with
            | Some (x, rest) => POk (VStr x) rest
            | None => PFail
            end
          else if (c =? 45)%N || is_digit c
          then of_option (parse_number (c :: r))
          else of_option (parse_literal (c :: r))
      end
  end
with parse_elements (fuel : nat) (s : jsstring) (acc : list value)
       {struct fuel} : presult value :=
  match fuel with
  | O => PFuel
  | S f =>
      match parse_value f s with
      | POk v r =>
          match skip_ws r with
          | c :: r' =>
              if (c =? 44)%N then parse_elements f r' (v :: acc)
              else if (c =? 93)%N then POk (VArr (rev (v :: acc))) r'
              else PFail
          | [] => PFail
          end
      | PFail => PFail
      | PFuel => PFuel
      end
  end
with parse_members (fuel : nat) (s : jsstring)
       (acc : list (jsstring * value)) {struct fuel} : presult value :=
  match fuel with
  | O => PFuel
  | S f =>
      match skip_ws s with
      | c :: r =>
          if (c =? 34)%N then
            match parse_string r with
            | Some (k, r1) =>
                match skip_ws r1 with
                | c1 :: r2 =>
                    if (c1 =? 58)%N then
                      match parse_value f r2 with
                      | POk v r3 =>
                          match skip_ws r3 with
                          | c3 :: r4 =>
                              if (c3 =? 44)%N
                              then parse_members f r4 (obj_set acc k v)
                              else if (c3 =? 125)%N
                              then POk (VObj (obj_set acc k v)) r4
                              else PFail
                          | [] => PFail
                          end
                      | PFail => PFail
                      | PFuel => PFuel
                      end
                    else PFail
                | [] => PFail
                end
            | None => PFail
            end
          else PFail
      | [] => PFail
      end
  end.

Definition parse_fuel (s : jsstring) : nat := 2 * List.length s + 1.

(** [JSON.parse(text)]: [None] stands for the SyntaxError. *)
Definition parse (text : jsstring) : option value :=
  match parse_value (parse_fuel text) text with
  | POk v rest => match skip_ws rest with [] => Some v | _ => None end
  | _ => None
  end.

End Json.

(* ================================================================= *)
(** ** Encodings used for the Basic credentials *)

(** [Buffer.from(s)]: the UTF-8 bytes of a string; a lone surrogate is
    written as U+FFFD. *)
Definition utf8_of_code_point (cp : N) : list N :=
  if (cp <? 0x80)%N then [cp]
  else if (cp <? 0x800)%N then [(0xC0 + cp / 64)%N; (0x80 + cp mod 64)%N]
  else if (cp <? 0x10000)%N then
    [(0xE0 + cp / 4096)%N; (0x80 + (cp / 64) mod 64)%N; (0x80 + cp mod 64)%N]
  else
    [(0xF0 + cp / 262144)%N; (0x80 + (cp / 4096) mod 64)%N;
     (0x80 + (cp / 64) mod 64)%N; (0x80 + cp mod 64)%N].

Fixpoint utf8_encode (s : jsstring) : list N :=
  match s with
  | [] => []
  | c :: t =>
      if in_range 0xD800 0xDBFF c then
        match t with
        | d :: t' =>
            if in_range 0xDC00 0xDFFF d then
              utf8_of_code_point
                (0x10000 + (c - 0xD800) * 1024 + (d - 0xDC00))%N
                ++ utf8_encode t'
            else utf8_of_code_point 0xFFFD ++ utf8_encode t
        | [] => utf8_of_code_point 0xFFFD
        end
      else if in_range 0xDC00 0xDFFF c then
        utf8_of_code_point 0xFFFD ++ utf8_encode t
      else utf8_of_code_point c ++ utf8_encode t
  end.

Definition base64_digit (n : N) : N :=
  if (n <? 26)%N then (65 + n)%N
  else if (n <? 52)%N then (97 + (n - 26))%N
  else if (n <? 62)%N then (48 + (n - 52))%N
  else if (n =? 62)%N then 43%N
  else 47%N.

(** [buffer.toString("base64")]. *)
Fixpoint base64 (bytes : list N) : jsstring :=
  match bytes with
  | a :: b :: c :: rest =>
      base64_digit (a / 4) :: base64_digit ((a mod 4) * 16 + b / 16)
        :: base64_digit ((b mod 16) * 4 + c / 64) :: base64_digit (c mod 64)
        :: base64 rest
  | [a; b] =>
      [base64_digit (a / 4); base64_digit ((a mod 4) * 16 + b / 16);
       base64_digit ((b mod 16) * 4); 61%N]
  | [a] => [base64_digit (a / 4); base64_digit ((a mod 4) * 16); 61%N; 61%N]
  | [] => []
  end.

(** The decimal digits of a number, for status codes and array indices. *)
Definition decimal (n : N) : jsstring :=
  js (DecimalString.NilZero.string_of_uint (N.to_uint n)).

(* ================================================================= *)
(** ** The environment of the server and its effects *)

(** [process.env]: a variable is a string or undefined. *)
Record Env : Type := {
  JIRA_BASE_URL : option jsstring;
  JIRA_API_TOKEN : option jsstring;
  JIRA_PERSONAL_ACCESS_TOKEN : option jsstring;
  JIRA_USERNAME : option jsstring;
  JIRA_EMAIL : option jsstring;
  JIRA_CLOUD_ID : option jsstring;
  CLOUD_ID : option jsstring;
  GITHUB_TOKEN : option jsstring;
  GITHUB_REPO : option jsstring;
  GITHUB_DEFAULT_BRANCH : option jsstring;
  GITLAB_DEFAULT_BRANCH : option jsstring
}.

(** Truthiness of a variable, [a || b] and [!x || x.trim() === ""]. *)
Definition is_set (x : option jsstring) : bool :=
  match x with Some (_ :: _) => true | _ => false end.

Definition env_or (a b : option jsstring) : option jsstring :=
  if is_set a then a else b.

Definition get_or (a : option jsstring) (default : jsstring) : jsstring :=
  match a with Some (c :: s) => c :: s | _ => default end.

Definition blank (x : option jsstring) : bool :=
  match x with
  | Some (c :: s) => match trim (c :: s) with [] => true | _ => false end
  | _ => true
  end.

(** How an awaited step ends when it gives no value.  The first four are
    exceptions.  [Unsettled] is none: it says that the promise awaited never
    settles, so that the function that awaits it never goes on, and neither
    does whoever awaits that function; no [catch] sees it. *)
Inductive exn : Type :=
| Error (message : jsstring)     (* [new Error(message)] of the server *)
| TypeError                      (* raised by the runtime *)
| SyntaxError                    (* raised by [JSON.parse] *)
| Failure (reason : jsstring)    (* reported by a collaborator *)
| Unsettled.                     (* no exception: the promise stays pending *)

Inductive result (A : Type) : Type :=
| Ok (a : A)
| Throw (e : exn).
Arguments Ok {A} a.
Arguments Throw {A} e.

Record URL : Type := {
  protocol : jsstring;
  hostname : jsstring;
  port : jsstring;
  pathname : jsstring
}.

Record HttpRequest : Type := {
  req_hostname : jsstring;
  req_port : value;
  req_path : jsstring;
  req_method : jsstring;
  req_headers : list (jsstring * jsstring);
  req_data : option jsstring
}.

(** What becomes of an HTTPS request: a response received to its end; an
    error of the request before any response; or a response that begins
    (status line and headers) and whose connection is lost inside the
    body. *)
Inductive HttpReply : Type :=
| Response (statusCode : N) (body : jsstring)
| NetworkError (reason : jsstring)
| Aborted (statusCode : N) (received : jsstring).

(** What the server does to the outside, in the order it does it. *)
Inductive event : Type :=
| Exec (command cwd : jsstring)       (* [execAsync(command, {cwd})] *)
| Https (request : HttpRequest)       (* [https.request] *)
| Connect                             (* [jiraClient.connect] *)
| ToolsCall (name : jsstring) (args : value).   (* [tools/call], remote MCP *)

(** Everything the server does not decide: its configuration, the file
    system, the answers of its collaborators (which may change from one
    operation to the next: they are indexed by the number of operations
    performed so far) and the library functions that are not embedded.  An
    answer [Throw Unsettled] is an answer that never comes: a command that
    does not exit, a connection or a tool call that is never answered. *)
Record World : Type := {
  env : Env;
  cwd : jsstring;
  existsSync : jsstring -> bool;
  exec_reply : nat -> jsstring -> result jsstring;
  https_reply : nat -> HttpRequest -> HttpReply;
  connect_reply : nat -> result unit;
  tools_call_reply : nat -> jsstring -> value -> result value;
  JSON_stringify : value -> jsstring;         (* [JSON.stringify(v)] *)
  JSON_stringify_pretty : value -> jsstring;  (* [JSON.stringify(v, null, 2)] *)
  URL_parse : jsstring -> option URL;         (* [new URL(s)]; [None]: throws *)
  ToString : value -> jsstring                (* of numbers, arrays, objects *)
}.

(** The module-level variables and the record of effects. *)
Record State : Type := {
  trace : list event;
  jiraClient : bool       (* [jiraClient !== null] *)
}.

Definition initial : State := {| trace := []; jiraClient := false |}.

Definition M (A : Type) : Type := World -> State -> result A * State.

Definition ret {A} (a : A) : M A := fun _ s => (Ok a, s).

Definition throw {A} (e : exn) : M A := fun _ s => (Throw e, s).

Definition bind {A B} (m : M A) (k : A -> M B) : M B :=
  fun w s =>
    match m w s with
    | (Ok a, s') => k a w s'
    | (Throw e, s') => (Throw e, s')
    end.

(** [try { m } catch { h }]: the effects of [m] stay; when [m] awaits a
    promise that never settles, the handler is not run. *)
Definition try_catch {A} (m : M A) (h : exn -> M A) : M A :=
  fun w s =>
    match m w s with
    | (Ok a, s') => (Ok a, s')
    | (Throw Unsettled, s') => (Throw Unsettled, s')
    | (Throw e, s') => h e w s'
    end.

(** The step gives no value and raises no exception: its promise never
    settles. *)
Definition unsettled {A} (r : result A) : bool :=
  match r with Throw Unsettled => true | _ => false end.

(** The step raises an exception. *)
Definition raises {A} (r : result A) : bool :=
  match r with
  | Ok _ | Throw Unsettled => false
  | Throw _ => true
  end.

(** A pure step that may raise. *)
Definition lift {A} (r : result A) : M A := fun _ s => (r, s).

Definition world : M World := fun w s => (Ok w, s).

Declare Scope monad_scope.
Delimit Scope monad_scope with monad.
Notation "x <- m ;; k" := (bind m (fun x => k))
  (at level 61, m at next level, right associativity) : monad_scope.
Notation "m ;;; k" := (bind m (fun _ => k))
  (at level 61, right associativity) : monad_scope.
Open Scope monad_scope.

Definition log (s : State) (ev : event) : State :=
  {| trace := trace s ++ [ev]; jiraClient := jiraClient s |}.

(** [execAsync(command, { cwd })]: resolves with the standard output, or
    rejects. *)
Definition execAsync (command dir : jsstring) : M jsstring :=
  fun w s =>
    (exec_reply w (length (trace s)) command, log s (Exec command dir)).

(** [httpsRequest]: the promise is resolved or rejected by the listener of
    the [end] of the response, with the body of a 2xx answer or the error of
    another status, and rejected by the listener of the [error] of the
    request.  There is no listener for the [aborted], [error] or [close] of
    a response and no timeout: when the connection is lost inside the body,
    the response never ends and the promise stays pending. *)
Definition httpsRequest (options : HttpRequest) : M jsstring :=
  fun w s =>
    let s' := log s (Https options) in
    match https_reply w (length (trace s)) options with
    | Response code body =>
        if ((200 <=? code) && (code <? 300))%N then (Ok body, s')
        else (Throw (Error (js "HTTP " ++ decimal code ++ js ": " ++ body)), s')
    | NetworkError reason => (Throw (Failure reason), s')
    | Aborted _ _ => (Throw Unsettled, s')
    end.

(** [getJiraClient]: the client variable is assigned before the connection
    is awaited. *)
Definition getJiraClient : M unit :=
  fun w s =>
    if jiraClient s then (Ok tt, s)
    else
      let s' := {| trace := trace s ++ [Connect]; jiraClient := true |} in
      (connect_reply w (length (trace s)), s').

(** [client.request({ method: "tools/call", params: { name, arguments } })]. *)
Definition tools_call (name : jsstring) (args : value) : M value :=
  fun w s =>
    (tools_call_reply w (length (trace s)) name args,
     log s (ToolsCall name args)).

(** [String(v)] and template interpolation. *)
Definition toStr (w : World) (v : value) : jsstring :=
  match v with
  | VStr s => s
  | VUndef => js "undefined"
  | VNull => js "null"
  | VBool true => js "true"
  | VBool false => js "false"
  | _ => ToString w v
  end.

(** Property access [v.k]: a TypeError on [undefined] and [null]. *)
Definition get (v : value) (k : string) : result value :=
  match v with
  | VUndef | VNull => Throw TypeError
  | _ => Ok (opt_get v k)
  end.

(* ================================================================= *)
(** ** Branch automation *)

Definition endsWith (suffix s : jsstring) : bool :=
  startsWith (rev suffix) (rev s).

Definition strip_suffix (suffix s : jsstring) : jsstring :=
  if endsWith suffix s then firstn (length s - length suffix) s else s.

(** [s.split(sep)] for a separator of one code unit. *)
Fixpoint split (sep : N) (s : jsstring) : list jsstring :=
  match s with
  | [] => [[]]
  | c :: t =>
      if (c =? sep)%N then [] :: split sep t
      else match split sep t with
           | seg :: rest => (c :: seg) :: rest
           | [] => [[c]]
           end
  end.

Definition nonempty (s : jsstring) : bool :=
  match s with [] => false | _ => true end.

(** [p.replace(/^\/|\/$|\.git$/g, "")]: a slash at the start, and then a
    slash or [.git] at the end. *)
Definition strip_path (p : jsstring) : jsstring :=
  let at_end (s : jsstring) :=
    if endsWith (js "/") s then removelast s
    else strip_suffix (js ".git") s in
  match p with
  | c :: r => if (c =? 47)%N then at_end r else at_end p
  | [] => []
  end.

Definition parseGitHubRepo (w : World) (repo : jsstring)
  : option (jsstring * jsstring) :=
  let repoPath := trim repo in
  let repoPath' :=
    if startsWith (js "http://") repoPath || startsWith (js "https://") repoPath
    then match URL_parse w repoPath with
         | Some url => Some (strip_path (pathname url))
         | None => None
         end
    else Some repoPath in
  match repoPath' with
  | None => None
  | Some p =>
      let parts := filter nonempty (split 47 (strip_suffix (js ".git") p)) in
      match parts with
      | owner :: repoName :: _ => Some (owner, repoName)
      | _ => None
      end
  end.

Definition github_headers (token : jsstring) : list (jsstring * jsstring) :=
  [ (js "Authorization", js "token " ++ token);
    (js "User-Agent", js "jira-mcp-poc");
    (js "Accept", js "application/vnd.github.v3+json") ].

Definition getDefaultBranchSha (repo branch token : jsstring) : M value :=
  let parts := split 47 repo in
  let owner := nth 0 parts [] in
  let repoName := nth 1 parts [] in
  if negb (nonempty owner) || negb (nonempty repoName) then
    throw (Error (jsq "Invalid GITHUB_REPO format. Expected 'owner/repo', got: "
                    ++ repo))
  else
    let options :=
      {| req_hostname := js "api.github.com";
         req_port := VUndef;
         req_path := js "/repos/" ++ owner ++ js "/" ++ repoName
                       ++ js "/git/ref/heads/" ++ branch;
         req_method := js "GET";
         req_headers := github_headers token;
         req_data := None |} in
    response <- httpsRequest options ;;
    match Json.parse response with
    | None => throw SyntaxError
    | Some data =>
        object <- lift (get data "object") ;;
        lift (get object "sha")
    end.

(** The choice of the branch name, the same statement in both strategies:
    [if (customBranchName && customBranchName.trim())
       branchName = sanitizeBranchName(customBranchName.trim());
     else branchName = issueKey.toLowerCase();]
    The arguments are whatever the caller read from the tool arguments and
    the response, so a method call on something that is no string raises. *)
Definition chooseBranchName (issueKey customBranchName : value)
  : result jsstring :=
  let fromKey :=
    match issueKey with
    | VStr k => Ok (toLowerCase k)
    | _ => Throw TypeError
    end in
  if truthy customBranchName then
    match customBranchName with
    | VStr s =>
        match trim s with
        | [] => fromKey
        | c :: t => Ok (sanitizeBranchName (c :: t))
        end
    | _ => Throw TypeError
    end
  else fromKey.

Definition createGitHubBranch (issueKey customBranchName : value) : M unit :=
  w <- world ;;
  match GITHUB_TOKEN (env w), GITHUB_REPO (env w) with
  | Some (t0 :: t1), Some (r0 :: r1) =>
      let githubToken := t0 :: t1 in
      match parseGitHubRepo w (r0 :: r1) with
      | None => ret tt
      | Some (owner, repoName) =>
          try_catch
            (branchName <- lift (chooseBranchName issueKey customBranchName) ;;
             let defaultBranch :=
               get_or (GITHUB_DEFAULT_BRANCH (env w)) (js "main") in
             sha <- getDefaultBranchSha (owner ++ js "/" ++ repoName)
                      defaultBranch githubToken ;;
             let data :=
               JSON_stringify w
                 (VObj [ (js "ref", VStr (js "refs/heads/" ++ branchName));
                         (js "sha", sha) ]) in
             let options :=
               {| req_hostname := js "api.github.com";
                  req_port := VUndef;
                  req_path := js "/repos/" ++ owner ++ js "/" ++ repoName
                                ++ js "/git/refs";
                  req_method := js "POST";
                  req_headers :=
                    github_headers githubToken
                      ++ [(js "Content-Type", js "application/json")];
                  req_data := Some data |} in
             httpsRequest options ;;; ret tt)
            (fun _ => ret tt)
      end
  | _, _ => ret tt
  end.

(** [path.join(dir, name)]; the result only names a file for
    [existsSync]. *)
Definition path_join (dir name : jsstring) : jsstring :=
  dir ++ js "/" ++ name.

Definition branchExists (branchName repoPath : jsstring) : M bool :=
  try_catch
    (stdout <- execAsync (js "git branch --list " ++ branchName) repoPath ;;
     ret (nonempty (trim stdout)))
    (fun _ => ret false).

(** [try { await execAsync(command, { cwd }) } catch { }] *)
Definition attempt (command dir : jsstring) : M unit :=
  try_catch (execAsync command dir ;;; ret tt) (fun _ => ret tt).

Definition createGitLabBranch (issueKey customBranchName : value) : M unit :=
  w <- world ;;
  let localRepoPath := cwd w in
  if negb (existsSync w localRepoPath) then ret tt
  else
    let gitDir := path_join localRepoPath (js ".git") in
    if negb (existsSync w gitDir) then ret tt
    else
      try_catch
        (branchName <- lift (chooseBranchName issueKey customBranchName) ;;
         let defaultBranch :=
           get_or (GITLAB_DEFAULT_BRANCH (env w))
             (get_or (GITHUB_DEFAULT_BRANCH (env w)) (js "master")) in
         try_catch
           (attempt (js "git fetch origin") localRepoPath ;;;
            try_catch
              (execAsync (js "git checkout " ++ defaultBranch) localRepoPath
                 ;;; ret tt)
              (fun _ =>
                 attempt (js "git checkout -b " ++ defaultBranch)
                   localRepoPath) ;;;
            attempt (js "git pull origin " ++ defaultBranch) localRepoPath ;;;
            exists_ <- branchExists branchName localRepoPath ;;
            if negb exists_
            then attempt (js "git checkout -b " ++ branchName) localRepoPath
            else attempt (js "git checkout " ++ branchName) localRepoPath)
           (fun _ => ret tt))
        (fun _ => ret tt).

(* ================================================================= *)
(** ** The issue key of a response *)

Fixpoint span (p : N -> bool) (s : jsstring) : jsstring * jsstring :=
  match s with
  | c :: t => if p c then let (a, b) := span p t in (c :: a, b) else ([], s)
  | [] => ([], [])
  end.

(** A match of [[A-Z]+-\d+] that begins at the head of [s]: both
    repetitions are greedy, and giving letters back cannot help since a
    hyphen must follow them. *)
Definition match_key_here (s : jsstring) : option jsstring :=
  let (letters, r) := span is_upper s in
  match letters, r with
  | _ :: _, c :: r' =>
      if is_hyphen c then
        match span is_digit r' with
        | (d :: ds, _) => Some (letters ++ hyphen :: d :: ds)
        | ([], _) => None
        end
      else None
  | _, _ => None
  end.

(** [text.match(/([A-Z]+-\d+)/)]: the leftmost match, its group 1. *)
Fixpoint match_key (s : jsstring) : option jsstring :=
  match match_key_here s with
  | Some m => Some m
  | None =>
      match s with
      | [] => None
      | _ :: t => match_key t
      end
  end.

(** [parsed?.key || parsed?.fields?.key || parsed?.id || null] *)
Definition key_of_parsed (parsed : value) : value :=
  or_else (opt_get parsed "key")
    (or_else (opt_get (opt_get parsed "fields") "key")
       (or_else (opt_get parsed "id") VNull)).

(** [responseObj?.key || responseObj?.fields?.key || responseObj?.id
     || responseObj?.issueKey || null] *)
Definition key_of_fields (responseObj : value) : value :=
  or_else (opt_get responseObj "key")
    (or_else (opt_get (opt_get responseObj "fields") "key")
       (or_else (opt_get responseObj "id")
          (or_else (opt_get responseObj "issueKey") VNull))).

(** The loop over [responseObj.content].  It gives the value of the
    variable [issueKey] when the loop is left, and tells whether it was left
    by an exception. *)
Fixpoint scanContent (w : World) (issueKey : value) (content : list value)
  : value * result unit :=
  match content with
  | [] => (issueKey, Ok tt)
  | item :: rest =>
      match get item "type" with
      | Throw e => (issueKey, Throw e)
      | Ok type =>
          let text := opt_get item "text" in
          if is_lit type "text" && truthy text then
            match Json.parse (toStr w text) with
            | Some parsed =>
                let issueKey' := key_of_parsed parsed in
                if truthy issueKey' then (issueKey', Ok tt)
                else scanContent w issueKey' rest
            | None =>
                match text with
                | VStr s =>
                    match match_key s with
                    | Some keyMatch => (VStr keyMatch, Ok tt)
                    | None => scanContent w issueKey rest
                    end
                | _ => (issueKey, Throw TypeError)
                end
            end
          else scanContent w issueKey rest
      end
  end.

Definition handleCreateResponse (res branchNameInput : value) : M value :=
  w <- world ;;
  let responseObj :=
    match res with
    | VStr s => match Json.parse s with Some v => v | None => res end
    | _ => res
    end in
  if truthy (opt_get responseObj "isError")
     || truthy (opt_get responseObj "error")
  then ret VNull
  else
    let (issueKey, left) :=
      match opt_get responseObj "content" with
      | VArr content => scanContent w VNull content
      | _ => (key_of_fields responseObj, Ok tt)
      end in
    match left with
    | Throw _ => ret issueKey
    | Ok _ =>
        if truthy issueKey then
          let branchName := or_else branchNameInput VUndef in
          let hasGitHub :=
            is_set (GITHUB_TOKEN (env w)) && is_set (GITHUB_REPO (env w)) in
          let gitDir := path_join (cwd w) (js ".git") in
          let isGitRepo := existsSync w gitDir in
          try_catch
            ((if isGitRepo then createGitLabBranch issueKey branchName
              else if hasGitHub then createGitHubBranch issueKey branchName
              else ret tt) ;;;
             ret issueKey)
            (fun _ => ret issueKey)
        else ret issueKey
    end.

(* ================================================================= *)
(** ** The two backends *)

Inductive JiraType : Type := cloud | datacenter.

Definition getJiraType (w : World) : JiraType :=
  if blank (JIRA_BASE_URL (env w)) then cloud else datacenter.

Definition api_headers (authHeader : jsstring) : list (jsstring * jsstring) :=
  [ (js "Authorization", authHeader);
    (js "Content-Type", js "application/json");
    (js "Accept", js "application/json") ].

(** The messages of the errors of [callJiraDataCenterAPI], [getCloudId] and
    [callJiraDataCenterTool]. *)
Definition token_required : jsstring :=
  js "JIRA_API_TOKEN or JIRA_PERSONAL_ACCESS_TOKEN is required for Data "
  ++ js "Center. Please set one of these environment variables with your "
  ++ js "API token.".

Definition username_required : jsstring :=
  js "JIRA_USERNAME or JIRA_EMAIL is required for Data Center "
  ++ js "authentication when using API Token. For Personal Access Token, "
  ++ js "only JIRA_PERSONAL_ACCESS_TOKEN is needed.".

Definition no_authentication_method : jsstring :=
  js "Unable to determine authentication method. Please set "
  ++ js "JIRA_PERSONAL_ACCESS_TOKEN or JIRA_API_TOKEN with "
  ++ js "JIRA_USERNAME/JIRA_EMAIL.".

Definition cloud_id_not_set : jsstring :=
  js "JIRA_CLOUD_ID not set. Please set it in environment variables for "
  ++ js "Jira Cloud, or set JIRA_BASE_URL for Data Center.".

Definition not_implemented (name : jsstring) : jsstring :=
  js "Tool " ++ name ++ js " not yet implemented for Data Center. "
  ++ js "Please use Jira Cloud or implement this tool.".

(** [callJiraDataCenterAPI(endpoint, method = GET, body?)] *)
Definition callJiraDataCenterAPI
  (endpoint method : jsstring) (body : option value) : M value :=
  w <- world ;;
  let baseUrl := JIRA_BASE_URL (env w) in
  let token :=
    env_or (JIRA_API_TOKEN (env w)) (JIRA_PERSONAL_ACCESS_TOKEN (env w)) in
  let username := env_or (JIRA_USERNAME (env w)) (JIRA_EMAIL (env w)) in
  if blank baseUrl then
    throw (Error (js "JIRA_BASE_URL is required for Data Center"))
  else if blank token then
    throw (Error token_required)
  else
    let isPersonalAccessToken :=
      is_set (JIRA_PERSONAL_ACCESS_TOKEN (env w))
      && negb (is_set (JIRA_API_TOKEN (env w))) in
    if negb isPersonalAccessToken && blank username then
      throw (Error username_required)
    else
      match URL_parse w (get_or baseUrl []) with
      | None => throw TypeError
      | Some url =>
          let apiPath :=
            if startsWith (js "/rest/api") endpoint then endpoint
            else js "/rest/api/2/" ++ endpoint in
          let fullPath :=
            if endsWith (js "/") (pathname url)
            then removelast (pathname url) ++ apiPath
            else pathname url ++ apiPath in
          authHeader <-
            (if is_set (JIRA_PERSONAL_ACCESS_TOKEN (env w)) && is_set token
                && negb (is_set (JIRA_API_TOKEN (env w)))
             then ret (js "Bearer " ++ trim (get_or token []))
             else
               let authUsername :=
                 env_or (JIRA_EMAIL (env w))
                   (env_or (JIRA_USERNAME (env w)) username) in
               if is_set authUsername && is_set token then
                 let credentials :=
                   base64 (utf8_encode (trim (get_or authUsername [])
                                          ++ js ":" ++ trim (get_or token [])))
                 in ret (js "Basic " ++ credentials)
               else
                 throw (Error no_authentication_method)) ;;
          let options :=
            {| req_hostname := hostname url;
               req_port :=
                 if nonempty (port url) then VStr (port url)
                 else if str_eqb (protocol url) (js "https:")
                      then VNum 443 0 else VNum 80 0;
               req_path := fullPath;
               req_method := method;
               req_headers := api_headers authHeader;
               req_data :=
                 match body with
                 | Some b => Some (JSON_stringify w b)
                 | None => None
                 end |} in
          response <- httpsRequest options ;;
          if negb (nonempty response) || negb (nonempty (trim response))
          then ret (VObj [])
          else match Json.parse response with
               | Some v => ret v
               | None => ret (VObj [])
               end
      end.

(** The content-block envelope of a Data Center result. *)
Definition mcp_text (w : World) (result : value) : value :=
  VObj [ (js "content",
          VArr [ VObj [ (js "type", str "text");
                        (js "text",
                         VStr (JSON_stringify_pretty w result)) ] ]) ].

Definition GET : jsstring := js "GET".

(** [Object.entries(v)] of an object or an array. *)
Definition entries (v : value) : list (jsstring * value) :=
  match v with
  | VObj props => props
  | VArr items =>
      combine (map (fun i => decimal (N.of_nat i)) (seq 0 (length items))) items
  | _ => []
  end.

(** [Object.assign(target, source)] *)
Definition assign (target : list (jsstring * value)) (source : value)
  : list (jsstring * value) :=
  fold_left (fun acc kv => obj_set acc (fst kv) (snd kv))
    (entries source) target.

Definition callJiraDataCenterTool (name : jsstring) (args : value) : M value :=
  w <- world ;;
  let issue := js "issue/" ++ toStr w (opt_get args "issueIdOrKey") in
  if str_eqb name (js "getJiraIssue") then
    result <- callJiraDataCenterAPI issue GET None ;;
    ret (mcp_text w result)
  else if str_eqb name (js "createJiraIssue") then
    let fields :=
      [ (js "project", VObj [(js "key", opt_get args "projectKey")]);
        (js "summary", opt_get args "summary");
        (js "issuetype", VObj [(js "name", opt_get args "issueTypeName")]) ] in
    let fields :=
      if truthy (opt_get args "description")
      then obj_set fields (js "description") (opt_get args "description")
      else fields in
    let fields :=
      if truthy (opt_get args "fields") && is_object (opt_get args "fields")
      then assign fields (opt_get args "fields") else fields in
    result <- callJiraDataCenterAPI (js "issue") (js "POST")
                (Some (VObj [(js "fields", VObj fields)])) ;;
    ret (mcp_text w result)
  else if str_eqb name (js "editJiraIssue") then
    let body := [] in
    let body :=
      if truthy (opt_get args "fields") && is_object (opt_get args "fields")
      then obj_set body (js "fields") (opt_get args "fields") else body in
    let body :=
      if truthy (opt_get args "update") && is_object (opt_get args "update")
      then obj_set body (js "update") (opt_get args "update") else body in
    result <- callJiraDataCenterAPI issue (js "PUT") (Some (VObj body)) ;;
    ret (mcp_text w result)
  else if str_eqb name (js "getTransitionsForJiraIssue") then
    result <- callJiraDataCenterAPI (issue ++ js "/transitions") GET None ;;
    ret (mcp_text w result)
  else if str_eqb name (js "transitionJiraIssue") then
    let transitionData := [(js "transition", opt_get args "transition")] in
    let transitionData :=
      if truthy (opt_get args "fields")
      then obj_set transitionData (js "fields") (opt_get args "fields")
      else transitionData in
    result <- callJiraDataCenterAPI (issue ++ js "/transitions") (js "POST")
                (Some (VObj transitionData)) ;;
    ret (mcp_text w result)
  else if str_eqb name (js "getVisibleJiraProjects") then
    result <- callJiraDataCenterAPI (js "project") GET None ;;
    ret (mcp_text w result)
  else if str_eqb name (js "getJiraProjectIssueTypesMetadata") then
    result <- callJiraDataCenterAPI
                (js "project/" ++ toStr w (opt_get args "projectIdOrKey")
                   ++ js "/statuses") GET None ;;
    ret (mcp_text w result)
  else if str_eqb name (js "getJiraIssueTypeMetaWithFields") then
    result <- callJiraDataCenterAPI
                (js "issue/createmeta?projectKeys="
                   ++ toStr w (opt_get args "projectIdOrKey")
                   ++ js "&issuetypeNames="
                   ++ toStr w (opt_get args "issueTypeId"))
                GET None ;;
    ret (mcp_text w result)
  else if str_eqb name (js "addCommentToJiraIssue") then
    result <- callJiraDataCenterAPI (issue ++ js "/comment") (js "POST")
                (Some (VObj [(js "body", opt_get args "commentBody")])) ;;
    ret (mcp_text w result)
  else
    throw (Error (not_implemented name)).

Definition callJiraTool (name : jsstring) (args : value) : M value :=
  w <- world ;;
  match getJiraType w with
  | datacenter => callJiraDataCenterTool name args
  | cloud => getJiraClient ;;; tools_call name args
  end.

(** [getCloudId()]; [s.replace(/^["']|["']$/g, '')] takes one quote away
    at each end. *)
Definition is_quote (c : N) : bool := ((c =? 34) || (c =? 39))%N.

Definition unquote (s : jsstring) : jsstring :=
  let at_end (r : jsstring) :=
    match rev r with
    | c :: t => if is_quote c then rev t else r
    | [] => r
    end in
  match s with
  | c :: r => if is_quote c then at_end r else at_end s
  | [] => []
  end.

Definition getCloudId (w : World) : result jsstring :=
  match getJiraType w with
  | datacenter =>
      match JIRA_BASE_URL (env w) with
      | Some (c :: s) => Ok (c :: s)
      | _ => Throw (Error (js "JIRA_BASE_URL is required for Data Center"))
      end
  | cloud =>
      match env_or (JIRA_CLOUD_ID (env w)) (CLOUD_ID (env w)) with
      | Some (c :: s) => Ok (trim (unquote (c :: s)))
      | _ => Throw (Error cloud_id_not_set)
      end
  end.

(* ================================================================= *)
(** ** The composite tools *)

(** [(args.cloudId as string) || getCloudId()] *)
Definition resolveCloudId (args : value) : M value :=
  w <- world ;;
  if truthy (opt_get args "cloudId") then ret (opt_get args "cloudId")
  else id <- lift (getCloudId w) ;; ret (VStr id).

(** [!x || x.trim() === ""] for a tool argument. *)
Definition missing (x : value) : result bool :=
  if truthy x then
    match x with
    | VStr s => Ok (negb (nonempty (trim s)))
    | _ => Throw TypeError
    end
  else Ok true.

(** [String(x).trim()] *)
Definition trimmed (w : World) (x : value) : value := VStr (trim (toStr w x)).

Definition require (x : value) (message : string) : M unit :=
  m <- lift (missing x) ;;
  if m then throw (Error (js message)) else ret tt.

Definition createJiraIssueWithBranch (args : value) : M value :=
  w <- world ;;
  cloudId <- resolveCloudId args ;;
  let projectKey := opt_get args "projectKey" in
  let issueTypeName := opt_get args "issueTypeName" in
  let summary := opt_get args "summary" in
  require projectKey "projectKey is required and cannot be empty" ;;;
  require issueTypeName "issueTypeName is required and cannot be empty" ;;;
  require summary "summary is required and cannot be empty" ;;;
  let summaryValue := trimmed w summary in
  let descriptionValue :=
    match opt_get args "description" with
    | VStr d =>
        if nonempty d && nonempty (trim d) then VStr (trim d) else VUndef
    | _ => VUndef
    end in
  let fields :=
    if truthy (opt_get args "fields") && is_object (opt_get args "fields") then
      fold_left
        (fun fields kv =>
           if str_eqb (fst kv) (js "summary")
              || str_eqb (fst kv) (js "description")
           then fields else obj_set fields (fst kv) (snd kv))
        (entries (opt_get args "fields")) []
    else [] in
  let createArgs :=
    [ (js "projectKey", trimmed w projectKey);
      (js "issueTypeName", trimmed w issueTypeName);
      (js "summary", summaryValue) ] in
  let createArgs :=
    if truthy descriptionValue
    then obj_set createArgs (js "description") descriptionValue
    else createArgs in
  let createArgs :=
    if (0 <? length fields)%nat
    then obj_set createArgs (js "fields") (VObj fields) else createArgs in
  let createArgs :=
    match getJiraType w with
    | cloud => obj_set createArgs (js "cloudId") (trimmed w cloudId)
    | datacenter => createArgs
    end in
  res <- callJiraTool (js "createJiraIssue") (VObj createArgs) ;;
  issueKey <- handleCreateResponse res (opt_get args "branchName") ;;
  ret (mcp_text w
         (VObj [ (js "success", VBool true);
                 (js "issueKey", issueKey);
                 (js "message",
                  VStr (if truthy issueKey
                        then js "Issue " ++ toStr w issueKey
                               ++ js " created successfully and branch created"
                        else js "Issue created successfully"));
                 (js "data", res) ])).

(** The assignee representation chosen for [assigneeInput]. *)
Definition assigneeField (assigneeInput : jsstring) : value :=
  if str_eqb (toLowerCase assigneeInput) (js "unassign")
     || negb (nonempty assigneeInput)
  then VObj [(js "assignee", VNull)]
  else if includes (js "@") assigneeInput
  then VObj [(js "assignee", VObj [(js "emailAddress", VStr assigneeInput)])]
  else if includes (js ":") assigneeInput || (30 <? length assigneeInput)%nat
  then VObj [(js "assignee", VObj [(js "accountId", VStr assigneeInput)])]
  else VObj [(js "assignee", VObj [(js "name", VStr assigneeInput)])].

Definition assignJiraIssueWithAnalysis (args : value) : M value :=
  w <- world ;;
  cloudId <- resolveCloudId args ;;
  match opt_get args "assignee" with
  | VStr assigneeInput =>
      res <- callJiraTool (js "editJiraIssue")
               (VObj [ (js "cloudId", cloudId);
                       (js "issueIdOrKey", opt_get args "issueIdOrKey");
                       (js "fields", assigneeField assigneeInput) ]) ;;
      ret (mcp_text w
             (VObj [ (js "success", VBool true);
                     (js "message",
                      VStr (js "Issue " ++ toStr w (opt_get args "issueIdOrKey")
                              ++ js " assigned successfully"));
                     (js "data", res) ]))
  | _ => throw TypeError
  end.

(** [x?.toLowerCase().includes("review")] *)
Definition mentions_review (x : value) : result bool :=
  match x with
  | VUndef | VNull => Ok false
  | VStr s => Ok (includes (js "review") (toLowerCase s))
  | _ => Throw TypeError
  end.

(** The predicate handed to [find]. *)
Definition is_review_transition (t : value) : result bool :=
  match get t "name" with
  | Throw e => Throw e
  | Ok name =>
      match mentions_review name with
      | Throw e => Throw e
      | Ok true => Ok true
      | Ok false => mentions_review (opt_get (opt_get t "to") "name")
      end
  end.

(** [transitions.find(predicate)] *)
Fixpoint find_transition (transitions : list value) : result (option value) :=
  match transitions with
  | [] => Ok None
  | t :: rest =>
      match is_review_transition t with
      | Throw e => Throw e
      | Ok true => Ok (Some t)
      | Ok false => find_transition rest
      end
  end.

Definition no_review_transition : exn :=
  Error (js "No 'In Review' transition found for this issue").

Definition transitionJiraIssueToReview (args : value) : M value :=
  w <- world ;;
  cloudId <- resolveCloudId args ;;
  transitionsRes <-
    callJiraTool (js "getTransitionsForJiraIssue")
      (VObj [ (js "cloudId", cloudId);
              (js "issueIdOrKey", opt_get args "issueIdOrKey") ]) ;;
  let transitions := or_else (opt_get transitionsRes "transitions") (VArr []) in
  reviewTransition <-
    match transitions with
    | VArr ts => lift (find_transition ts)
    | _ => throw TypeError
    end ;;
  match reviewTransition with
  | None => throw no_review_transition
  | Some t =>
      res <- callJiraTool (js "transitionJiraIssue")
               (VObj [ (js "cloudId", cloudId);
                       (js "issueIdOrKey", opt_get args "issueIdOrKey");
                       (js "transition", VObj [(js "id", opt_get t "id")]) ]) ;;
      ret (mcp_text w
             (VObj [ (js "success", VBool true);
                     (js "message",
                      VStr (js "Issue " ++ toStr w (opt_get args "issueIdOrKey")
                              ++ js " transitioned to review"));
                     (js "data", res) ]))
  end.

Definition analyzeJiraIssue (args : value) : M value :=
  w <- world ;;
  cloudId <- resolveCloudId args ;;
  let issueIdOrKey := opt_get args "issueIdOrKey" in
  require issueIdOrKey "issueIdOrKey is required and cannot be empty" ;;;
  issueRes <- callJiraTool (js "getJiraIssue")
                (VObj [ (js "cloudId", cloudId);
                        (js "issueIdOrKey", trimmed w issueIdOrKey) ]) ;;
  createGitLabBranch (trimmed w issueIdOrKey) (opt_get args "branchName") ;;;
  ret (mcp_text w
         (VObj [ (js "success", VBool true);
                 (js "message",
                  VStr (js "Branch created/checked out for issue "
                          ++ toStr w issueIdOrKey
                          ++ js ". Ready for analysis."));
                 (js "issueKey", trimmed w issueIdOrKey);
                 (js "issue", issueRes) ])).

(** The handler of [tools/call]. *)
Definition callTool (toolName : jsstring) (arguments : value) : M value :=
  let args := or_else arguments (VObj []) in
  if str_eqb toolName (js "createJiraIssueWithBranch")
  then createJiraIssueWithBranch args
  else if str_eqb toolName (js "assignJiraIssueWithAnalysis")
  then assignJiraIssueWithAnalysis args
  else if str_eqb toolName (js "transitionJiraIssueToReview")
  then transitionJiraIssueToReview args
  else if str_eqb toolName (js "analyzeJiraIssue")
  then analyzeJiraIssue args
  else callJiraTool toolName args.

(** Running a tool call from the state the server starts in. *)
Definition run {A} (m : M A) (w : World) : result A * list event :=
  let (r, s) := m w initial in (r, trace s).

(* ================================================================= *)
(** ** The extraction, as the specification words it *)

(** A tool result of the data model: an object; when it carries a list of
    content blocks, the blocks are objects whose [text], if any, is a
    string. *)
Definition content_block (item : value) : bool :=
  match item with
  | VObj _ =>
      match opt_get item "text" with
      | VStr _ | VUndef => true
      | _ => false
      end
  | _ => false
  end.

Definition tool_result (res : value) : bool :=
  match res with
  | VObj _ =>
      match opt_get res "content" with
      | VArr blocks => forallb content_block blocks
      | _ => true
      end
  | _ => false
  end.

Definition has_error_flag (res : value) : bool :=
  truthy (opt_get res "isError") || truthy (opt_get res "error").

(** The first of the listed values that is there (and truthy). *)
Definition first_present (candidates : list value) : option value :=
  find truthy candidates.

(** [^[A-Z]+-[0-9]+$], read as an automaton: the letters, the hyphen, the
    digits. *)
Inductive key_state : Type := AtStart | InLetters | AfterHyphen | InDigits.

Fixpoint key_pattern_from (q : key_state) (s : jsstring) : bool :=
  match s with
  | [] => match q with InDigits => true | _ => false end
  | c :: t =>
      match q with
      | AtStart => is_upper c && key_pattern_from InLetters t
      | InLetters =>
          if is_upper c then key_pattern_from InLetters t
          else is_hyphen c && key_pattern_from AfterHyphen t
      | AfterHyphen | InDigits => is_digit c && key_pattern_from InDigits t
      end
  end.

Definition key_pattern (s : jsstring) : bool := key_pattern_from AtStart s.

(** The longest piece at the head of [text] that satisfies [p]. *)
Fixpoint longest_prefix (p : jsstring -> bool) (text : jsstring)
  : option jsstring :=
  match text with
  | [] => if p [] then Some [] else None
  | c :: t =>
      match longest_prefix (fun m => p (c :: m)) t with
      | Some m => Some (c :: m)
      | None => if p [] then Some [] else None
      end
  end.

(** The first match of a pattern in a text: it begins at the leftmost
    place where a match begins, and is the longest match that begins there
    (for [[A-Z]+-[0-9]+], whose two repetitions are greedy and cannot give
    back, that is the match of [String.prototype.match]). *)
Fixpoint first_match (p : jsstring -> bool) (text : jsstring)
  : option jsstring :=
  match longest_prefix p text with
  | Some m => Some m
  | None =>
      match text with
      | [] => None
      | _ :: t => first_match p t
      end
  end.

(** What one block yields: nothing unless it is a text block with a text;
    the fields of the parsed text when the text is JSON; otherwise the first
    match of the pattern. *)
Definition extract_block (block : value) : option value :=
  match opt_get block "text" with
  | VStr (c :: text) =>
      if is_lit (opt_get block "type") "text" then
        match Json.parse (c :: text) with
        | Some parsed =>
            first_present [ opt_get parsed "key";
                            opt_get (opt_get parsed "fields") "key";
                            opt_get parsed "id" ]
        | None => option_map VStr (first_match key_pattern (c :: text))
        end
      else None
  | _ => None
  end.

Fixpoint first_found {A B : Type} (f : A -> option B) (l : list A)
  : option B :=
  match l with
  | [] => None
  | x :: rest =>
      match f x with
      | Some y => Some y
      | None => first_found f rest
      end
  end.

Definition or_null (o : option value) : value :=
  match o with Some v => v | None => VNull end.

Definition extraction (res : value) : value :=
  if has_error_flag res then VNull
  else
    match opt_get res "content" with
    | VArr blocks => or_null (first_found extract_block blocks)
    | _ =>
        or_null (first_present [ opt_get res "key";
                                 opt_get (opt_get res "fields") "key";
                                 opt_get res "id";
                                 opt_get res "issueKey" ])
    end.

(** [^[A-Z]+-[0-9]+$]: the whole string is an issue key. *)
Definition is_issue_key (s : jsstring) : bool :=
  let (letters, r) := span is_upper s in
  match letters, r with
  | _ :: _, c :: r' =>
      is_hyphen c && nonempty r' && forallb is_digit r'
  | _, _ => false
  end.

(** The three results of the examples. *)
Definition text_block (text : jsstring) : value :=
  VObj [(js "type", str "text"); (js "text", VStr text)].

Definition result_with_key_block : value :=
  VObj [(js "content", VArr [text_block (jsq "{'key':'OPS-7'}")])].

Definition result_flat : value := VObj [(js "key", str "OPS-9")].

Definition result_error : value := VObj [(js "isError", VBool true)].

(** The answer of the tracker to a created issue, in a content block. *)
Definition result_created : value :=
  VObj [(js "content",
         VArr [text_block
                 (jsq "{'id':'10001','self':'https://jira.example.com/i'}")])].

(* ================================================================= *)
(** ** Concrete configurations and worlds, for the examples *)

Definition no_env : Env :=
  {| JIRA_BASE_URL := None; JIRA_API_TOKEN := None;
     JIRA_PERSONAL_ACCESS_TOKEN := None; JIRA_USERNAME := None;
     JIRA_EMAIL := None; JIRA_CLOUD_ID := None; CLOUD_ID := None;
     GITHUB_TOKEN := None; GITHUB_REPO := None;
     GITHUB_DEFAULT_BRANCH := None; GITLAB_DEFAULT_BRANCH := None |}.

(** [new URL] on the one address the examples use. *)
Definition example_URL_parse (s : jsstring) : option URL :=
  if str_eqb s (js "https://jira.example.com") then
    Some {| protocol := js "https:"; hostname := js "jira.example.com";
            port := []; pathname := js "/" |}
  else None.

(** A world with the configuration [e], outside a git working copy, in
    which the tracker answers [reply] to every HTTPS request and the remote
    MCP answers [answer] to every tool call. *)
Definition example_world (e : Env) (reply : HttpReply) (answer : result value)
  : World :=
  {| env := e;
     cwd := js "/work";
     existsSync := fun _ => false;
     exec_reply := fun _ _ => Throw (Failure (js "exit status 128"));
     https_reply := fun _ _ => reply;
     connect_reply := fun _ => Ok tt;
     tools_call_reply := fun _ _ _ => answer;
     JSON_stringify := fun _ => js "{}";
     JSON_stringify_pretty := fun _ => js "{}";
     URL_parse := example_URL_parse;
     ToString := fun _ => js "[object Object]" |}.

(** Nothing configured, nobody answers. *)
Definition offline : World :=
  example_world no_env (NetworkError (js "ECONNREFUSED"))
    (Throw (Failure (js "not connected"))).

(** A result whose only block is a sentence, not JSON. *)
Definition result_sentence : value :=
  VObj [(js "content",
         VArr [text_block (js "Created issue OPS-12 in project OPS")])].

(* ================================================================= *)
(** ** The classification of an assignee, as the specification words it *)

Inductive AssigneeForm : Type :=
| ClearAssignee       (* [{ assignee: null }] *)
| EmailForm           (* [{ assignee: { emailAddress } }] *)
| AccountIdForm       (* [{ assignee: { accountId } }] *)
| NameForm.           (* [{ assignee: { name } }] *)

(** Equality up to the case of the ASCII letters; [t] is in lower case. *)
Definition same_letter (c x : N) : bool :=
  (c =? x)%N || (is_upper c && (c + 32 =? x)%N).

Fixpoint eq_ignoring_case (s t : jsstring) : bool :=
  match s, t with
  | [], [] => true
  | c :: s', x :: t' => same_letter c x && eq_ignoring_case s' t'
  | _, _ => false
  end.

Definition contains (c : N) (s : jsstring) : bool := existsb (N.eqb c) s.

Definition classify (assignee : jsstring) : AssigneeForm :=
  if negb (nonempty assignee) || eq_ignoring_case assignee (js "unassign")
  then ClearAssignee
  else if contains 64 assignee then EmailForm                (* "@" *)
  else if contains 58 assignee || (30 <? length assignee)%nat  (* ":" *)
  then AccountIdForm
  else NameForm.

Definition represent (form : AssigneeForm) (assignee : jsstring) : value :=
  VObj [(js "assignee",
         match form with
         | ClearAssignee => VNull
         | EmailForm => VObj [(js "emailAddress", VStr assignee)]
         | AccountIdForm => VObj [(js "accountId", VStr assignee)]
         | NameForm => VObj [(js "name", VStr assignee)]
         end)].

(** The arguments of [assignJiraIssueWithAnalysis] in the examples. *)
Definition assign_args (assignee : string) : value :=
  VObj [ (js "cloudId", str "c-1"); (js "issueIdOrKey", str "OPS-1");
         (js "assignee", str assignee) ].

(** A world in Cloud mode whose remote MCP answers an empty result. *)
Definition cloud_world : World :=
  example_world no_env (NetworkError (js "ECONNREFUSED"))
    (Ok (VObj [(js "content", VArr [])])).

(* ================================================================= *)
(** ** The validation of [createJiraIssueWithBranch], as the
       specification words it *)

(** The first of the three required arguments that is missing or blank
    after trimming, the ones before it being non-blank strings. *)
Definition first_blank (args : value) : option string :=
  match missing (opt_get args "projectKey") with
  | Ok true => Some "projectKey"%string
  | Ok false =>
      match missing (opt_get args "issueTypeName") with
      | Ok true => Some "issueTypeName"%string
      | Ok false =>
          match missing (opt_get args "summary") with
          | Ok true => Some "summary"%string
          | _ => None
          end
      | Throw _ => None
      end
  | Throw _ => None
  end.

(** The cloud identifier of a call: the argument, or the configuration. *)
Definition cloud_id (w : World) (args : value) : result value :=
  if truthy (opt_get args "cloudId") then Ok (opt_get args "cloudId")
  else match getCloudId w with
       | Ok id => Ok (VStr id)
       | Throw e => Throw e
       end.

Definition validation_error (field : string) : exn :=
  Error (js field ++ js " is required and cannot be empty").

(** Arguments with a blank issue type, for the examples. *)
Definition blank_type_args : value :=
  VObj [ (js "cloudId", str "c-1"); (js "projectKey", str "OPS");
         (js "issueTypeName", str "   "); (js "summary", str "Fix login") ].

(* ================================================================= *)
(** ** The resolution of the authentication, as the specification words
       it *)

Inductive AuthScheme : Type :=
| Bearer (token : jsstring)
| Basic (username token : jsstring).

(** The value of the [Authorization] header of a scheme. *)
Definition authorization (scheme : AuthScheme) : jsstring :=
  match scheme with
  | Bearer token => js "Bearer " ++ token
  | Basic username token =>
      js "Basic " ++ base64 (utf8_encode (username ++ js ":" ++ token))
  end.

(** A credential is configured when its variable holds more than white
    space.  Tokens and names are sent without the white space around
    them. *)
Definition configured (x : option jsstring) : bool := negb (blank x).

Definition credential (x : option jsstring) : jsstring := trim (get_or x []).

(** The resolution as the specification words it: a personal access
    token configured and no legacy token configured: [Bearer]; else a legacy
    token and a user name or an e-mail address both configured: [Basic],
    with the e-mail address when there is one and the user name otherwise
    (the specification does not say which of the two is sent when both are
    there); otherwise no scheme. *)
Definition resolveAuth (e : Env) : option AuthScheme :=
  if configured (JIRA_PERSONAL_ACCESS_TOKEN e)
     && negb (configured (JIRA_API_TOKEN e))
  then Some (Bearer (credential (JIRA_PERSONAL_ACCESS_TOKEN e)))
  else if configured (JIRA_API_TOKEN e)
          && (configured (JIRA_USERNAME e) || configured (JIRA_EMAIL e))
  then Some (Basic (credential (if configured (JIRA_EMAIL e)
                                then JIRA_EMAIL e else JIRA_USERNAME e))
                   (credential (JIRA_API_TOKEN e)))
  else None.

(** No credential is set to white space only: each of the four variables
    is unset, empty, or configured. *)
Definition no_blank_variable (e : Env) : bool :=
  forallb (fun x => Bool.eqb (is_set x) (configured x))
    [ JIRA_PERSONAL_ACCESS_TOKEN e; JIRA_API_TOKEN e;
      JIRA_USERNAME e; JIRA_EMAIL e ].

(** The tests of the credentials and the [authHeader] of
    [callJiraDataCenterAPI], in the order of the source. *)
Definition authHeader (e : Env) : result jsstring :=
  let token := env_or (JIRA_API_TOKEN e) (JIRA_PERSONAL_ACCESS_TOKEN e) in
  let username := env_or (JIRA_USERNAME e) (JIRA_EMAIL e) in
  if blank token then Throw (Error token_required)
  else
    let isPersonalAccessToken :=
      is_set (JIRA_PERSONAL_ACCESS_TOKEN e)
      && negb (is_set (JIRA_API_TOKEN e)) in
    if negb isPersonalAccessToken && blank username then
      Throw (Error username_required)
    else if is_set (JIRA_PERSONAL_ACCESS_TOKEN e) && is_set token
            && negb (is_set (JIRA_API_TOKEN e))
    then Ok (js "Bearer " ++ trim (get_or token []))
    else
      let authUsername :=
        env_or (JIRA_EMAIL e) (env_or (JIRA_USERNAME e) username) in
      if is_set authUsername && is_set token then
        Ok (js "Basic "
            ++ base64 (utf8_encode (trim (get_or authUsername [])
                                      ++ js ":" ++ trim (get_or token []))))
      else Throw (Error no_authentication_method).

(** The request of [callJiraDataCenterAPI] for the base URL [url] and the
    value [authorization] of its [Authorization] header. *)
Definition jira_request (w : World) (url : URL) (authorization : jsstring)
  (endpoint method : jsstring) (body : option value) : HttpRequest :=
  {| req_hostname := hostname url;
     req_port :=
       if nonempty (port url) then VStr (port url)
       else if str_eqb (protocol url) (js "https:")
            then VNum 443 0 else VNum 80 0;
     req_path :=
       (if endsWith (js "/") (pathname url)
        then removelast (pathname url) else pathname url)
       ++ (if startsWith (js "/rest/api") endpoint then endpoint
           else js "/rest/api/2/" ++ endpoint);
     req_method := method;
     req_headers :=
       [ (js "Authorization", authorization);
         (js "Content-Type", js "application/json");
         (js "Accept", js "application/json") ];
     req_data := option_map (JSON_stringify w) body |}.

(** Data Center configurations for the examples. *)
Definition dc_env (pat api_token username : option jsstring) : Env :=
  {| JIRA_BASE_URL := Some (js "https://jira.example.com");
     JIRA_API_TOKEN := api_token;
     JIRA_PERSONAL_ACCESS_TOKEN := pat;
     JIRA_USERNAME := username;
     JIRA_EMAIL := None; JIRA_CLOUD_ID := None; CLOUD_ID := None;
     GITHUB_TOKEN := None; GITHUB_REPO := None;
     GITHUB_DEFAULT_BRANCH := None; GITLAB_DEFAULT_BRANCH := None |}.

(** The same with an e-mail address. *)
Definition dc_env_mail (pat api_token username email : option jsstring)
  : Env :=
  {| JIRA_BASE_URL := Some (js "https://jira.example.com");
     JIRA_API_TOKEN := api_token;
     JIRA_PERSONAL_ACCESS_TOKEN := pat;
     JIRA_USERNAME := username;
     JIRA_EMAIL := email; JIRA_CLOUD_ID := None; CLOUD_ID := None;
     GITHUB_TOKEN := None; GITHUB_REPO := None;
     GITHUB_DEFAULT_BRANCH := None; GITLAB_DEFAULT_BRANCH := None |}.

(** A legacy token and the user name [bob], with [JIRA_EMAIL] set to one
    space. *)
Definition blank_email_world : World :=
  example_world
    (dc_env_mail None (Some (js "t0k")) (Some (js "bob")) (Some (js " ")))
    (Response 200 (js "{}")) (Throw (Failure (js "not connected"))).

(** A personal access token, with [JIRA_API_TOKEN] set to one space. *)
Definition blank_legacy_world : World :=
  example_world (dc_env_mail (Some (js "pat")) (Some (js " ")) None None)
    (Response 200 (js "{}")) (Throw (Failure (js "not connected"))).

(** A Data Center with a personal access token, whose tracker answers
    [reply]. *)
Definition dc_world (reply : HttpReply) : World :=
  example_world (dc_env (Some (js " secret ")) None None) reply
    (Throw (Failure (js "not connected"))).

(** The same with a legacy token and a user name. *)
Definition dc_world_legacy (reply : HttpReply) : World :=
  example_world (dc_env None (Some (js "pass")) (Some (js "user"))) reply
    (Throw (Failure (js "not connected"))).

(** What [callJiraDataCenterAPI] makes of the answer to its request. *)
Definition response_value (response : jsstring) : value :=
  if negb (nonempty response) || negb (nonempty (trim response)) then VObj []
  else match Json.parse response with
       | Some v => v
       | None => VObj []
       end.

Definition outcome_of (reply : HttpReply) : result value :=
  match reply with
  | Response code body =>
      if ((200 <=? code) && (code <? 300))%N then Ok (response_value body)
      else Throw (Error (js "HTTP " ++ decimal code ++ js ": " ++ body))
  | NetworkError reason => Throw (Failure reason)
  | Aborted _ _ => Throw Unsettled
  end.

(* ================================================================= *)
(** ** The transitions of the examples *)

Definition review_args : value := VObj [(js "issueIdOrKey", str "OPS-1")].

(** [[{id:1,name:"Done"},{id:2,name:"In Review"}]] *)
Definition example_transitions : list value :=
  [ VObj [(js "id", VNum 1 0); (js "name", str "Done")];
    VObj [(js "id", VNum 2 0); (js "name", str "In Review")] ].

(** The same, as the tracker reports them. *)
Definition transitions_json : jsstring :=
  jsq "{'transitions':[{'id':1,'name':'Done'},{'id':2,'name':'In Review'}]}".

(** A transition as the handler expects it: an object whose [name] and
    whose target status, if any, are well formed. *)
Definition name_ok (x : value) : bool :=
  match x with VUndef | VNull | VStr _ => true | _ => false end.

Definition transition_ok (t : value) : bool :=
  match t with
  | VObj _ =>
      name_ok (opt_get t "name") && name_ok (opt_get (opt_get t "to") "name")
  | _ => false
  end.

(** [x] is a string that contains "review", whatever the case. *)
Definition names_review (x : value) : bool :=
  match x with
  | VStr s => includes (js "review") (toLowerCase s)
  | _ => false
  end.

Definition is_review (t : value) : bool :=
  names_review (opt_get t "name")
  || names_review (opt_get (opt_get t "to") "name").

(** A world in Cloud mode, with a cloud identifier, whose remote MCP
    answers every tool call with the transitions at the top of the result. *)
Definition cloud_world_with_transitions : World :=
  example_world
    {| JIRA_BASE_URL := None; JIRA_API_TOKEN := None;
       JIRA_PERSONAL_ACCESS_TOKEN := None; JIRA_USERNAME := None;
       JIRA_EMAIL := None; JIRA_CLOUD_ID := Some (js "c-1"); CLOUD_ID := None;
       GITHUB_TOKEN := None; GITHUB_REPO := None;
       GITHUB_DEFAULT_BRANCH := None; GITLAB_DEFAULT_BRANCH := None |}
    (NetworkError (js "ECONNREFUSED"))
    (Ok (VObj [(js "transitions", VArr example_transitions)])).

(** Comparisons of code units, as propositions for [lia]. *)
Ltac n_bool :=
  unfold is_upper, is_lower, is_digit, in_range in *;
  repeat match goal with
  | H : (_ && _) = true |- _ => apply andb_prop in H as [? ?]
  | H : (_ && _) = false |- _ => apply andb_false_iff in H as [?|?]
  | H : (_ || _) = false |- _ => apply orb_false_iff in H as [? ?]
  | H : (_ || _) = true |- _ => apply orb_prop in H as [?|?]
  | H : negb _ = true |- _ => apply negb_true_iff in H
  | H : negb _ = false |- _ => apply negb_false_iff in H
  | H : (_ =? _)%N = true |- _ => apply N.eqb_eq in H
  | H : (_ =? _)%N = false |- _ => apply N.eqb_neq in H
  | H : (_ <=? _)%N = true |- _ => apply N.leb_le in H
  | H : (_ <=? _)%N = false |- _ => apply N.leb_gt in H
  end.

(* ================================================================= *)
(** ** What a computation does to the outside *)

(** From [s] to [s'] only events that satisfy [Q] were added to the trace. *)
Definition emits (Q : event -> Prop) (s s' : State) : Prop :=
  exists events, trace s' = trace s ++ events /\ Forall Q events.

(** In the world [w] and from any state, [m] adds only events that satisfy
    [Q]. *)
Definition only {A} (Q : event -> Prop) (w : World) (m : M A) : Prop :=
  forall s, emits Q s (snd (m w s)).

(** The same, when [m] also leaves the client variable as it is. *)
Definition only_quiet {A} (Q : event -> Prop) (w : World) (m : M A) : Prop :=
  forall s, emits Q s (snd (m w s)) /\ jiraClient (snd (m w s)) = jiraClient s.

(** The value of a header of a request. *)
Fixpoint header (name : jsstring) (headers : list (jsstring * jsstring))
  : option jsstring :=
  match headers with
  | [] => None
  | (k, v) :: rest => if str_eqb name k then Some v else header name rest
  end.

(** A git command run in the working directory. *)
Definition git_event (w : World) (ev : event) : Prop :=
  exists command, ev = Exec command (cwd w).

(** A request to the GitHub API under the configured token. *)
Definition github_event (w : World) (ev : event) : Prop :=
  exists request,
    ev = Https request
    /\ req_hostname request = js "api.github.com"
    /\ header (js "Authorization") (req_headers request)
       = Some (js "token " ++ get_or (GITHUB_TOKEN (env w)) []).

(** A request to the tracker: to the host of the configured base URL. *)
Definition jira_event (w : World) (ev : event) : Prop :=
  exists request url,
    ev = Https request
    /\ URL_parse w (get_or (JIRA_BASE_URL (env w)) []) = Some url
    /\ req_hostname request = hostname url.

(** The connection to the remote MCP, or a tool call on it. *)
Definition proxy_event (ev : event) : Prop :=
  ev = Connect \/ exists name args, ev = ToolsCall name args.

(** The events of the active backend. *)
Definition backend_event (w : World) (ev : event) : Prop :=
  match getJiraType w with
  | datacenter => jira_event w ev
  | cloud => proxy_event ev
  end.

Definition nothing (ev : event) : Prop := False.

(** The events a tool may cause: those of the active backend; for
    [analyzeJiraIssue] also git commands; for [createJiraIssueWithBranch]
    also git commands and requests to GitHub. *)
Definition permitted (w : World) (toolName : jsstring) (ev : event) : Prop :=
  backend_event w ev
  \/ ((str_eqb toolName (js "createJiraIssueWithBranch") = true
       \/ str_eqb toolName (js "analyzeJiraIssue") = true)
      /\ git_event w ev)
  \/ (str_eqb toolName (js "createJiraIssueWithBranch") = true
      /\ github_event w ev).

(** The git commands of [createGitLabBranch] in a working copy, for the
    default branch and the branch of the issue: [fallback] tells that the
    default branch could not be checked out, [create] that the branch of the
    issue was not listed. *)
Definition git_commands (defaultBranch branchName : jsstring)
  (fallback create : bool) : list jsstring :=
  [ js "git fetch origin"; js "git checkout " ++ defaultBranch ]
  ++ (if fallback then [js "git checkout -b " ++ defaultBranch] else [])
  ++ [ js "git pull origin " ++ defaultBranch;
       js "git branch --list " ++ branchName;
       (if create then js "git checkout -b " else js "git checkout ")
       ++ branchName ].

(** A command failed. *)
Definition failed {A} (r : result A) : bool :=
  match r with Ok _ => false | Throw _ => true end.

(** A configuration for GitHub, outside a git working copy: the repository
    [acme/shop], whose API answers [reply] to every request. *)
Definition github_world (reply : HttpReply) : World :=
  example_world
    {| JIRA_BASE_URL := None; JIRA_API_TOKEN := None;
       JIRA_PERSONAL_ACCESS_TOKEN := None; JIRA_USERNAME := None;
       JIRA_EMAIL := None; JIRA_CLOUD_ID := Some (js "c-1"); CLOUD_ID := None;
       GITHUB_TOKEN := Some (js "ghp_1"); GITHUB_REPO := Some (js "acme/shop.git");
       GITHUB_DEFAULT_BRANCH := None; GITLAB_DEFAULT_BRANCH := None |}
    reply
    (Ok (VObj [(js "key", VStr (js "OPS-7"))])).

(** A git working copy in which every command fails. *)
Definition working_copy : World :=
  {| env := env offline;
     cwd := cwd offline;
     existsSync := fun _ => true;
     exec_reply := exec_reply offline;
     https_reply := https_reply offline;
     connect_reply := connect_reply offline;
     tools_call_reply := tools_call_reply offline;
     JSON_stringify := JSON_stringify offline;
     JSON_stringify_pretty := JSON_stringify_pretty offline;
     URL_parse := URL_parse offline;
     ToString := ToString offline |}.

(** The first request of [createGitHubBranch]: it reads the head of the
    default branch. *)
Definition default_branch_request (w : World) (owner repoName token : jsstring)
  : HttpRequest :=
  {| req_hostname := js "api.github.com";
     req_port := VUndef;
     req_path := js "/repos/" ++ owner ++ js "/" ++ repoName
                   ++ js "/git/ref/heads/"
                   ++ get_or (GITHUB_DEFAULT_BRANCH (env w)) (js "main");
     req_method := js "GET";
     req_headers := github_headers token;
     req_data := None |}.

(* ================================================================= *)
(** ** Invariants of the state *)

(** [I] survives every event that satisfies [Q]. *)
Definition stable (Q : event -> Prop) (I : State -> Prop) : Prop :=
  forall s ev, Q ev -> I s -> I (log s ev).

(** The state after [getJiraClient] found no client. *)
Definition connected (s : State) : State :=
  {| trace := trace s ++ [Connect]; jiraClient := true |}.

(** In Cloud mode, [I] survives the first connection. *)
Definition connect_stable (w : World) (I : State -> Prop) : Prop :=
  getJiraType w = cloud ->
  forall s, jiraClient s = false -> I s -> I (connected s).

(** In the world [w], [m] keeps [I]. *)
Definition preserves {A} (I : State -> Prop) (w : World) (m : M A) : Prop :=
  forall s, I s -> I (snd (m w s)).

(** The outcome of a handler, as the answer to its request: an exception
    becomes an error response, a handler that stays pending leaves its
    request without an answer, and the server goes on. *)
Definition answer {A} (m : M A) : M (result A) :=
  fun w s => let (r, s') := m w s in (Ok r, s').

(** A session: [tools/call] requests handled one after the other. *)
Fixpoint session (calls : list (jsstring * value)) : M (list (result value)) :=
  match calls with
  | [] => ret []
  | (toolName, arguments) :: rest =>
      r <- answer (callTool toolName arguments) ;;
      rs <- session rest ;;
      ret (r :: rs)
  end.

Definition is_connect (ev : event) : bool :=
  match ev with Connect => true | _ => false end.

(** How many times the server connected to the remote MCP. *)
Definition connections (events : list event) : nat :=
  length (filter is_connect events).

(** When [m] fails, it has only added events that satisfy [Q]. *)
Definition fails_within {A} (Q : event -> Prop) (w : World) (m : M A) : Prop :=
  forall s, raises (fst (m w s)) = true -> emits Q s (snd (m w s)).

(** The names of the tools that the server adds to those of the backend:
    [customTools] of the handler of [tools/list]. *)
Definition customTools : list jsstring :=
  [ js "createJiraIssueWithBranch"; js "assignJiraIssueWithAnalysis";
    js "transitionJiraIssueToReview"; js "analyzeJiraIssue" ].

(** The names of the tools that the handler of [tools/list] gives for the
    backend in Data Center mode. *)
Definition datacenterTools : list jsstring :=
  [ js "getJiraIssue"; js "createJiraIssue"; js "editJiraIssue";
    js "getTransitionsForJiraIssue"; js "transitionJiraIssue" ].

(** The names of the cases of [callJiraDataCenterTool] that are not
    listed. *)
Definition unlistedTools : list jsstring :=
  [ js "getVisibleJiraProjects"; js "getJiraProjectIssueTypesMetadata";
    js "getJiraIssueTypeMetaWithFields"; js "addCommentToJiraIssue" ].

Definition one_of (names : list jsstring) (name : jsstring) : bool :=
  existsb (str_eqb name) names.

(** The tools of the backend that a tool of the server may call: a tool
    that is not one of the four of the server is passed on under its own
    name. *)
Definition delegates (toolName : jsstring) : list jsstring :=
  if str_eqb toolName (js "createJiraIssueWithBranch")
  then [js "createJiraIssue"]
  else if str_eqb toolName (js "assignJiraIssueWithAnalysis")
  then [js "editJiraIssue"]
  else if str_eqb toolName (js "transitionJiraIssueToReview")
  then [js "getTransitionsForJiraIssue"; js "transitionJiraIssue"]
  else if str_eqb toolName (js "analyzeJiraIssue")
  then [js "getJiraIssue"]
  else [toolName].

(** A call of the remote MCP is one of the tools [names]. *)
Definition calls_only (names : list jsstring) (ev : event) : Prop :=
  match ev with
  | ToolsCall name _ => one_of names name = true
  | _ => True
  end.

(** What [createJiraIssueWithBranch] hands to [createJiraIssue] for the
    arguments [args]: the three required fields trimmed, a description only
    when it is a string that is not blank, trimmed too, and additional
    fields that hold no summary and no description. *)
Definition create_arguments (w : World) (args a : value) : Prop :=
  opt_get a "projectKey" = trimmed w (opt_get args "projectKey")
  /\ opt_get a "issueTypeName" = trimmed w (opt_get args "issueTypeName")
  /\ opt_get a "summary" = trimmed w (opt_get args "summary")
  /\ (opt_get a "description" = VUndef
      \/ exists d, opt_get args "description" = VStr d /\ trim d <> []
                   /\ opt_get a "description" = VStr (trim d))
  /\ opt_get (opt_get a "fields") "summary" = VUndef
  /\ opt_get (opt_get a "fields") "description" = VUndef.

Definition creates_with (w : World) (args : value) (ev : event) : Prop :=
  match ev with
  | ToolsCall name a =>
      name = js "createJiraIssue" /\ create_arguments w args a
  | _ => True
  end.

(** A world in Cloud mode whose cloud identifier is written between
    quotes, as a [.env] file may have it. *)
Definition quoted_cloud_world : World :=
  example_world
    {| JIRA_BASE_URL := Some (js "   "); JIRA_API_TOKEN := None;
       JIRA_PERSONAL_ACCESS_TOKEN := None; JIRA_USERNAME := None;
       JIRA_EMAIL := None; JIRA_CLOUD_ID := Some (jsq "' c-1 '");
       CLOUD_ID := Some (js "other");
       GITHUB_TOKEN := None; GITHUB_REPO := None;
       GITHUB_DEFAULT_BRANCH := None; GITLAB_DEFAULT_BRANCH := None |}
    (NetworkError (js "ECONNREFUSED"))
    (Ok (VObj [(js "content", VArr [])])).

(* ================================================================= *)
(** ** The older revision: branches through the GitLab API *)

(** The variables that only the older revision reads. *)
Record GitLabEnv : Type := {
  GITLAB_TOKEN : option jsstring;
  GITLAB_REPO : option jsstring;
  GITLAB_URL : option jsstring
}.

Module Legacy.

Section Revision.

(** The GitLab configuration, and [encodeURIComponent], which raises a
    URIError on a lone surrogate ([None]). *)
Variable g : GitLabEnv.
Variable encodeURIComponent : jsstring -> option jsstring.

(** The choice of the branch name, with the transliterating
    [sanitizeBranchName] of this revision. *)
Definition chooseBranchName (issueKey customBranchName : value)
  : result jsstring :=
  let fromKey :=
    match issueKey with
    | VStr k => Ok (toLowerCase k)
    | _ => Throw TypeError
    end in
  if truthy customBranchName then
    match customBranchName with
    | VStr s =>
        match trim s with
        | [] => fromKey
        | c :: t => Ok (Translit.sanitizeBranchName (c :: t))
        end
    | _ => Throw TypeError
    end
  else fromKey.

Definition createGitHubBranch (issueKey customBranchName : value) : M unit :=
  w <- world ;;
  match GITHUB_TOKEN (env w), GITHUB_REPO (env w) with
  | Some (t0 :: t1), Some (r0 :: r1) =>
      let githubToken := t0 :: t1 in
      match parseGitHubRepo w (r0 :: r1) with
      | None => ret tt
      | Some (owner, repoName) =>
          try_catch
            (branchName <- lift (chooseBranchName issueKey customBranchName) ;;
             let defaultBranch :=
               get_or (GITHUB_DEFAULT_BRANCH (env w)) (js "main") in
             sha <- getDefaultBranchSha (owner ++ js "/" ++ repoName)
                      defaultBranch githubToken ;;
             let data :=
               JSON_stringify w
                 (VObj [ (js "ref", VStr (js "refs/heads/" ++ branchName));
                         (js "sha", sha) ]) in
             let options :=
               {| req_hostname := js "api.github.com";
                  req_port := VUndef;
                  req_path := js "/repos/" ++ owner ++ js "/" ++ repoName
                                ++ js "/git/refs";
                  req_method := js "POST";
                  req_headers :=
                    github_headers githubToken
                      ++ [(js "Content-Type", js "application/json")];
                  req_data := Some data |} in
             httpsRequest options ;;; ret tt)
            (fun _ => ret tt)
      end
  | _, _ => ret tt
  end.

Definition parseGitLabRepo (w : World) (repo : jsstring) : jsstring :=
  if startsWith (js "http://") repo || startsWith (js "https://") repo then
    match URL_parse w repo with
    | Some url => strip_path (pathname url)
    | None => repo
    end
  else strip_suffix (js ".git") repo.

(** [s.replace(/^https?:\/\//, "")] *)
Definition strip_scheme (s : jsstring) : jsstring :=
  if startsWith (js "https://") s then skipn 8 s
  else if startsWith (js "http://") s then skipn 7 s
  else s.

(** The host of the GitLab API:
    [baseUrl.replace(/^https?:\/\//, "").split("/")[0]], where [baseUrl] is
    [GITLAB_URL], or else [https://gitlab.com], without a final slash. *)
Definition gitlab_host : jsstring :=
  let gitlabUrl := get_or (GITLAB_URL g) (js "https://gitlab.com") in
  let baseUrl :=
    if endsWith (js "/") gitlabUrl then removelast gitlabUrl else gitlabUrl in
  nth 0 (split 47 (strip_scheme baseUrl)) [].

Definition createGitLabBranch (issueKey customBranchName : value) : M unit :=
  w <- world ;;
  match GITLAB_TOKEN g, GITLAB_REPO g with
  | Some (t0 :: t1), Some (r0 :: r1) =>
      let gitlabToken := t0 :: t1 in
      try_catch
        (let repoPath := parseGitLabRepo w (r0 :: r1) in
         branchName <- lift (chooseBranchName issueKey customBranchName) ;;
         let defaultBranch :=
           get_or (GITLAB_DEFAULT_BRANCH (env w)) (js "main") in
         match encodeURIComponent repoPath with
         | None => throw (Failure (js "URIError"))
         | Some encodedRepo =>
             let data :=
               JSON_stringify w
                 (VObj [ (js "branch", VStr branchName);
                         (js "ref", VStr defaultBranch) ]) in
             let options :=
               {| req_hostname := gitlab_host;
                  req_port := VUndef;
                  req_path := js "/api/v4/projects/" ++ encodedRepo
                                ++ js "/repository/branches";
                  req_method := js "POST";
                  req_headers :=
                    [ (js "PRIVATE-TOKEN", gitlabToken);
                      (js "Content-Type", js "application/json") ];
                  req_data := Some data |} in
             httpsRequest options ;;; ret tt
         end)
        (fun _ => ret tt)
  | _, _ => ret tt
  end.

Definition handleCreateResponse (res branchNameInput : value) : M value :=
  w <- world ;;
  let responseObj :=
    match res with
    | VStr s => match Json.parse s with Some v => v | None => res end
    | _ => res
    end in
  if truthy (opt_get responseObj "isError")
     || truthy (opt_get responseObj "error")
  then ret VNull
  else
    let (issueKey, left) :=
      match opt_get responseObj "content" with
      | VArr content => scanContent w VNull content
      | _ => (key_of_fields responseObj, Ok tt)
      end in
    match left with
    | Throw _ => ret issueKey
    | Ok _ =>
        if truthy issueKey then
          let branchName := or_else branchNameInput VUndef in
          let hasGitHub :=
            is_set (GITHUB_TOKEN (env w)) && is_set (GITHUB_REPO (env w)) in
          let hasGitLab :=
            is_set (GITLAB_TOKEN g) && is_set (GITLAB_REPO g) in
          try_catch
            ((if hasGitHub && hasGitLab
              then createGitHubBranch issueKey branchName
              else if hasGitHub then createGitHubBranch issueKey branchName
              else if hasGitLab then createGitLabBranch issueKey branchName
              else ret tt) ;;;
             ret issueKey)
            (fun _ => ret issueKey)
        else ret issueKey
    end.

End Revision.

End Legacy.

(** A request of the older revision to the GitLab API: a [POST] to the
    configured host, which holds no slash and is [gitlab.com] when no
    [GITLAB_URL] is set, under the configured token. *)
Definition gitlab_event (g : GitLabEnv) (ev : event) : Prop :=
  exists request,
    ev = Https request
    /\ req_method request = js "POST"
    /\ req_hostname request = Legacy.gitlab_host g
    /\ header (js "PRIVATE-TOKEN") (req_headers request)
       = Some (get_or (GITLAB_TOKEN g) []).

(* ================================================================= *)
(** ** Steps that stay pending *)

(** Every command of the world exits, with success or not. *)
Definition commands_exit (w : World) : Prop :=
  forall n command, unsettled (exec_reply w n command) = false.

(** Every HTTPS request of the world fails before any response, or has a
    response that is received to its end. *)
Definition responses_end (w : World) : Prop :=
  forall n request,
    match https_reply w n request with
    | Aborted _ _ => False
    | _ => True
    end.

(** In the world [w], [m] never stays pending. *)
Definition settles {A} (w : World) (m : M A) : Prop :=
  forall s, unsettled (fst (m w s)) = false.

(** Arguments that pass the validation of [createJiraIssueWithBranch]. *)
Definition create_args : value :=
  VObj [ (js "projectKey", str "OPS"); (js "issueTypeName", str "Task");
         (js "summary", str "Fix login") ].

(** The request by which [createGitHubBranch] reads the head of [main] in
    the repository of [github_world]. *)
Definition read_main : HttpRequest :=
  {| req_hostname := js "api.github.com";
     req_port := VUndef;
     req_path := js "/repos/acme/shop/git/ref/heads/main";
     req_method := js "GET";
     req_headers :=
       [ (js "Authorization", js "token ghp_1");
         (js "User-Agent", js "jira-mcp-poc");
         (js "Accept", js "application/vnd.github.v3+json") ];
     req_data := None |}.

(** The branch automation that [handleCreateResponse] starts for a key:
    in a git working copy the local commands, else the GitHub calls when
    the token and the repository are set, else nothing. *)
Definition makeBranch (issueKey branchNameInput : value) : M unit :=
  w <- world ;;
  if existsSync w (path_join (cwd w) (js ".git"))
  then createGitLabBranch issueKey (or_else branchNameInput VUndef)
  else if is_set (GITHUB_TOKEN (env w)) && is_set (GITHUB_REPO (env w))
  then createGitHubBranch issueKey (or_else branchNameInput VUndef)
  else ret tt.

(* ================================================================= *)
(** * Properties *)

(** ** Strings *)

Lemma dropWhile_split (p : N -> bool) (s : jsstring) :
  exists pre, s = pre ++ dropWhile p s /\ forallb p pre = true.
Proof.
  induction s as [|c t [pre [E F]]]; simpl.
  - exists []; auto.
  - destruct (p c) eqn:Hc.
    + exists (c :: pre); simpl. rewrite Hc, F. split; [now f_equal|reflexivity].
    + exists []; auto.
Qed.

Lemma dropWhile_head (p : N -> bool) (s : jsstring) c t :
  dropWhile p s = c :: t -> p c = false.
Proof.
  induction s as [|d u IH]; simpl; [discriminate|].
  destruct (p d) eqn:Hd; [exact IH|].
  intros E; injection E as -> _; exact Hd.
Qed.

Lemma dropWhileEnd_split (p : N -> bool) (s : jsstring) :
  exists post, s = dropWhileEnd p s ++ post /\ forallb p post = true.
Proof.
  unfold dropWhileEnd.
  destruct (dropWhile_split p (rev s)) as [pre [E F]].
  exists (rev pre). split.
  - rewrite <- rev_app_distr, <- E. symmetry; apply rev_involutive.
  - rewrite forallb_forall in *. intros x Hx. apply F. now apply in_rev.
Qed.

Lemma dropWhileEnd_last (p : N -> bool) (s : jsstring) pre c :
  dropWhileEnd p s = pre ++ [c] -> p c = false.
Proof.
  unfold dropWhileEnd. intros E.
  apply (f_equal (@rev N)) in E.
  rewrite rev_involutive, rev_app_distr in E. simpl in E.
  eapply dropWhile_head; exact E.
Qed.

Lemma dropWhile_all (p : N -> bool) (s : jsstring) :
  dropWhile p s = [] <-> forallb p s = true.
Proof.
  induction s as [|c t IH]; simpl; [tauto|].
  destruct (p c); simpl; [exact IH|]. split; discriminate.
Qed.

Lemma dropWhileEnd_all (p : N -> bool) (s : jsstring) :
  dropWhileEnd p s = [] <-> forallb p s = true.
Proof.
  unfold dropWhileEnd. split.
  - intros E. apply (f_equal (@rev N)) in E. rewrite rev_involutive in E.
    simpl in E. apply dropWhile_all in E.
    rewrite forallb_forall in *. intros x Hx. apply E. now rewrite <- in_rev.
  - intros F. assert (G : forallb p (rev s) = true).
    { rewrite forallb_forall in *. intros x Hx. apply F. now rewrite in_rev. }
    apply dropWhile_all in G. now rewrite G.
Qed.

Lemma substring_0 (n : nat) (s : jsstring) : substring 0 n s = firstn n s.
Proof. unfold substring. rewrite Nat.sub_0_r. reflexivity. Qed.

(** ** Branch names *)

Lemma hyphen_not_alnum : is_lower_alnum hyphen = false.
Proof. reflexivity. Qed.

Lemma is_hyphen_eq c : is_hyphen c = true <-> c = hyphen.
Proof. unfold is_hyphen. apply N.eqb_eq. Qed.

Lemma alnum_not_hyphen c : is_lower_alnum c = true -> is_hyphen c = false.
Proof.
  intros H. destruct (is_hyphen c) eqn:E; [|reflexivity].
  apply is_hyphen_eq in E. subst c. discriminate H.
Qed.

Lemma collapseRuns_hyphenated (s : jsstring) :
  hyphenated true (collapseRuns false s) = true
  /\ hyphenated false (collapseRuns true s) = true.
Proof.
  induction s as [|c t [IH1 IH2]]; simpl; [auto|].
  destruct (is_lower_alnum c) eqn:Hc; simpl.
  - rewrite Hc. auto.
  - split; [|exact IH2]. change (hyphenated false (collapseRuns true t) = true).
    exact IH2.
Qed.

Lemma collapseRuns_all_hyphens (b : bool) (s : jsstring) :
  forallb is_hyphen (collapseRuns b s)
  = forallb (fun c => negb (is_lower_alnum c)) s.
Proof.
  revert b. induction s as [|c t IH]; intros b; simpl; [reflexivity|].
  destruct (is_lower_alnum c) eqn:Hc; simpl.
  - now rewrite (alnum_not_hyphen _ Hc).
  - destruct b; simpl; apply IH.
Qed.

Lemma hyphenated_weaken (b : bool) (s : jsstring) :
  hyphenated b s = true -> hyphenated true s = true.
Proof.
  destruct s as [|c t]; simpl; [auto|].
  destruct (is_lower_alnum c); [auto|].
  destruct (is_hyphen c); [|auto].
  destruct b; simpl; [auto|discriminate].
Qed.

Lemma hyphenated_prefix (s r : jsstring) (b : bool) :
  hyphenated b (s ++ r) = true -> hyphenated b s = true.
Proof.
  revert b. induction s as [|c t IH]; intros b; simpl; [auto|].
  destruct (is_lower_alnum c); [apply IH|].
  destruct (is_hyphen c); [|auto].
  destruct b; simpl; [apply IH|discriminate].
Qed.

Lemma hyphenated_dropWhile (s : jsstring) :
  hyphenated true s = true -> hyphenated false (dropWhile is_hyphen s) = true.
Proof.
  destruct s as [|c t]; simpl; [auto|].
  destruct (is_lower_alnum c) eqn:Hc.
  - rewrite (alnum_not_hyphen _ Hc). simpl. now rewrite Hc.
  - destruct (is_hyphen c) eqn:Hh; [|discriminate]. simpl.
    intros H. destruct t as [|d u]; simpl in *; [reflexivity|].
    destruct (is_lower_alnum d) eqn:Hd.
    + rewrite (alnum_not_hyphen _ Hd). simpl. now rewrite Hd.
    + destruct (is_hyphen d); discriminate.
Qed.

Lemma hyphenated_chars (s : jsstring) (b : bool) :
  hyphenated b s = true ->
  Forall (fun c => is_lower_alnum c = true \/ c = hyphen) s.
Proof.
  revert b. induction s as [|c t IH]; intros b; simpl; [constructor|].
  destruct (is_lower_alnum c) eqn:Hc.
  - intros H. constructor; [now left|]. eapply IH; eauto.
  - destruct (is_hyphen c) eqn:Hh; [|discriminate].
    intros H. apply andb_prop in H as [_ H].
    constructor; [right; now apply is_hyphen_eq|]. eapply IH; eauto.
Qed.

Lemma hyphenated_no_leading (post : jsstring) :
  hyphenated false (hyphen :: post) = false.
Proof. reflexivity. Qed.

Lemma hyphenated_no_double (pre post : jsstring) (b : bool) :
  hyphenated b (pre ++ hyphen :: hyphen :: post) = false.
Proof.
  revert b. induction pre as [|c t IH]; intros b; simpl.
  - change (b && (false && hyphenated false post) = false).
    simpl. apply andb_false_r.
  - destruct (is_lower_alnum c); [apply IH|].
    destruct (is_hyphen c); [|reflexivity].
    rewrite IH. now rewrite andb_false_r.
Qed.

(** The regular expression is the automaton [hyphenated] together with a
    condition on the last code unit. *)
Lemma branch_re_last (s : jsstring) (c : N) (b : bool) :
  hyphenated b (s ++ [c]) = true -> is_hyphen c = false ->
  branch_re b (s ++ [c]) = true.
Proof.
  revert b. induction s as [|d t IH]; intros b; simpl.
  - destruct (is_lower_alnum c); [auto|].
    intros H Hc. rewrite Hc in *. discriminate.
  - destruct (is_lower_alnum d); [apply IH|].
    destruct (is_hyphen d); [|auto].
    destruct b; simpl; [apply IH|discriminate].
Qed.

Lemma branch_re_hyphenated (s : jsstring) (b : bool) :
  branch_re b s = true -> hyphenated b s = true.
Proof.
  revert b. induction s as [|c t IH]; intros b; simpl; [auto|].
  destruct (is_lower_alnum c); [apply IH|].
  destruct (is_hyphen c); [|auto].
  destruct b; simpl; [apply IH|discriminate].
Qed.

Lemma stripHyphens_hyphenated (s : jsstring) :
  hyphenated true s = true -> hyphenated false (stripHyphens s) = true.
Proof.
  intros H. unfold stripHyphens.
  apply hyphenated_dropWhile in H.
  destruct (dropWhileEnd_split is_hyphen (dropWhile is_hyphen s)) as [r [E _]].
  rewrite E in H. eapply hyphenated_prefix; eauto.
Qed.

Lemma stripHyphens_nil (s : jsstring) :
  stripHyphens s = [] <-> forallb is_hyphen s = true.
Proof.
  unfold stripHyphens. rewrite dropWhileEnd_all. split.
  - intros F. destruct (dropWhile_split is_hyphen s) as [pre [E G]].
    rewrite E, forallb_app, G, F. reflexivity.
  - intros F. destruct (dropWhile_split is_hyphen s) as [pre [E G]].
    rewrite E, forallb_app in F. now apply andb_prop in F.
Qed.

Lemma stripHyphens_matches (s : jsstring) :
  hyphenated true s = true -> stripHyphens s <> [] ->
  matches_branch_re (stripHyphens s) = true.
Proof.
  intros H Hne. pose proof (stripHyphens_hyphenated _ H) as Hh.
  destruct (exists_last Hne) as [pre [c E]].
  unfold matches_branch_re. rewrite E in *.
  apply branch_re_last; [exact Hh|].
  unfold stripHyphens in E. eapply dropWhileEnd_last; eauto.
Qed.

(** The code units below U+0400 are no keys of the table. *)
Lemma lookup_below (tbl : list (jsstring * jsstring)) (c : N) :
  forallb (fun kv => match fst kv with
                     | [k] => (0x0400 <=? k)%N
                     | _ => false
                     end) tbl = true ->
  (c < 0x0400)%N -> Translit.lookup tbl c = None.
Proof.
  intros H Hc. induction tbl as [|[k v] rest IH]; [reflexivity|].
  simpl in *. apply andb_prop in H as [Hk H].
  destruct k as [|k0 [|k1 k]]; try discriminate. simpl.
  apply N.leb_le in Hk.
  destruct (k0 =? c)%N eqn:E; [apply N.eqb_eq in E; lia|]. simpl. auto.
Qed.

(** The output of the common chain, for any text handed to it: it is
    empty only when the lower-cased text holds no [[a-z0-9]]. *)
Lemma chain_nil (low : jsstring) :
  firstn 100 (stripHyphens (collapseRuns false low)) = [] ->
  forallb (fun c => negb (is_lower_alnum c)) low = true.
Proof.
  intros E. rewrite <- (collapseRuns_all_hyphens false).
  apply stripHyphens_nil.
  destruct (stripHyphens (collapseRuns false low)); [reflexivity|discriminate].
Qed.

(** ** [JSON.parse] is total: the fuel never runs out *)

Module JsonFacts.
Import Json.

Lemma dropWhile_length (p : N -> bool) (s : jsstring) :
  length (dropWhile p s) <= length s.
Proof.
  induction s as [|c t IH]; simpl; [lia|].
  destruct (p c); simpl; lia.
Qed.

Lemma skip_ws_cons (s : jsstring) c r :
  skip_ws s = c :: r -> length r < length s.
Proof.
  intros E. pose proof (dropWhile_length is_json_ws s) as L.
  unfold skip_ws in E. rewrite E in L. simpl in L. lia.
Qed.

Lemma cons_fst_some c o x rest :
  cons_fst c o = Some (x, rest) -> exists y, o = Some (y, rest).
Proof.
  destruct o as [[y r]|]; simpl; [|discriminate].
  intros E; injection E as _ ->. now exists y.
Qed.

Lemma parse_string_consumes (s : jsstring) :
  forall x rest, parse_string s = Some (x, rest) -> length rest < length s.
Proof.
  induction s as [s IH] using (well_founded_induction
    (Wf_nat.well_founded_ltof _ (@length N))).
  unfold Wf_nat.ltof in IH.
  intros x rest. destruct s as [|c r]; simpl; [discriminate|].
  destruct (c =? 34)%N.
  { intros E; injection E as _ ->. lia. }
  destruct (c =? 92)%N.
  - destruct r as [|e r']; [discriminate|].
    destruct (e =? 117)%N.
    + destruct r' as [|h1 [|h2 [|h3 [|h4 r'']]]]; try discriminate.
      destruct (hex_digit h1), (hex_digit h2), (hex_digit h3), (hex_digit h4);
        try discriminate.
      intros E. apply cons_fst_some in E as [y E].
      apply IH in E; simpl in *; lia.
    + destruct (unescape e); [|discriminate].
      intros E. apply cons_fst_some in E as [y E].
      apply IH in E; simpl in *; lia.
  - destruct (c <? 32)%N; [discriminate|].
    intros E. apply cons_fst_some in E as [y E].
    apply IH in E; simpl in *; lia.
Qed.

Lemma span_digits_length (s : jsstring) :
  length (fst (span_digits s)) + length (snd (span_digits s)) = length s.
Proof.
  induction s as [|c r IH]; simpl; [reflexivity|].
  destruct (is_digit c); simpl; [|reflexivity].
  destruct (span_digits r); simpl in *. lia.
Qed.

Lemma span_digits_eq (s ds rest : jsstring) :
  span_digits s = (ds, rest) -> length ds + length rest = length s.
Proof.
  intros E. pose proof (span_digits_length s) as L. now rewrite E in L.
Qed.

Lemma opt_minus_length (s : jsstring) :
  length (snd (opt_minus s)) <= length s.
Proof.
  destruct s as [|c r]; simpl; [lia|]. destruct (c =? 45)%N; simpl; lia.
Qed.

Lemma int_part_consumes (s ip rest : jsstring) :
  int_part s = Some (ip, rest) -> length rest < length s.
Proof.
  unfold int_part. destruct s as [|c r]; [discriminate|].
  destruct (c =? 48)%N.
  - intros E; injection E as _ <-. simpl; lia.
  - destruct (span_digits (c :: r)) as [[|d ds] rest'] eqn:S; [discriminate|].
    intros E; injection E as _ <-.
    apply span_digits_eq in S. simpl in *. lia.
Qed.

Lemma frac_part_length (s fd rest : jsstring) :
  frac_part s = Some (fd, rest) -> length rest <= length s.
Proof.
  unfold frac_part. destruct s as [|c r].
  - intros E; injection E as _ <-. lia.
  - destruct (c =? 46)%N.
    + destruct (span_digits r) as [[|d ds] rest'] eqn:S; [discriminate|].
      intros E; injection E as _ <-.
      apply span_digits_eq in S. simpl in *. lia.
    + intros E; injection E as _ <-. lia.
Qed.

Lemma exp_sign_length (s : jsstring) :
  length (snd (exp_sign s)) <= length s.
Proof.
  destruct s as [|c r]; simpl; [lia|].
  destruct (c =? 45)%N; [simpl; lia|]. destruct (c =? 43)%N; simpl; lia.
Qed.

Lemma exp_part_length (s rest : jsstring) (ex : Z) :
  exp_part s = Some (ex, rest) -> length rest <= length s.
Proof.
  unfold exp_part. destruct s as [|c r].
  - intros E; injection E as _ <-. lia.
  - destruct ((c =? 101) || (c =? 69))%N.
    + pose proof (exp_sign_length r) as L.
      destruct (exp_sign r) as [eneg r1]. simpl in L.
      destruct (span_digits r1) as [[|d ds] rest'] eqn:S; [discriminate|].
      intros E; injection E as _ <-.
      apply span_digits_eq in S. simpl in *. lia.
    + intros E; injection E as _ <-. lia.
Qed.

Lemma parse_number_consumes (s : jsstring) v rest :
  parse_number s = Some (v, rest) -> length rest < length s.
Proof.
  unfold parse_number.
  pose proof (opt_minus_length s) as L0.
  destruct (opt_minus s) as [neg s1]. simpl in L0.
  destruct (int_part s1) as [[ip s2]|] eqn:E1; [|discriminate].
  destruct (frac_part s2) as [[fd s3]|] eqn:E2; [|discriminate].
  destruct (exp_part s3) as [[ex s4]|] eqn:E3; [|discriminate].
  intros E; injection E as _ <-.
  apply int_part_consumes in E1. apply frac_part_length in E2.
  apply exp_part_length in E3. lia.
Qed.

Lemma startsWith_length (p s : jsstring) :
  startsWith p s = true -> length p <= length s.
Proof.
  revert s. induction p as [|x p IH]; intros [|y s]; simpl; intros H;
    try lia; try discriminate.
  apply andb_prop in H as [_ H]. apply IH in H. lia.
Qed.

Lemma skipn_shorter (n : nat) (s : jsstring) :
  0 < n -> n <= length s -> length (skipn n s) < length s.
Proof. intros. rewrite length_skipn. lia. Qed.

Lemma parse_literal_consumes (s : jsstring) v rest :
  parse_literal s = Some (v, rest) -> length rest < length s.
Proof.
  unfold parse_literal.
  destruct (startsWith (js "true") s) eqn:T.
  { intros E; injection E as _ <-. apply startsWith_length in T.
    apply (skipn_shorter 4 s); [lia|exact T]. }
  destruct (startsWith (js "false") s) eqn:F.
  { intros E; injection E as _ <-. apply startsWith_length in F.
    apply (skipn_shorter 5 s); [lia|exact F]. }
  destruct (startsWith (js "null") s) eqn:U; [|discriminate].
  intros E; injection E as _ <-. apply startsWith_length in U.
  apply (skipn_shorter 4 s); [lia|exact U].
Qed.

Lemma of_option_consumes (o : option (value * jsstring)) (s : jsstring) v rest :
  (forall v rest, o = Some (v, rest) -> length rest < length s) ->
  of_option o = POk v rest -> length rest < length s.
Proof.
  intros H. destruct o as [[v' r']|]; unfold of_option; [|discriminate].
  intros E; inversion E; subst. now apply (H v).
Qed.

(** Whatever the fuel, a successful parse consumes input. *)
Lemma parse_consumes (fuel : nat) :
  (forall s v r, parse_value fuel s = POk v r -> length r < length s)
  /\ (forall s acc v r,
         parse_elements fuel s acc = POk v r -> length r < length s)
  /\ (forall s acc v r,
         parse_members fuel s acc = POk v r -> length r < length s).
Proof.
  induction fuel as [|f [IHv [IHe IHm]]].
  { repeat split; intros; discriminate. }
  repeat split.
  - intros s v r H. cbn [parse_value] in H.
    destruct (skip_ws s) as [|c r0] eqn:Hs; [discriminate|].
    apply skip_ws_cons in Hs.
    destruct (c =? 123)%N.
    { destruct (skip_ws r0) as [|c' r'] eqn:Hr; [discriminate|].
      apply skip_ws_cons in Hr.
      destruct (c' =? 125)%N.
      - inversion H; subst. lia.
      - apply IHm in H. simpl in H. lia. }
    destruct (c =? 91)%N.
    { destruct (skip_ws r0) as [|c' r'] eqn:Hr; [discriminate|].
      apply skip_ws_cons in Hr.
      destruct (c' =? 93)%N.
      - inversion H; subst. lia.
      - apply IHe in H. simpl in H. lia. }
    destruct (c =? 34)%N.
    { destruct (parse_string r0) as [[x rest]|] eqn:Hp; [|discriminate].
      apply parse_string_consumes in Hp. inversion H; subst. lia. }
    destruct ((c =? 45)%N || is_digit c).
    + eapply of_option_consumes in H;
        [|intros ? ?; apply parse_number_consumes]. simpl in H. lia.
    + eapply of_option_consumes in H;
        [|intros ? ?; apply parse_literal_consumes]. simpl in H. lia.
  - intros s acc v r H. cbn [parse_elements] in H.
    destruct (parse_value f s) as [v0 r0| |] eqn:Hv; try discriminate.
    apply IHv in Hv.
    destruct (skip_ws r0) as [|c r1] eqn:Hr; [discriminate|].
    apply skip_ws_cons in Hr.
    destruct (c =? 44)%N; [apply IHe in H; lia|].
    destruct (c =? 93)%N; [|discriminate].
    inversion H; subst. lia.
  - intros s acc v r H. cbn [parse_members] in H.
    destruct (skip_ws s) as [|c r0] eqn:Hs; [discriminate|].
    apply skip_ws_cons in Hs.
    destruct (c =? 34)%N; [|discriminate].
    destruct (parse_string r0) as [[k r1]|] eqn:Hp; [|discriminate].
    apply parse_string_consumes in Hp.
    destruct (skip_ws r1) as [|c1 r2] eqn:Hr1; [discriminate|].
    apply skip_ws_cons in Hr1.
    destruct (c1 =? 58)%N; [|discriminate].
    destruct (parse_value f r2) as [v0 r3| |] eqn:Hv; try discriminate.
    apply IHv in Hv.
    destruct (skip_ws r3) as [|c3 r4] eqn:Hr3; [discriminate|].
    apply skip_ws_cons in Hr3.
    destruct (c3 =? 44)%N; [apply IHm in H; lia|].
    destruct (c3 =? 125)%N; [|discriminate].
    inversion H; subst. lia.
Qed.

Lemma of_option_fuel (o : option (value * jsstring)) : of_option o <> PFuel.
Proof. destruct o as [[v r]|]; discriminate. Qed.

(** With the fuel that [parse] gives, the fuel never runs out. *)
Lemma parse_fuel_enough (fuel : nat) :
  (forall s, 2 * length s + 1 <= fuel -> parse_value fuel s <> PFuel)
  /\ (forall s acc,
         2 * length s + 2 <= fuel -> parse_elements fuel s acc <> PFuel)
  /\ (forall s acc,
         2 * length s + 2 <= fuel -> parse_members fuel s acc <> PFuel).
Proof.
  induction fuel as [|f [IHv [IHe IHm]]].
  { repeat split; intros; lia. }
  repeat split.
  - intros s L. cbn [parse_value].
    destruct (skip_ws s) as [|c r0] eqn:Hs; [discriminate|].
    apply skip_ws_cons in Hs.
    destruct (c =? 123)%N.
    { destruct (skip_ws r0) as [|c' r'] eqn:Hr; [discriminate|].
      apply skip_ws_cons in Hr.
      destruct (c' =? 125)%N; [discriminate|].
      apply IHm. simpl. lia. }
    destruct (c =? 91)%N.
    { destruct (skip_ws r0) as [|c' r'] eqn:Hr; [discriminate|].
      apply skip_ws_cons in Hr.
      destruct (c' =? 93)%N; [discriminate|].
      apply IHe. simpl. lia. }
    destruct (c =? 34)%N.
    { destruct (parse_string r0) as [[x rest]|]; discriminate. }
    destruct ((c =? 45)%N || is_digit c); apply of_option_fuel.
  - intros s acc L. cbn [parse_elements].
    destruct (parse_value f s) as [v0 r0| |] eqn:Hv.
    + apply (proj1 (parse_consumes f)) in Hv.
      destruct (skip_ws r0) as [|c r1] eqn:Hr; [discriminate|].
      apply skip_ws_cons in Hr.
      destruct (c =? 44)%N; [apply IHe; lia|].
      destruct (c =? 93)%N; discriminate.
    + discriminate.
    + exfalso. apply (IHv s); [lia|exact Hv].
  - intros s acc L. cbn [parse_members].
    destruct (skip_ws s) as [|c r0] eqn:Hs; [discriminate|].
    apply skip_ws_cons in Hs.
    destruct (c =? 34)%N; [|discriminate].
    destruct (parse_string r0) as [[k r1]|] eqn:Hp; [|discriminate].
    apply parse_string_consumes in Hp.
    destruct (skip_ws r1) as [|c1 r2] eqn:Hr1; [discriminate|].
    apply skip_ws_cons in Hr1.
    destruct (c1 =? 58)%N; [|discriminate].
    destruct (parse_value f r2) as [v0 r3| |] eqn:Hv.
    + apply (proj1 (parse_consumes f)) in Hv.
      destruct (skip_ws r3) as [|c3 r4] eqn:Hr3; [discriminate|].
      apply skip_ws_cons in Hr3.
      destruct (c3 =? 44)%N; [apply IHm; lia|].
      destruct (c3 =? 125)%N; discriminate.
    + discriminate.
    + exfalso. apply (IHv r2); [lia|exact Hv].
Qed.

(** [JSON.parse] returns or throws: the model never gives up. *)
Theorem parse_total (text : jsstring) :
  parse_value (parse_fuel text) text <> PFuel.
Proof. apply (proj1 (parse_fuel_enough _)). unfold parse_fuel. lia. Qed.

End JsonFacts.


(** ** C5: the shape of a sanitized branch name *)

(** The regular expression, spelled out: hyphen-separated, non-empty words
    of [[a-z0-9]]. *)
Lemma matches_branch_re_words (s : jsstring) :
  matches_branch_re s = true <->
  hyphenated false s = true /\ s <> []
  /\ (forall pre, s <> pre ++ [hyphen]).
Proof.
  unfold matches_branch_re. split.
  - intros H. split; [now apply branch_re_hyphenated|]. split.
    + intros ->. discriminate H.
    + intros pre ->. revert H. generalize false.
      induction pre as [|c t IH]; intros b; simpl.
      * change (is_lower_alnum hyphen) with false.
        change (is_hyphen hyphen) with true. simpl.
        now rewrite andb_false_r.
      * destruct (is_lower_alnum c); [apply IH|].
        destruct (is_hyphen c); [|discriminate].
        destruct b; simpl; [apply IH|discriminate].
  - intros [Hh [Hne Hl]].
    destruct (exists_last Hne) as [pre [c E]]. subst s.
    apply branch_re_last; [exact Hh|].
    destruct (is_hyphen c) eqn:Hc; [|reflexivity].
    apply is_hyphen_eq in Hc. subst c. now destruct (Hl pre).
Qed.

Lemma existsb_flat_map {A B} (p : B -> bool) (f : A -> list B) (l : list A) :
  existsb p (flat_map f l) = existsb (fun a => existsb p (f a)) l.
Proof.
  induction l as [|a l IH]; [reflexivity|].
  simpl. now rewrite existsb_app, IH.
Qed.

Lemma existsb_forallb_negb {A} (p : A -> bool) (l : list A) :
  existsb p l = true -> forallb (fun a => negb (p a)) l = false.
Proof.
  induction l as [|a l IH]; simpl; [discriminate|].
  destruct (p a); simpl; [reflexivity|exact IH].
Qed.

(** A letter or digit of ASCII is still one after [toLowerCase]. *)
Lemma lowerUnit_ascii_alnum (c : N) :
  is_ascii_alnum c = true -> existsb is_lower_alnum (lowerUnit c) = true.
Proof.
  unfold is_ascii_alnum, lowerUnit. intros H.
  destruct (is_upper c) eqn:U.
  - clear H. simpl. rewrite orb_false_r. unfold is_lower_alnum.
    apply orb_true_iff. left. n_bool. apply andb_true_iff.
    split; apply N.leb_le; lia.
  - simpl in H.
    assert (L : (c < 128)%N).
    { unfold is_lower_alnum in H. n_bool; lia. }
    replace (c =? 0x212A)%N with false by (symmetry; apply N.eqb_neq; lia).
    replace (c =? 0x0130)%N with false by (symmetry; apply N.eqb_neq; lia).
    replace (in_range 0x0410 0x042F c) with false
      by (symmetry; apply andb_false_iff; left; apply N.leb_gt; lia).
    replace (in_range 0x0400 0x040F c) with false
      by (symmetry; apply andb_false_iff; left; apply N.leb_gt; lia).
    replace (c =? 0x0490)%N with false by (symmetry; apply N.eqb_neq; lia).
    simpl. now rewrite H.
Qed.

Lemma toLowerCase_ascii_alnum (text : jsstring) :
  existsb is_ascii_alnum text = true ->
  existsb is_lower_alnum (toLowerCase text) = true.
Proof.
  unfold toLowerCase. rewrite existsb_flat_map.
  induction text as [|c t IH]; simpl; [discriminate|].
  destruct (is_ascii_alnum c) eqn:A; simpl.
  - now rewrite lowerUnit_ascii_alnum.
  - intros H. rewrite (IH H). apply orb_true_r.
Qed.

(** The table leaves the letters and digits of ASCII where they are. *)
Lemma transliterateToEnglish_ascii_alnum (text : jsstring) :
  existsb is_ascii_alnum text = true ->
  existsb is_ascii_alnum (Translit.transliterateToEnglish text) = true.
Proof.
  unfold Translit.transliterateToEnglish. rewrite existsb_flat_map.
  induction text as [|c t IH]; simpl; [discriminate|].
  destruct (is_ascii_alnum c) eqn:A; simpl.
  - intros _. unfold Translit.translitChar.
    rewrite (lookup_below Translit.transliterationMap c); [|reflexivity|].
    + simpl. now rewrite A.
    + unfold is_ascii_alnum, is_lower_alnum in A. n_bool; lia.
  - intros H. rewrite (IH H). apply orb_true_r.
Qed.

(** The output of the common chain, for the text handed to it. *)
Lemma chain_branch_shape (name text : jsstring) :
  (existsb is_ascii_alnum name = true ->
   existsb is_ascii_alnum text = true) ->
  branch_shape name
    (substring 0 100 (stripHyphens (collapseRuns false (toLowerCase text)))).
Proof.
  intros Hname. rewrite substring_0.
  pose proof (chain_nil (toLowerCase text)) as Hnil. revert Hnil.
  set (full := stripHyphens (collapseRuns false (toLowerCase text))).
  set (out := firstn 100 full). intros Hnil.
  assert (Hout : hyphenated false out = true).
  { assert (Hfull : hyphenated false full = true)
      by apply stripHyphens_hyphenated, collapseRuns_hyphenated.
    rewrite <- (firstn_skipn 100 full) in Hfull.
    eapply hyphenated_prefix; eauto. }
  unfold branch_shape. split; [apply firstn_le_length|].
  split; [eapply hyphenated_chars; eauto|].
  split; [intros post E; rewrite E in Hout; discriminate|].
  split.
  { intros pre post E. rewrite E, hyphenated_no_double in Hout.
    discriminate. }
  split; [|split].
  - intros E. apply Hname, toLowerCase_ascii_alnum in E.
    apply existsb_forallb_negb in E. intros O. apply Hnil in O.
    rewrite O in E. discriminate.
  - intros Hne Hlast. apply matches_branch_re_words. auto.
  - intros pre E.
    destruct (Nat.le_gt_cases (length full) 100) as [L|L].
    + exfalso. unfold out in E. rewrite firstn_all2 in E by exact L.
      unfold full, stripHyphens in E. apply dropWhileEnd_last in E.
      discriminate E.
    + unfold out. apply firstn_length_le. lia.
Qed.

(** C5, as amended.  For every input string and in every revision, the
    output of [sanitizeBranchName] is at most 100 code units long, is made
    of [[a-z0-9]] and hyphens only, does not begin with a hyphen and has no
    two hyphens in a row; it is not empty when the input holds a letter or a
    digit of ASCII; it matches [^[a-z0-9]+(-[a-z0-9]+)*$] unless it is empty
    or ends with a hyphen; and it ends with a hyphen only when it is exactly
    100 code units long, the cleaned name having been cut there. *)
Theorem sanitizeBranchName_token (name : jsstring) :
  branch_shape name (sanitizeBranchName name)
  /\ branch_shape name (Translit.sanitizeBranchName name).
Proof.
  split.
  - apply chain_branch_shape. auto.
  - apply (chain_branch_shape name (Translit.transliterateToEnglish name)).
    apply transliterateToEnglish_ascii_alnum.
Qed.

(** C5 as stated fails twice: a name without letters or digits is
    sanitized to the empty string, and a cleaned name whose hundred-and-first
    code unit follows a hyphen is cut right after that hyphen.  Both names
    pass the [customBranchName.trim()] test of the callers. *)
Lemma sanitizeBranchName_may_not_match :
  sanitizeBranchName (js "!!!") = []
  /\ matches_branch_re (sanitizeBranchName (js "!!!")) = false
  /\ sanitizeBranchName (repeat 97%N 99 ++ js "-b") = repeat 97%N 99 ++ js "-"
  /\ matches_branch_re (sanitizeBranchName (repeat 97%N 99 ++ js "-b")) = false.
Proof. repeat split; vm_compute; reflexivity. Qed.

(** ** C4: transliteration *)

(** The transliterating revision does what C4 says: the text goes through
    the table, code unit by code unit, before the chain shared with the
    other revisions, and the table has the multi-letter entries. *)
Lemma translit_sanitize_through_table (name : jsstring) :
  Translit.sanitizeBranchName name
  = sanitizeBranchName (flat_map Translit.translitChar name)
  /\ Translit.translitChar 0x0449 = js "shch"
  /\ Translit.translitChar 0x0436 = js "zh"
  /\ Translit.translitChar 0x0447 = js "ch"
  /\ Translit.sanitizeBranchName (js "Баг 123") = js "bah-123".
Proof. repeat split; vm_compute; reflexivity. Qed.

(** C4 at the input where the revisions part: [mcp-server.ts] and the Data
    Center revision have no transliteration step, so the Cyrillic word is
    replaced by a hyphen, which is then stripped. *)
Theorem sanitizeBranchName_skips_table :
  sanitizeBranchName (js "Баг 123") = js "123"
  /\ Translit.sanitizeBranchName (js "Баг 123") = js "bah-123".
Proof. split; vm_compute; reflexivity. Qed.

(** An entry of the table that maps to the empty string is not applied: the
    soft sign stays, and becomes a hyphen. *)
Lemma translit_soft_sign_kept :
  Translit.translitChar 0x044C = [0x044C%N]
  /\ Translit.sanitizeBranchName (js "письмо") = js "pys-mo".
Proof. split; vm_compute; reflexivity. Qed.

(** ** C2: branch automation never raises, but may stay pending *)

Lemma bind_world {A} (f : World -> M A) (w : World) (s : State) :
  bind world f w s = f w w s.
Proof. reflexivity. Qed.

Lemma try_catch_swallow {A B} (m : M A) (b : B) (w : World) (s : State) :
  try_catch (m ;;; ret b) (fun _ => ret b) w s
  = (if unsettled (fst (m w s)) then Throw Unsettled else Ok b,
     snd (m w s)).
Proof.
  unfold try_catch, bind, ret.
  destruct (m w s) as [[x|[]] s']; reflexivity.
Qed.

Lemma try_catch_unit (m : M unit) (w : World) (s : State) :
  try_catch m (fun _ => ret tt) w s
  = (if unsettled (fst (m w s)) then Throw Unsettled else Ok tt,
     snd (m w s)).
Proof.
  unfold try_catch, ret. destruct (m w s) as [[[]|[]] s']; reflexivity.
Qed.

Lemma raises_swallowed {A} (a : A) (b : bool) :
  raises (if b then Throw Unsettled else Ok a) = false.
Proof. now destruct b. Qed.

Section Settles.

Context (w : World).

Lemma settles_ret {A} (a : A) : settles w (ret a).
Proof. intros s. reflexivity. Qed.

Lemma settles_throw {A} (e : exn) : e <> Unsettled -> settles w (@throw A e).
Proof. intros H s. destruct e; try reflexivity. congruence. Qed.

Lemma settles_bind {A B} (m : M A) (k : A -> M B) :
  settles w m -> (forall a, settles w (k a)) -> settles w (bind m k).
Proof.
  intros Hm Hk s. unfold bind. specialize (Hm s).
  destruct (m w s) as [[a|e] s']; [apply Hk|exact Hm].
Qed.

Lemma settles_try_catch {A} (m : M A) (h : exn -> M A) :
  settles w m -> (forall e, settles w (h e)) -> settles w (try_catch m h).
Proof.
  intros Hm Hh s. unfold try_catch. specialize (Hm s).
  destruct (m w s) as [[a|[]] s']; try apply Hh; [reflexivity|exact Hm].
Qed.

Lemma settles_world {A} (k : World -> M A) :
  settles w (k w) -> settles w (bind world k).
Proof. intros H s. apply H. Qed.

Lemma settles_execAsync (command dir : jsstring) :
  commands_exit w -> settles w (execAsync command dir).
Proof. intros H s. apply H. Qed.

Lemma settles_httpsRequest (options : HttpRequest) :
  responses_end w -> settles w (httpsRequest options).
Proof.
  intros H s. unfold httpsRequest. specialize (H (length (trace s)) options).
  destruct (https_reply w _ options) as [code body|r|code body];
    [destruct ((200 <=? code) && (code <? 300))%N| |destruct H]; reflexivity.
Qed.

End Settles.

(** A pure step raises or gives a value. *)
Lemma chooseBranchName_settles (issueKey customBranchName : value) :
  unsettled (chooseBranchName issueKey customBranchName) = false.
Proof.
  unfold chooseBranchName.
  destruct (truthy customBranchName);
    [destruct customBranchName; try reflexivity;
     match goal with |- context [trim ?x] => destruct (trim x) end|];
    destruct issueKey; reflexivity.
Qed.

Lemma get_settles (v : value) (k : string) : unsettled (get v k) = false.
Proof. now destruct v. Qed.

Lemma settles_lift {A} (w : World) (r : result A) :
  unsettled r = false -> settles w (lift r).
Proof. intros H s. exact H. Qed.

Ltac settled :=
  repeat first
    [ assumption
    | match goal with
      | |- settles _ (ret _) => apply settles_ret
      | |- settles _ (throw _) => apply settles_throw; discriminate
      | |- settles _ (lift (chooseBranchName _ _)) =>
          apply settles_lift, chooseBranchName_settles
      | |- settles _ (lift (get _ _)) => apply settles_lift, get_settles
      | |- settles _ (execAsync _ _) => apply settles_execAsync
      | |- settles _ (httpsRequest _) => apply settles_httpsRequest
      | |- settles _ (bind world _) => apply settles_world
      | |- settles _ (bind _ _) => apply settles_bind; [|intros ?]
      | |- settles _ (try_catch _ _) => apply settles_try_catch; [|intros ?]
      | |- settles _ (if ?b then _ else _) => destruct b
      | |- settles _ (match ?x with _ => _ end) => destruct x
      end ].

Lemma settles_createGitLabBranch
  (w : World) (issueKey customBranchName : value) :
  commands_exit w -> settles w (createGitLabBranch issueKey customBranchName).
Proof.
  intros H. unfold createGitLabBranch, attempt, branchExists. settled.
Qed.

Lemma settles_createGitHubBranch
  (w : World) (issueKey customBranchName : value) :
  responses_end w -> settles w (createGitHubBranch issueKey customBranchName).
Proof.
  intros H. unfold createGitHubBranch, getDefaultBranchSha. settled.
Qed.

Lemma createGitLabBranch_raises
  (w : World) (s : State) (issueKey customBranchName : value) :
  raises (fst (createGitLabBranch issueKey customBranchName w s)) = false.
Proof.
  unfold createGitLabBranch. rewrite bind_world.
  destruct (negb (existsSync w (cwd w))); [reflexivity|].
  destruct (negb (existsSync w (path_join (cwd w) (js ".git"))));
    [reflexivity|].
  rewrite try_catch_unit. apply raises_swallowed.
Qed.

Lemma createGitHubBranch_raises
  (w : World) (s : State) (issueKey customBranchName : value) :
  raises (fst (createGitHubBranch issueKey customBranchName w s)) = false.
Proof.
  unfold createGitHubBranch. rewrite bind_world.
  destruct (GITHUB_TOKEN (env w)) as [[|t0 t1]|]; try reflexivity.
  destruct (GITHUB_REPO (env w)) as [[|r0 r1]|]; try reflexivity.
  destruct (parseGitHubRepo w (r0 :: r1)) as [[owner repoName]|];
    [|reflexivity].
  rewrite try_catch_unit. apply raises_swallowed.
Qed.

Lemma settled_value {A} (r : result A) (a : A) :
  raises r = false -> unsettled r = false -> (forall x : A, x = a) -> r = Ok a.
Proof.
  destruct r as [x|[]]; try discriminate; intros _ _ H; now rewrite (H x).
Qed.

(** C2.  Neither [createGitLabBranch] nor [createGitHubBranch] ever hands
    an exception to its caller, whatever the issue key and the custom branch
    name are (strings or not), whatever the configuration and the file
    system are, and whatever the commands and the GitHub calls answer.
    [createGitLabBranch] completes whenever every command exits, and
    [createGitHubBranch] whenever every response that begins is received to
    its end.  But a failure of the reference read is not always absorbed:
    when the connection is lost inside the body of GitHub's answer, the
    promise of [httpsRequest] never settles, [createGitHubBranch] never
    completes, and [createJiraIssueWithBranch], which awaits it, never
    answers although the issue was created. *)
Theorem branch_automation_never_throws :
  (forall w s issueKey customBranchName,
      raises (fst (createGitLabBranch issueKey customBranchName w s)) = false
      /\ raises (fst (createGitHubBranch issueKey customBranchName w s))
         = false)
  /\ (forall w s issueKey customBranchName,
         commands_exit w ->
         fst (createGitLabBranch issueKey customBranchName w s) = Ok tt)
  /\ (forall w s issueKey customBranchName,
         responses_end w ->
         fst (createGitHubBranch issueKey customBranchName w s) = Ok tt)
  /\ run (createGitHubBranch (str "OPS-7") VUndef)
       (github_world (Aborted 200 (jsq "{'ref':'refs/heads/main','obj")))
     = (Throw Unsettled, [Https read_main])
  /\ run (callTool (js "createJiraIssueWithBranch") create_args)
       (github_world (Aborted 200 (jsq "{'ref':'refs/heads/main','obj")))
     = (Throw Unsettled,
        [ Connect;
          ToolsCall (js "createJiraIssue")
            (VObj [ (js "projectKey", str "OPS");
                    (js "issueTypeName", str "Task");
                    (js "summary", str "Fix login");
                    (js "cloudId", str "c-1") ]);
          Https read_main ]).
Proof.
  split; [|split; [|split; [|split; vm_compute; reflexivity]]].
  - intros. split;
      [apply createGitLabBranch_raises|apply createGitHubBranch_raises].
  - intros w s issueKey customBranchName H.
    apply settled_value; [apply createGitLabBranch_raises| |now intros []].
    now apply settles_createGitLabBranch.
  - intros w s issueKey customBranchName H.
    apply settled_value; [apply createGitHubBranch_raises| |now intros []].
    now apply settles_createGitHubBranch.
Qed.

(** ** C3: the extraction of the issue key *)

Lemma or_else_falsy (a b : value) :
  truthy (or_else a b) = false -> or_else a b = b /\ truthy a = false.
Proof.
  unfold or_else. destruct (truthy a) eqn:E; intros H; [congruence|auto].
Qed.

Lemma key_of_parsed_spec (parsed : value) :
  key_of_parsed parsed
  = or_null (first_present [ opt_get parsed "key";
                             opt_get (opt_get parsed "fields") "key";
                             opt_get parsed "id" ]).
Proof.
  unfold key_of_parsed, first_present, or_else. simpl.
  destruct (truthy (opt_get parsed "key")); [reflexivity|].
  destruct (truthy (opt_get (opt_get parsed "fields") "key")); [reflexivity|].
  destruct (truthy (opt_get parsed "id")); reflexivity.
Qed.

Lemma key_of_fields_spec (res : value) :
  key_of_fields res
  = or_null (first_present [ opt_get res "key";
                             opt_get (opt_get res "fields") "key";
                             opt_get res "id";
                             opt_get res "issueKey" ]).
Proof.
  unfold key_of_fields, first_present, or_else. simpl.
  destruct (truthy (opt_get res "key")); [reflexivity|].
  destruct (truthy (opt_get (opt_get res "fields") "key")); [reflexivity|].
  destruct (truthy (opt_get res "id")); [reflexivity|].
  destruct (truthy (opt_get res "issueKey")); reflexivity.
Qed.

Lemma first_present_truthy (l : list value) (v : value) :
  first_present l = Some v -> truthy v = true.
Proof. intros H. now apply find_some in H. Qed.

(** *** The pattern search is the first match *)

Lemma span_forallb (p : N -> bool) (s : jsstring) :
  forallb p (fst (span p s)) = true.
Proof.
  induction s as [|c t IH]; simpl; [reflexivity|].
  destruct (p c) eqn:E; [|reflexivity].
  destruct (span p t); simpl in *. now rewrite E.
Qed.

Lemma span_app (p : N -> bool) (a b : jsstring) (c : N) :
  forallb p a = true -> p c = false -> span p (a ++ c :: b) = (a, c :: b).
Proof.
  intros Ha Hc. induction a as [|x a IH]; simpl.
  - now rewrite Hc.
  - simpl in Ha. apply andb_prop in Ha as [Hx Ha].
    rewrite Hx, (IH Ha). reflexivity.
Qed.

Lemma match_key_here_is_issue_key (s m : jsstring) :
  match_key_here s = Some m -> is_issue_key m = true.
Proof.
  unfold match_key_here.
  pose proof (span_forallb is_upper s) as Hl.
  destruct (span is_upper s) as [[|l ls] [|c r']]; try discriminate.
  destruct (is_hyphen c) eqn:Hc; [|discriminate].
  pose proof (span_forallb is_digit r') as Hd.
  destruct (span is_digit r') as [[|d ds] rest]; [discriminate|].
  intros E; injection E as <-. simpl in Hl, Hd.
  apply is_hyphen_eq in Hc. subst c.
  unfold is_issue_key.
  change (l :: ls ++ hyphen :: d :: ds)
    with ((l :: ls) ++ hyphen :: d :: ds).
  rewrite (span_app is_upper (l :: ls) (d :: ds) hyphen Hl eq_refl).
  cbn [nonempty andb]. change (is_hyphen hyphen) with true. exact Hd.
Qed.

Lemma match_key_is_issue_key (s m : jsstring) :
  match_key s = Some m -> is_issue_key m = true.
Proof.
  induction s as [|c t IH]; cbn [match_key].
  - discriminate.
  - destruct (match_key_here (c :: t)) eqn:E; [|exact IH].
    intros H; injection H as <-. eapply match_key_here_is_issue_key; eauto.
Qed.

(** ** The search for a key in a text *)

Lemma span_eq (p : N -> bool) (s a b : jsstring) :
  span p s = (a, b) -> s = a ++ b.
Proof.
  revert a b. induction s as [|c t IH]; intros a b; simpl.
  - intros E; injection E as <- <-. reflexivity.
  - destruct (p c).
    + destruct (span p t) as [a' b'] eqn:S. intros E; injection E as <- <-.
      simpl. f_equal. now apply IH.
    + intros E; injection E as <- <-. reflexivity.
Qed.

Lemma match_key_here_prefix (s m : jsstring) :
  match_key_here s = Some m -> exists rest, s = m ++ rest.
Proof.
  unfold match_key_here.
  destruct (span is_upper s) as [letters r] eqn:S1. apply span_eq in S1.
  destruct letters as [|l ls]; [discriminate|].
  destruct r as [|c r']; [discriminate|].
  destruct (is_hyphen c) eqn:Hc; [|discriminate].
  apply is_hyphen_eq in Hc. subst c.
  destruct (span is_digit r') as [[|d ds] rest] eqn:S2; [discriminate|].
  apply span_eq in S2. intros E; injection E as <-. exists rest.
  rewrite S1, S2. simpl. f_equal. rewrite <- app_assoc. reflexivity.
Qed.

Lemma match_key_here_complete (k post : jsstring) :
  is_issue_key k = true -> exists m, match_key_here (k ++ post) = Some m.
Proof.
  unfold is_issue_key, match_key_here.
  pose proof (span_forallb is_upper k) as Hl.
  destruct (span is_upper k) as [letters r] eqn:S1. apply span_eq in S1.
  destruct letters as [|l ls]; [discriminate|].
  destruct r as [|c r']; [discriminate|].
  intros H. apply andb_prop in H as [H Hd]. apply andb_prop in H as [Hc Hn].
  simpl in Hl. rewrite S1, <- app_assoc. simpl app at 2.
  apply is_hyphen_eq in Hc. subst c.
  rewrite (span_app is_upper (l :: ls) (r' ++ post) hyphen Hl eq_refl).
  change (is_hyphen hyphen) with true. cbv iota.
  destruct r' as [|d ds]; [discriminate|]. simpl in Hd.
  apply andb_prop in Hd as [Hd _]. simpl. rewrite Hd.
  destruct (span is_digit (ds ++ post)). eauto.
Qed.

Lemma key_pattern_digits (r : jsstring) :
  key_pattern_from InDigits r = forallb is_digit r
  /\ key_pattern_from AfterHyphen r = nonempty r && forallb is_digit r.
Proof.
  assert (D : forall r, key_pattern_from InDigits r = forallb is_digit r).
  { intros x. induction x as [|c t IH]; simpl; [reflexivity|now rewrite IH]. }
  split; [apply D|]. destruct r as [|c t]; simpl; [reflexivity|].
  now rewrite D.
Qed.

Lemma key_pattern_letters (s : jsstring) :
  key_pattern_from InLetters s
  = match snd (span is_upper s) with
    | c :: r => is_hyphen c && nonempty r && forallb is_digit r
    | [] => false
    end.
Proof.
  induction s as [|c t IH]; simpl; [reflexivity|].
  destruct (is_upper c); [rewrite IH; now destruct (span is_upper t)|].
  simpl. rewrite (proj2 (key_pattern_digits t)), andb_assoc. reflexivity.
Qed.

(** The automaton and the reading by runs agree. *)
Lemma key_pattern_is_issue_key (s : jsstring) :
  key_pattern s = is_issue_key s.
Proof.
  unfold key_pattern, is_issue_key. destruct s as [|c t]; [reflexivity|].
  cbn [key_pattern_from span]. destruct (is_upper c) eqn:U; cbn [andb].
  - rewrite key_pattern_letters. now destruct (span is_upper t) as [a [|d r]].
  - reflexivity.
Qed.

Lemma span_prefix_length (p : N -> bool) (a b : jsstring) :
  forallb p a = true -> length a <= length (fst (span p (a ++ b))).
Proof.
  induction a as [|x a IH]; simpl; [lia|]. intros H.
  apply andb_prop in H as [Hx Ha]. rewrite Hx. specialize (IH Ha).
  revert IH. destruct (span p (a ++ b)); simpl. lia.
Qed.

(** A piece at the head of [s] that is an issue key: its letters are the
    run of letters of [s], and its digits are among the run of digits. *)
Lemma issue_key_prefix (s m rest : jsstring) :
  is_issue_key m = true -> s = m ++ rest ->
  exists letters digits,
    m = letters ++ hyphen :: digits
    /\ letters <> [] /\ digits <> []
    /\ forallb is_digit digits = true
    /\ span is_upper s = (letters, hyphen :: digits ++ rest).
Proof.
  unfold is_issue_key. intros H ->.
  pose proof (span_forallb is_upper m) as Hl.
  destruct (span is_upper m) as [letters r] eqn:S. apply span_eq in S.
  destruct letters as [|l ls]; [discriminate|].
  destruct r as [|c digits]; [discriminate|].
  apply andb_prop in H as [H Hd]. apply andb_prop in H as [Hc Hn].
  apply is_hyphen_eq in Hc. subst c. simpl in Hl.
  exists (l :: ls), digits. split; [exact S|]. split; [discriminate|].
  split; [now destruct digits|]. split; [exact Hd|].
  rewrite S, <- app_assoc. simpl app at 2.
  apply span_app; [exact Hl|reflexivity].
Qed.

Lemma match_key_here_longest (s m m' rest' : jsstring) :
  match_key_here s = Some m -> s = m' ++ rest' -> is_issue_key m' = true ->
  length m' <= length m.
Proof.
  intros E S K.
  destruct (issue_key_prefix s m' rest' K S)
    as [letters [digits [-> [Hl [Hd [Fd Sp]]]]]].
  unfold match_key_here in E. rewrite Sp in E.
  destruct letters as [|l ls]; [congruence|].
  change (is_hyphen hyphen) with true in E. cbv iota in E.
  pose proof (span_prefix_length is_digit digits rest' Fd) as L.
  revert L. destruct (span is_digit (digits ++ rest')) as [[|d ds] r];
    [discriminate|]. intros L.
  injection E as <-. simpl in *. rewrite !length_app. simpl. lia.
Qed.

Lemma match_key_here_none (s m' rest' : jsstring) :
  match_key_here s = None -> s = m' ++ rest' -> is_issue_key m' = false.
Proof.
  intros E ->. destruct (is_issue_key m') eqn:K; [|reflexivity].
  destruct (match_key_here_complete m' rest' K) as [m E']. congruence.
Qed.

Lemma longest_prefix_none (p : jsstring -> bool) (s m' rest' : jsstring) :
  longest_prefix p s = None -> s = m' ++ rest' -> p m' = false.
Proof.
  revert p m'. induction s as [|c t IH]; intros p m'; simpl.
  - destruct (p []) eqn:E; [discriminate|]. intros _ S.
    symmetry in S. apply app_eq_nil in S as [-> _]. exact E.
  - destruct (longest_prefix (fun m => p (c :: m)) t) eqn:L; [discriminate|].
    destruct (p []) eqn:E; [discriminate|]. intros _ S.
    destruct m' as [|c' m']; [exact E|]. injection S as <- S.
    exact (IH _ m' L S).
Qed.

Lemma longest_prefix_some (p : jsstring -> bool) (s m : jsstring) :
  longest_prefix p s = Some m ->
  (exists rest, s = m ++ rest) /\ p m = true
  /\ (forall m' rest', s = m' ++ rest' -> p m' = true ->
      length m' <= length m).
Proof.
  revert p m. induction s as [|c t IH]; intros p m; simpl.
  - destruct (p []) eqn:E; [|discriminate]. intros H; injection H as <-.
    split; [now exists []|]. split; [exact E|].
    intros m' rest' S _. symmetry in S. apply app_eq_nil in S as [-> _].
    simpl. lia.
  - destruct (longest_prefix (fun m => p (c :: m)) t) as [m0|] eqn:L.
    + intros H; injection H as <-.
      destruct (IH _ _ L) as [[rest ->] [Pm Max]].
      split; [now exists rest|]. split; [exact Pm|].
      intros [|c' m'] rest' S Pm'; simpl; [lia|].
      injection S as <- S. specialize (Max m' rest' S Pm'). lia.
    + destruct (p []) eqn:E; [|discriminate]. intros H; injection H as <-.
      split; [now exists (c :: t)|]. split; [exact E|].
      intros [|c' m'] rest' S Pm'; simpl; [lia|]. exfalso.
      injection S as <- S.
      pose proof (longest_prefix_none _ t m' rest' L S) as F. simpl in F.
      congruence.
Qed.

Lemma prefix_same_length {A} (a b ra rb : list A) :
  a ++ ra = b ++ rb -> length a = length b -> a = b.
Proof.
  revert b. induction a as [|x a IH]; intros [|y b]; simpl; try discriminate;
    [reflexivity|].
  intros E L. injection E as <- E. f_equal. apply IH; [exact E|lia].
Qed.

(** At one place, the pattern search of the code gives the longest piece
    that is an issue key. *)
Lemma match_key_here_longest_prefix (s : jsstring) :
  match_key_here s = longest_prefix key_pattern s.
Proof.
  destruct (longest_prefix key_pattern s) as [m|] eqn:L.
  - destruct (longest_prefix_some _ _ _ L) as [[rest S] [Pm Max]].
    rewrite key_pattern_is_issue_key in Pm.
    destruct (match_key_here_complete m rest Pm) as [m0 E].
    rewrite <- S in E. rewrite E. f_equal.
    destruct (match_key_here_prefix _ _ E) as [rest0 S0].
    apply (prefix_same_length m0 m rest0 rest); [congruence|].
    apply Nat.le_antisymm.
    + apply (Max m0 rest0 S0). rewrite key_pattern_is_issue_key.
      eapply match_key_here_is_issue_key; eauto.
    + eapply match_key_here_longest; eauto.
  - destruct (match_key_here s) as [m|] eqn:E; [|reflexivity].
    destruct (match_key_here_prefix _ _ E) as [rest S].
    pose proof (longest_prefix_none _ s m rest L S) as F.
    rewrite key_pattern_is_issue_key in F.
    apply match_key_here_is_issue_key in E. congruence.
Qed.

(** The pattern search of the code is the first match of the pattern. *)
Lemma match_key_first_match (s : jsstring) :
  match_key s = first_match key_pattern s.
Proof.
  induction s as [|c t IH]; cbn [match_key first_match];
    rewrite match_key_here_longest_prefix;
    destruct (longest_prefix key_pattern _); auto.
Qed.

Lemma match_key_here_nonempty (s m : jsstring) :
  match_key_here s = Some m -> m <> [].
Proof.
  unfold match_key_here. destruct (span is_upper s) as [[|l ls] [|c r']];
    try discriminate.
  destruct (is_hyphen c); [|discriminate].
  destruct (span is_digit r') as [[|d ds] ?]; [discriminate|].
  intros E; injection E as <-. discriminate.
Qed.

Lemma match_key_nonempty (s m : jsstring) : match_key s = Some m -> m <> [].
Proof.
  induction s as [|c t IH]; cbn [match_key].
  - discriminate.
  - destruct (match_key_here (c :: t)) eqn:E; [|exact IH].
    intros H; injection H as <-. eapply match_key_here_nonempty; eauto.
Qed.

Lemma extract_block_truthy (block v : value) :
  extract_block block = Some v -> truthy v = true.
Proof.
  unfold extract_block.
  destruct (opt_get block "text") as [| | | |[|c text]| |]; try discriminate.
  destruct (is_lit (opt_get block "type") "text"); [|discriminate].
  destruct (Json.parse (c :: text)).
  - apply first_present_truthy.
  - rewrite <- match_key_first_match.
    destruct (match_key (c :: text)) as [m|] eqn:E; [|discriminate].
    intros H; injection H as <-. apply match_key_nonempty in E.
    destruct m; [congruence|reflexivity].
Qed.

(** The loop finds what the first yielding block yields. *)
Lemma scanContent_first_found (w : World) (blocks : list value) :
  forallb content_block blocks = true ->
  scanContent w VNull blocks
  = (or_null (first_found extract_block blocks), Ok tt).
Proof.
  induction blocks as [|item rest IH]; simpl; [reflexivity|].
  intros H. apply andb_prop in H as [Hi Hr]. specialize (IH Hr).
  unfold content_block in Hi. destruct item; try discriminate.
  cbn [get]. unfold extract_block.
  destruct (opt_get (VObj props) "text") as [| | | |[|c text]| |] eqn:Et;
    try discriminate; cbn [truthy]; rewrite ?andb_false_r; try exact IH.
  destruct (is_lit (opt_get (VObj props) "type") "text"); cbn [andb];
    [|exact IH].
  cbn [toStr]. destruct (Json.parse (c :: text)) as [parsed|].
  - rewrite key_of_parsed_spec.
    destruct (first_present _) as [v|] eqn:Ef; cbn [or_null].
    + now rewrite (first_present_truthy _ _ Ef).
    + exact IH.
  - rewrite <- match_key_first_match.
    destruct (match_key (c :: text)) as [m|]; cbn [option_map or_null];
      [reflexivity|exact IH].
Qed.

(** Every run of [handleCreateResponse]: it has a key [v], which is the
    extraction for a tool result of the data model; without a truthy key it
    returns [v] and does nothing; with one it starts the branch automation
    and returns [v] when that completes. *)
Lemma handleCreateResponse_run
  (w : World) (s : State) (res branchNameInput : value) :
  exists v,
    (tool_result res = true -> v = extraction res)
    /\ (handleCreateResponse res branchNameInput w s = (Ok v, s)
        \/ (truthy v = true
            /\ handleCreateResponse res branchNameInput w s
               = (if unsettled (fst (makeBranch v branchNameInput w s))
                  then Throw Unsettled else Ok v,
                  snd (makeBranch v branchNameInput w s)))).
Proof.
  assert (B : forall v,
             try_catch
               ((if existsSync w (path_join (cwd w) (js ".git"))
                 then createGitLabBranch v (or_else branchNameInput VUndef)
                 else if is_set (GITHUB_TOKEN (env w))
                         && is_set (GITHUB_REPO (env w))
                 then createGitHubBranch v (or_else branchNameInput VUndef)
                 else ret tt) ;;; ret v) (fun _ => ret v) w s
             = (if unsettled (fst (makeBranch v branchNameInput w s))
                then Throw Unsettled else Ok v,
                snd (makeBranch v branchNameInput w s))).
  { intros v. rewrite try_catch_swallow. reflexivity. }
  destruct (tool_result res) eqn:WF.
  - unfold tool_result in WF. destruct res; try discriminate.
    unfold handleCreateResponse, extraction, has_error_flag.
    rewrite bind_world.
    destruct (truthy (opt_get (VObj props) "isError")
              || truthy (opt_get (VObj props) "error"));
      [exists VNull; split; [reflexivity|now left]|].
    set (found :=
           match opt_get (VObj props) "content" with
           | VArr content => scanContent w VNull content
           | _ => (key_of_fields (VObj props), Ok tt)
           end).
    assert (E : found =
                (match opt_get (VObj props) "content" with
                 | VArr blocks => or_null (first_found extract_block blocks)
                 | _ =>
                     or_null
                       (first_present
                          [ opt_get (VObj props) "key";
                            opt_get (opt_get (VObj props) "fields") "key";
                            opt_get (VObj props) "id";
                            opt_get (VObj props) "issueKey" ])
                 end, Ok tt)).
    { unfold found.
      destruct (opt_get (VObj props) "content");
        try (now rewrite key_of_fields_spec).
      now apply scanContent_first_found. }
    rewrite E. clear E found.
    match goal with
    | |- context [truthy ?k] => exists k; destruct (truthy k) eqn:T
    end; (split; [reflexivity|]); [right|now left].
    split; [reflexivity|]. apply B.
  - unfold handleCreateResponse. rewrite bind_world.
    destruct (truthy _ || truthy _);
      [exists VNull; split; [discriminate|now left]|].
    match goal with
    | |- context [let (_, _) := ?p in _] => destruct p as [issueKey left_]
    end.
    exists issueKey. split; [discriminate|].
    destruct left_ as [[]|e]; [|now left].
    destruct (truthy issueKey) eqn:T; [right|now left].
    split; [reflexivity|]. apply B.
Qed.

Lemma handleCreateResponse_value
  (w : World) (s : State) (branchNameInput res : value) :
  tool_result res = true ->
  fst (handleCreateResponse res branchNameInput w s) = Ok (extraction res)
  \/ fst (handleCreateResponse res branchNameInput w s) = Throw Unsettled.
Proof.
  intros WF.
  destruct (handleCreateResponse_run w s res branchNameInput)
    as [v [Hv [E|[_ E]]]]; specialize (Hv WF); subst v; rewrite E;
    cbn [fst]; [now left|].
  destruct (unsettled (fst (makeBranch _ _ w s))); [right|left]; reflexivity.
Qed.

Lemma settles_makeBranch (w : World) (issueKey branchNameInput : value) :
  commands_exit w -> responses_end w ->
  settles w (makeBranch issueKey branchNameInput).
Proof.
  intros He Hr. unfold makeBranch. apply settles_world.
  destruct (existsSync w _); [now apply settles_createGitLabBranch|].
  destruct (_ && _); [now apply settles_createGitHubBranch|].
  apply settles_ret.
Qed.

(** C3.  For every tool result, the value that [handleCreateResponse]
    returns is [null] when the result carries an error flag ([isError], or
    [error]); when the result has a list of content blocks, what the first
    yielding block yields, scanning in order: [key], then [fields.key], then
    [id] of a text block whose text is JSON, and the first match of
    [[A-Z]+-[0-9]+] when the text is not JSON; otherwise [key], then
    [fields.key], then [id], then [issueKey] of the flat object.  It returns
    that value whenever the branch automation it starts completes, which is
    whenever every command exits and every response that begins is received
    to its end; the examples follow, where nothing is configured.  But it
    does not return for every tool result: with GitHub configured, when the
    connection is lost inside the body of GitHub's answer to the reference
    read, the result [{key:"OPS-9"}] yields nothing, the call staying
    pending. *)
Theorem handleCreateResponse_extracts :
  (forall w s branchNameInput res,
      tool_result res = true ->
      fst (handleCreateResponse res branchNameInput w s) = Ok (extraction res)
      \/ fst (handleCreateResponse res branchNameInput w s) = Throw Unsettled)
  /\ (forall w s branchNameInput res,
         tool_result res = true -> commands_exit w -> responses_end w ->
         fst (handleCreateResponse res branchNameInput w s)
         = Ok (extraction res))
  /\ extraction result_with_key_block = str "OPS-7"
  /\ extraction result_flat = str "OPS-9"
  /\ extraction result_error = VNull
  /\ extraction result_sentence = str "OPS-12"
  /\ run (handleCreateResponse result_with_key_block VUndef) offline
     = (Ok (str "OPS-7"), [])
  /\ run (handleCreateResponse result_flat VUndef) offline
     = (Ok (str "OPS-9"), [])
  /\ run (handleCreateResponse result_error VUndef) offline = (Ok VNull, [])
  /\ run (handleCreateResponse result_sentence VUndef) offline
     = (Ok (str "OPS-12"), [])
  /\ run (handleCreateResponse result_flat VUndef)
       (github_world (Aborted 200 (jsq "{'ref':'refs/heads/main','obj")))
     = (Throw Unsettled, [Https read_main]).
Proof.
  split; [exact handleCreateResponse_value|].
  split; [|repeat split; vm_compute; reflexivity].
  intros w s branchNameInput res WF He Hr.
  destruct (handleCreateResponse_run w s res branchNameInput)
    as [v [Hv [E|[_ E]]]]; specialize (Hv WF); subst v; rewrite E;
    cbn [fst]; [reflexivity|].
  now rewrite (settles_makeBranch w _ _ He Hr s).
Qed.

(** ** C6: the form of an extracted key *)

(** Where a value yielded by a block comes from. *)
Lemma extract_block_origin (block v : value) :
  extract_block block = Some v ->
  (exists k, v = VStr k /\ is_issue_key k = true)
  \/ (exists text parsed,
         opt_get block "text" = VStr text /\ Json.parse text = Some parsed
         /\ In v [ opt_get parsed "key";
                   opt_get (opt_get parsed "fields") "key";
                   opt_get parsed "id" ]).
Proof.
  unfold extract_block.
  destruct (opt_get block "text") as [| | | |[|c text]| |]; try discriminate.
  destruct (is_lit (opt_get block "type") "text"); [|discriminate].
  destruct (Json.parse (c :: text)) as [parsed|] eqn:Ep.
  - intros H. right. exists (c :: text), parsed.
    repeat split; auto. now apply find_some in H.
  - rewrite <- match_key_first_match.
    destruct (match_key (c :: text)) as [m|] eqn:E; [|discriminate].
    intros H; injection H as <-. left. exists m. split; [reflexivity|].
    eapply match_key_is_issue_key; eauto.
Qed.

Lemma first_found_origin {A B} (f : A -> option B) (l : list A) (y : B) :
  first_found f l = Some y -> exists x, In x l /\ f x = Some y.
Proof.
  induction l as [|x rest IH]; simpl; [discriminate|].
  destruct (f x) eqn:E.
  - intros H; injection H as ->. exists x. auto.
  - intros H. destruct (IH H) as [x' [I F]]. exists x'. auto.
Qed.

(** C6, as amended.  For every tool result, a non-null value returned by the
    extraction is either a string that matches [[A-Z]+-[0-9]+] from its first
    to its last code unit (when it was found by the pattern, in a text block
    that is not JSON), or the value of [key], [fields.key] or [id] of a JSON
    text block, or the value of [key], [fields.key], [id] or [issueKey] of
    the flat result; a value read from a field is returned as it is. *)
Theorem extracted_key_origin
  (w : World) (s : State) (branchNameInput res v : value) :
  tool_result res = true ->
  fst (handleCreateResponse res branchNameInput w s) = Ok v ->
  v <> VNull ->
  (exists k, v = VStr k /\ is_issue_key k = true)
  \/ (exists blocks block text parsed,
         opt_get res "content" = VArr blocks /\ In block blocks
         /\ opt_get block "text" = VStr text /\ Json.parse text = Some parsed
         /\ In v [ opt_get parsed "key";
                   opt_get (opt_get parsed "fields") "key";
                   opt_get parsed "id" ])
  \/ In v [ opt_get res "key"; opt_get (opt_get res "fields") "key";
            opt_get res "id"; opt_get res "issueKey" ].
Proof.
  intros WF H Hv.
  destruct (handleCreateResponse_value w s branchNameInput res WF) as [E|E];
    rewrite E in H; [|discriminate].
  injection H as <-. unfold extraction in *.
  destruct (has_error_flag res); [congruence|].
  destruct (opt_get res "content") as [| | | | |blocks|] eqn:Ec;
    try (right; right;
         destruct (first_present _) as [x|] eqn:Ef; [|cbn in Hv; congruence];
         now apply find_some in Ef).
  destruct (first_found extract_block blocks) as [x|] eqn:Ef;
    [|cbn in Hv; congruence].
  cbn [or_null]. apply first_found_origin in Ef as [block [I Ef]].
  apply extract_block_origin in Ef as [K|[text [parsed [Et [Ep Ev]]]]].
  - now left.
  - right; left. exists blocks, block, text, parsed. auto.
Qed.

Lemma extracted_key_origin_witness :
  tool_result result_sentence = true
  /\ fst (handleCreateResponse result_sentence VUndef offline initial)
     = Ok (str "OPS-12")
  /\ str "OPS-12" <> VNull
  /\ ((exists k, str "OPS-12" = VStr k /\ is_issue_key k = true)
      \/ (exists blocks block text parsed,
             opt_get result_sentence "content" = VArr blocks /\ In block blocks
             /\ opt_get block "text" = VStr text
             /\ Json.parse text = Some parsed
             /\ In (str "OPS-12")
                  [ opt_get parsed "key";
                    opt_get (opt_get parsed "fields") "key";
                    opt_get parsed "id" ])
      \/ In (str "OPS-12")
           [ opt_get result_sentence "key";
             opt_get (opt_get result_sentence "fields") "key";
             opt_get result_sentence "id";
             opt_get result_sentence "issueKey" ]).
Proof.
  assert (H1 : tool_result result_sentence = true) by reflexivity.
  assert (H2 : fst (handleCreateResponse result_sentence VUndef offline initial)
               = Ok (str "OPS-12")) by (vm_compute; reflexivity).
  assert (H3 : str "OPS-12" <> VNull) by discriminate.
  split; [exact H1|]. split; [exact H2|]. split; [exact H3|].
  exact (extracted_key_origin offline initial VUndef result_sentence
           (str "OPS-12") H1 H2 H3).
Defined.

(** C6 as stated fails on the answer of the tracker to a created issue that
    carries no [key]: the extraction falls back on [id] and returns it, and
    an identifier holds no issue key. *)
Lemma extracted_key_may_be_an_id :
  tool_result result_created = true
  /\ fst (handleCreateResponse result_created VUndef offline initial)
     = Ok (str "10001")
  /\ is_issue_key (js "10001") = false
  /\ match_key (js "10001") = None.
Proof. repeat split; vm_compute; reflexivity. Qed.

(** ** C10: the classification of the assignee *)

Lemma eqb_false_by (a b : N) : a <> b -> (a =? b)%N = false.
Proof. apply N.eqb_neq. Qed.

(** Lower-casing one code unit and comparing with a lower-case ASCII letter
    other than [k]. *)
Lemma lowerUnit_head (c x : N) (rest t : jsstring) :
  is_lower x = true -> (x =? 107)%N = false ->
  forallb is_lower t = true ->
  str_eqb (lowerUnit c ++ rest) (x :: t) = same_letter c x && str_eqb rest t.
Proof.
  intros Hx Hk Ht. unfold lowerUnit, same_letter.
  destruct (is_upper c) eqn:U;
    [|destruct (c =? 0x212A)%N eqn:K;
      [|destruct (c =? 0x0130)%N eqn:I;
        [|destruct (in_range 0x0410 0x042F c) eqn:C1;
          [|destruct (in_range 0x0400 0x040F c) eqn:C2;
            [|destruct (c =? 0x0490)%N eqn:G]]]]];
    cbn [app str_eqb andb orb];
    try (destruct t as [|y t']; cbn [str_eqb forallb] in *);
    repeat match goal with
           | |- context [(?a =? ?b)%N] => destruct (a =? b)%N eqn:?
           end;
    cbn [andb orb]; try reflexivity;
    try (exfalso; n_bool; subst; lia).
Qed.

Lemma lowerUnit_nonempty (c : N) : lowerUnit c <> [].
Proof.
  unfold lowerUnit.
  repeat match goal with
         | |- (if ?b then _ else _) <> _ => destruct b
         end; discriminate.
Qed.

(** [s.toLowerCase() === t] is equality up to ASCII case, for a word [t] of
    lower-case ASCII letters without [k]. *)
Lemma toLowerCase_eq_word (t s : jsstring) :
  forallb (fun x => is_lower x && negb (x =? 107)%N) t = true ->
  str_eqb (toLowerCase s) t = eq_ignoring_case s t.
Proof.
  revert t. induction s as [|c s IH]; intros t Ht.
  - destruct t; reflexivity.
  - cbn [toLowerCase flat_map]. destruct t as [|x t].
    + cbn [eq_ignoring_case]. pose proof (lowerUnit_nonempty c).
      destruct (lowerUnit c); [congruence|reflexivity].
    + cbn [forallb] in Ht. apply andb_prop in Ht as [Hx Ht].
      apply andb_prop in Hx as [Hx Hk]. apply negb_true_iff in Hk.
      cbn [eq_ignoring_case]. fold (toLowerCase s).
      rewrite lowerUnit_head; try assumption.
      * now rewrite IH.
      * rewrite forallb_forall in *. intros y Hy.
        specialize (Ht y Hy). now apply andb_prop in Ht.
Qed.

Lemma includes_char (c : N) (s : jsstring) : includes [c] s = contains c s.
Proof.
  induction s as [|d s IH]; [reflexivity|].
  cbn [includes startsWith contains existsb]. fold (contains c s).
  rewrite IH. now rewrite andb_true_r.
Qed.

Lemma assigneeField_classified (assignee : jsstring) :
  assigneeField assignee = represent (classify assignee) assignee.
Proof.
  unfold assigneeField, classify.
  rewrite toLowerCase_eq_word by reflexivity.
  change (js "@") with [64%N]. change (js ":") with [58%N].
  rewrite !includes_char.
  rewrite (orb_comm (eq_ignoring_case _ _)).
  destruct (negb (nonempty assignee)
            || eq_ignoring_case assignee (js "unassign")); [reflexivity|].
  destruct (contains 64 assignee); [reflexivity|].
  destruct (contains 58 assignee || (30 <? length assignee)%nat); reflexivity.
Qed.

(** C10.  The assignee string is classified by first match: empty or
    ["unassign"] in any case, clear the assignee; else containing ["@"],
    e-mail form; else containing [":"] or longer than 30, account
    identifier; otherwise display name.  The handler makes one edit call,
    whose [fields] is exactly that representation.  The four examples
    follow, the last conjunct showing the call made for ["a@b.com"]. *)
Theorem assignee_classification :
  (forall assignee,
      assigneeField assignee = represent (classify assignee) assignee)
  /\ (forall args assignee w s,
         opt_get args "assignee" = VStr assignee ->
         assignJiraIssueWithAnalysis args w s
         = (cloudId <- resolveCloudId args ;;
            res <- callJiraTool (js "editJiraIssue")
                     (VObj [ (js "cloudId", cloudId);
                             (js "issueIdOrKey", opt_get args "issueIdOrKey");
                             (js "fields",
                              represent (classify assignee) assignee) ]) ;;
            ret (mcp_text w
                   (VObj [ (js "success", VBool true);
                           (js "message",
                            VStr (js "Issue "
                                    ++ toStr w (opt_get args "issueIdOrKey")
                                    ++ js " assigned successfully"));
                           (js "data", res) ]))) w s)
  /\ classify (js "a@b.com") = EmailForm
  /\ classify (js "5b10ac8d82e05b22cc7d4ef5abcdef01") = AccountIdForm
  /\ classify (js "unassign") = ClearAssignee
  /\ classify (js "UnAssign") = ClearAssignee
  /\ classify [] = ClearAssignee
  /\ classify (js "john") = NameForm
  /\ snd (run (callTool (js "assignJiraIssueWithAnalysis")
                 (assign_args "a@b.com")) cloud_world)
     = [ Connect;
         ToolsCall (js "editJiraIssue")
           (VObj [ (js "cloudId", str "c-1"); (js "issueIdOrKey", str "OPS-1");
                   (js "fields",
                    VObj [(js "assignee",
                           VObj [(js "emailAddress", str "a@b.com")])]) ]) ].
Proof.
  split; [exact assigneeField_classified|].
  split.
  { intros args assignee w s H. unfold assignJiraIssueWithAnalysis.
    rewrite H, assigneeField_classified. reflexivity. }
  repeat split; vm_compute; reflexivity.
Qed.

(** ** C9: validation comes before any call, after the cloud identifier *)

Lemma resolveCloudId_pure (args : value) (w : World) (s : State) :
  resolveCloudId args w s = (cloud_id w args, s).
Proof.
  unfold resolveCloudId, cloud_id. rewrite bind_world.
  destruct (truthy (opt_get args "cloudId")); [reflexivity|].
  unfold bind, lift, ret. destruct (getCloudId w); reflexivity.
Qed.

Lemma require_run (x : value) (message : string) (w : World) (s : State) :
  require x message w s
  = (match missing x with
     | Ok true => Throw (Error (js message))
     | Ok false => Ok tt
     | Throw e => Throw e
     end, s).
Proof.
  unfold require, bind, lift, throw, ret.
  destruct (missing x) as [[|]|e]; reflexivity.
Qed.

(** C9, as amended.  When [projectKey], [issueTypeName] or [summary] is
    missing or blank after trimming, [createJiraIssueWithBranch] fails
    without any effect: no connection, no tool call, no HTTPS request.  It
    fails with the validation error that names the first such argument when
    the call has a cloud identifier (the [cloudId] argument, or the one
    [getCloudId] finds), and with the error of [getCloudId] otherwise. *)
Theorem validation_before_any_call
  (w : World) (s : State) (args : value) (field : string) :
  first_blank args = Some field ->
  createJiraIssueWithBranch args w s
  = (Throw (match cloud_id w args with
            | Ok _ => validation_error field
            | Throw e => e
            end), s).
Proof.
  unfold first_blank, createJiraIssueWithBranch. intros H.
  rewrite bind_world. unfold bind at 1. rewrite resolveCloudId_pure.
  destruct (cloud_id w args) as [cid|e]; [|reflexivity].
  unfold bind at 1. rewrite require_run.
  destruct (missing (opt_get args "projectKey")) as [[|]|]; try discriminate.
  { injection H as <-. vm_compute. reflexivity. }
  unfold bind at 1. rewrite require_run.
  destruct (missing (opt_get args "issueTypeName")) as [[|]|];
    try discriminate.
  { injection H as <-. vm_compute. reflexivity. }
  unfold bind at 1. rewrite require_run.
  destruct (missing (opt_get args "summary")) as [[|]|]; try discriminate.
  injection H as <-. vm_compute. reflexivity.
Qed.

Lemma validation_before_any_call_witness :
  first_blank blank_type_args = Some "issueTypeName"%string
  /\ createJiraIssueWithBranch blank_type_args cloud_world initial
     = (Throw (match cloud_id cloud_world blank_type_args with
               | Ok _ => validation_error "issueTypeName"
               | Throw e => e
               end), initial).
Proof.
  split; [reflexivity|].
  exact (validation_before_any_call cloud_world initial blank_type_args
           "issueTypeName" eq_refl).
Defined.

(** C9 as stated fails when the call has no cloud identifier: the
    identifier is looked up first, so a call with nothing but blank
    arguments fails with the configuration error, which names no argument. *)
Lemma validation_after_cloud_id :
  first_blank (VObj []) = Some "projectKey"%string
  /\ run (callTool (js "createJiraIssueWithBranch") (VObj [])) offline
     = (Throw (Error cloud_id_not_set), []).
Proof. split; vm_compute; reflexivity. Qed.

(** ** C1: the authentication of a Data Center call *)

Lemma unset_blank (x : option jsstring) : is_set x = false -> blank x = true.
Proof. destruct x as [[|c s]|]; [reflexivity|discriminate|reflexivity]. Qed.

Lemma not_blank_set (x : option jsstring) : blank x = false -> is_set x = true.
Proof. destruct x as [[|c s]|]; [discriminate|reflexivity|discriminate]. Qed.

Lemma env_or_set (a b : option jsstring) :
  is_set (env_or a b) = is_set a || is_set b.
Proof. unfold env_or. destruct (is_set a) eqn:E; [exact E|reflexivity]. Qed.

(** What a call of the direct adapter does: it fails on the tests of the
    credentials, or on the base URL, without sending anything; otherwise it
    sends one request, and makes its result of the answer. *)
Lemma callJiraDataCenterAPI_run
  (w : World) (s : State) (endpoint method : jsstring) (body : option value) :
  getJiraType w = datacenter ->
  callJiraDataCenterAPI endpoint method body w s
  = match authHeader (env w) with
    | Throw e => (Throw e, s)
    | Ok authorization =>
        match URL_parse w (get_or (JIRA_BASE_URL (env w)) []) with
        | None => (Throw TypeError, s)
        | Some url =>
            let request :=
              jira_request w url authorization endpoint method body in
            (outcome_of (https_reply w (length (trace s)) request),
             log s (Https request))
        end
    end.
Proof.
  unfold getJiraType. intros DC.
  destruct (blank (JIRA_BASE_URL (env w))) eqn:B; [discriminate|]. clear DC.
  unfold callJiraDataCenterAPI, authHeader. rewrite bind_world, B. cbv zeta.
  set (pat := JIRA_PERSONAL_ACCESS_TOKEN (env w)).
  set (api := JIRA_API_TOKEN (env w)).
  set (user := JIRA_USERNAME (env w)).
  set (mail := JIRA_EMAIL (env w)).
  assert (Send : forall options,
             (response <- httpsRequest options ;;
              if negb (nonempty response) || negb (nonempty (trim response))
              then ret (VObj [])
              else match Json.parse response with
                   | Some v => ret v
                   | None => ret (VObj [])
                   end) w s
             = (outcome_of (https_reply w (length (trace s)) options),
                log s (Https options))).
  { intros options. unfold bind, httpsRequest, outcome_of, response_value.
    destruct (https_reply w _ options) as [code response|r|code received];
      try reflexivity.
    destruct ((200 <=? code) && (code <? 300))%N; [|reflexivity].
    destruct (negb (nonempty response) || negb (nonempty (trim response)));
      [reflexivity|].
    destruct (Json.parse response); reflexivity. }
  destruct (blank (env_or api pat)) eqn:BT; [reflexivity|].
  pose proof (not_blank_set _ BT) as ST. rewrite ST, andb_true_r.
  destruct (negb (is_set pat && negb (is_set api))
            && blank (env_or user mail)) eqn:BU; [reflexivity|].
  destruct (is_set pat && negb (is_set api)) eqn:PAT; cbn [negb andb] in *.
  - destruct (URL_parse w _) as [url|]; [|reflexivity].
    unfold bind at 1. cbn [ret]. rewrite Send. unfold jira_request.
    destruct (endsWith _ _); reflexivity.
  - apply not_blank_set in BU.
    assert (SU : is_set (env_or mail (env_or user (env_or user mail))) = true).
    { rewrite !env_or_set in *. destruct (is_set user), (is_set mail); auto. }
    rewrite SU. cbn [andb].
    destruct (URL_parse w _) as [url|]; [|reflexivity].
    unfold bind at 1. cbn [ret]. rewrite Send. unfold jira_request.
    destruct (endsWith _ _); reflexivity.
Qed.

Lemma tidy_variable (x : option jsstring) :
  Bool.eqb (is_set x) (configured x) = true ->
  (is_set x = true /\ blank x = false) \/ (is_set x = false /\ blank x = true).
Proof.
  unfold configured. destruct (is_set x), (blank x); simpl; auto; discriminate.
Qed.

(** Without a variable set to white space only, the header of the code is
    that of the scheme that the words of the specification resolve. *)
Lemma authHeader_resolveAuth (e : Env) :
  no_blank_variable e = true ->
  match resolveAuth e with
  | Some scheme => authHeader e = Ok (authorization scheme)
  | None => exists message, authHeader e = Throw (Error message)
  end.
Proof.
  unfold no_blank_variable. cbn [forallb]. intros H.
  apply andb_prop in H as [Hp H]. apply andb_prop in H as [Ha H].
  apply andb_prop in H as [Hu H]. apply andb_prop in H as [Hm _].
  apply tidy_variable in Hp, Ha, Hu, Hm.
  unfold resolveAuth, authHeader, configured, credential, env_or.
  destruct Hp as [[Sp Bp]|[Sp Bp]], Ha as [[Sa Ba]|[Sa Ba]],
    Hu as [[Su Bu]|[Su Bu]], Hm as [[Sm Bm]|[Sm Bm]];
    rewrite ?Sp, ?Sa, ?Su, ?Sm, ?Bp, ?Ba, ?Bu, ?Bm; cbn [negb andb orb];
    rewrite ?Sp, ?Sa, ?Su, ?Sm, ?Bp, ?Ba, ?Bu, ?Bm; cbn [negb andb orb];
    rewrite ?Sp, ?Sa, ?Su, ?Sm, ?Bp, ?Ba, ?Bu, ?Bm; cbn [negb andb orb];
    solve [reflexivity | eexists; reflexivity].
Qed.

(** C1.  In Data Center mode, under a configuration in which no
    credential is set to white space only, every call of the direct adapter
    does what the specification says: a personal access token configured
    and no legacy token: the one request sent has the headers
    [Authorization: Bearer <token>], [Content-Type] and [Accept]; else a
    legacy token and a user name or e-mail address both configured:
    [Authorization: Basic base64(username:token)]; otherwise the call fails
    with an error of the server and nothing is sent.  (Nothing is sent
    either when the base URL is no URL.)  The examples are the three cases.
    But the tests of the source read the variables in two ways, and with a
    variable set to white space only the server parts from the
    specification: with the user name [bob] and [JIRA_EMAIL] set to one
    space it sends [Basic base64(":t0k")], an empty user name, where the
    specification has [base64("bob:t0k")]; with a personal access token and
    [JIRA_API_TOKEN] set to one space it fails, where the specification has
    [Bearer pat]. *)
Theorem auth_resolution :
  (forall w s endpoint method body,
      getJiraType w = datacenter ->
      no_blank_variable (env w) = true ->
      match resolveAuth (env w) with
      | None =>
          exists message,
            callJiraDataCenterAPI endpoint method body w s
            = (Throw (Error message), s)
      | Some scheme =>
          match URL_parse w (get_or (JIRA_BASE_URL (env w)) []) with
          | None =>
              callJiraDataCenterAPI endpoint method body w s
              = (Throw TypeError, s)
          | Some url =>
              exists request r,
                callJiraDataCenterAPI endpoint method body w s
                = (r, log s (Https request))
                /\ req_hostname request = hostname url
                /\ req_method request = method
                /\ req_headers request
                   = [ (js "Authorization", authorization scheme);
                       (js "Content-Type", js "application/json");
                       (js "Accept", js "application/json") ]
          end
      end)
  /\ run (callJiraDataCenterAPI (js "issue/OPS-1") GET None)
       (dc_world (Response 200 (jsq "{'key':'OPS-1'}")))
     = (Ok (VObj [(js "key", str "OPS-1")]),
        [Https {| req_hostname := js "jira.example.com";
                  req_port := VNum 443 0;
                  req_path := js "/rest/api/2/issue/OPS-1";
                  req_method := js "GET";
                  req_headers :=
                    [ (js "Authorization", js "Bearer secret");
                      (js "Content-Type", js "application/json");
                      (js "Accept", js "application/json") ];
                  req_data := None |}])
  /\ run (callJiraDataCenterAPI (js "issue/OPS-1") GET None)
       (dc_world_legacy (Response 204 []))
     = (Ok (VObj []),
        [Https {| req_hostname := js "jira.example.com";
                  req_port := VNum 443 0;
                  req_path := js "/rest/api/2/issue/OPS-1";
                  req_method := js "GET";
                  req_headers :=
                    [ (js "Authorization", js "Basic dXNlcjpwYXNz");
                      (js "Content-Type", js "application/json");
                      (js "Accept", js "application/json") ];
                  req_data := None |}])
  /\ run (callJiraDataCenterAPI (js "issue/OPS-1") GET None)
       (example_world (dc_env None (Some (js "pass")) None)
          (Response 200 []) (Throw TypeError))
     = (Throw (Error username_required), [])
  /\ no_blank_variable (env blank_email_world) = false
  /\ resolveAuth (env blank_email_world)
     = Some (Basic (js "bob") (js "t0k"))
  /\ authorization (Basic (js "bob") (js "t0k")) = js "Basic Ym9iOnQwaw=="
  /\ run (callJiraDataCenterAPI (js "issue/OPS-1") GET None)
       blank_email_world
     = (Ok (VObj []),
        [Https {| req_hostname := js "jira.example.com";
                  req_port := VNum 443 0;
                  req_path := js "/rest/api/2/issue/OPS-1";
                  req_method := js "GET";
                  req_headers :=
                    [ (js "Authorization", js "Basic OnQwaw==");
                      (js "Content-Type", js "application/json");
                      (js "Accept", js "application/json") ];
                  req_data := None |}])
  /\ no_blank_variable (env blank_legacy_world) = false
  /\ resolveAuth (env blank_legacy_world) = Some (Bearer (js "pat"))
  /\ run (callJiraDataCenterAPI (js "issue/OPS-1") GET None)
       blank_legacy_world
     = (Throw (Error token_required), []).
Proof.
  split; [|repeat split; vm_compute; reflexivity].
  intros w s endpoint method body DC Tidy.
  rewrite (callJiraDataCenterAPI_run w s endpoint method body DC).
  pose proof (authHeader_resolveAuth (env w) Tidy) as H.
  destruct (resolveAuth (env w)) as [scheme|].
  - rewrite H. destruct (URL_parse w _) as [url|]; [|reflexivity].
    eexists. eexists. split; [reflexivity|]. repeat split.
  - destruct H as [message ->]. now exists message.
Qed.

(** ** C7 and C8: the transition to review *)

(** On well-formed transitions, [find] gives the first one whose name or
    whose target status names a review. *)
Lemma find_transition_first (transitions : list value) :
  forallb transition_ok transitions = true ->
  find_transition transitions = Ok (find is_review transitions).
Proof.
  induction transitions as [|t rest IH]; [reflexivity|].
  cbn [forallb find_transition find]. intros H.
  apply andb_prop in H as [Ht Hr]. rewrite (IH Hr).
  unfold transition_ok in Ht. destruct t; try discriminate.
  apply andb_prop in Ht as [Hn Hto].
  unfold is_review_transition, is_review. cbn [get].
  destruct (opt_get (VObj props) "name"); try discriminate;
    destruct (opt_get (opt_get (VObj props) "to") "name"); try discriminate;
    cbn [mentions_review names_review orb];
    repeat match goal with
           | |- context [includes ?p ?x] => destruct (includes p x)
           end; reflexivity.
Qed.

Lemma datacenter_cloud_id (w : World) (args : value) :
  getJiraType w = datacenter -> exists id, cloud_id w args = Ok id.
Proof.
  intros DC. unfold cloud_id, getCloudId. rewrite DC.
  destruct (truthy (opt_get args "cloudId")); [eauto|].
  unfold getJiraType in DC.
  destruct (JIRA_BASE_URL (env w)) as [[|c b]|]; try discriminate. eauto.
Qed.

Lemma getTransitions_in_datacenter (w : World) (s : State) (args : value) :
  getJiraType w = datacenter ->
  callJiraTool (js "getTransitionsForJiraIssue") args w s
  = (result <- callJiraDataCenterAPI
                 ((js "issue/" ++ toStr w (opt_get args "issueIdOrKey"))
                    ++ js "/transitions") GET None ;;
     ret (mcp_text w result)) w s.
Proof.
  intros DC. unfold callJiraTool. rewrite bind_world, DC. reflexivity.
Qed.

(** The envelope has no [transitions]. *)
Lemma envelope_has_no_transitions (w : World) (result : value) :
  opt_get (mcp_text w result) "transitions" = VUndef.
Proof. reflexivity. Qed.



(** C7 at the input where the server parts from it.  In Data Center mode,
    the tracker reporting the transitions "Done" (1) and "In Review" (2),
    the handler sends the lookup and fails with the "No 'In Review'
    transition found" error: it selects nothing and executes nothing.  The
    second conjunct is the behaviour C7 describes, on a result that has the
    same transitions at its top: the lookup, then the transition 2. *)
Theorem review_transition_lost_in_datacenter :
  run (callTool (js "transitionJiraIssueToReview") review_args)
    (dc_world (Response 200 transitions_json))
  = (Throw no_review_transition,
     [Https {| req_hostname := js "jira.example.com";
               req_port := VNum 443 0;
               req_path := js "/rest/api/2/issue/OPS-1/transitions";
               req_method := js "GET";
               req_headers := api_headers (js "Bearer secret");
               req_data := None |}])
  /\ response_value transitions_json
     = VObj [(js "transitions", VArr example_transitions)]
  /\ snd (run (callTool (js "transitionJiraIssueToReview") review_args)
            cloud_world_with_transitions)
     = [ Connect;
         ToolsCall (js "getTransitionsForJiraIssue")
           (VObj [ (js "cloudId", str "c-1");
                   (js "issueIdOrKey", str "OPS-1") ]);
         ToolsCall (js "transitionJiraIssue")
           (VObj [ (js "cloudId", str "c-1");
                   (js "issueIdOrKey", str "OPS-1");
                   (js "transition", VObj [(js "id", VNum 2 0)]) ]) ].
Proof. repeat split; vm_compute; reflexivity. Qed.

(** The selection itself, on the transitions of the example. *)
Lemma find_transition_example :
  find_transition example_transitions
  = Ok (Some (VObj [(js "id", VNum 2 0); (js "name", str "In Review")])).
Proof. vm_compute; reflexivity. Qed.

(** ** Instances of the general statements *)

Lemma sanitizeBranchName_token_witness :
  existsb is_ascii_alnum (js "Fix: login bug!") = true
  /\ sanitizeBranchName (js "Fix: login bug!") = js "fix-login-bug"
  /\ matches_branch_re (sanitizeBranchName (js "Fix: login bug!")) = true
  /\ Translit.sanitizeBranchName (js "Баг 123") = js "bah-123"
  /\ matches_branch_re (Translit.sanitizeBranchName (js "Баг 123")) = true.
Proof.
  split; [reflexivity|]. split; [reflexivity|].
  destruct (sanitizeBranchName_token (js "Fix: login bug!"))
    as [[_ [_ [_ [_ [H1 [H2 _]]]]]] _].
  destruct (sanitizeBranchName_token (js "Баг 123"))
    as [_ [_ [_ [_ [_ [H3 [H4 _]]]]]]].
  split; [|split; [reflexivity|]].
  - apply H2; [apply H1; reflexivity|].
    intros pre E. apply (f_equal (@rev N)) in E.
    rewrite rev_app_distr in E. vm_compute in E. discriminate E.
  - apply H4; [apply H3; reflexivity|].
    intros pre E. apply (f_equal (@rev N)) in E.
    rewrite rev_app_distr in E. vm_compute in E. discriminate E.
Defined.

Lemma assignee_classification_witness :
  opt_get (assign_args "john") "assignee" = str "john"
  /\ fst (assignJiraIssueWithAnalysis (assign_args "john") cloud_world initial)
     = fst ((cloudId <- resolveCloudId (assign_args "john") ;;
             res <- callJiraTool (js "editJiraIssue")
                      (VObj [ (js "cloudId", cloudId);
                              (js "issueIdOrKey", str "OPS-1");
                              (js "fields",
                               represent (classify (js "john"))
                                 (js "john")) ]) ;;
             ret (mcp_text cloud_world
                    (VObj [ (js "success", VBool true);
                            (js "message",
                             VStr (js "Issue OPS-1 assigned successfully"));
                            (js "data", res) ]))) cloud_world initial).
Proof.
  split; [reflexivity|].
  pose proof (f_equal fst
                (proj1 (proj2 assignee_classification) (assign_args "john")
                   (js "john") cloud_world initial eq_refl)) as H.
  vm_compute in H. vm_compute. exact H.
Defined.

(* ================================================================= *)
(** * Further properties of the server *)

(** ** The events of a computation *)

Lemma emits_refl (Q : event -> Prop) (s : State) : emits Q s s.
Proof. exists []. split; [now rewrite app_nil_r|constructor]. Qed.

Lemma emits_trans (Q : event -> Prop) (s1 s2 s3 : State) :
  emits Q s1 s2 -> emits Q s2 s3 -> emits Q s1 s3.
Proof.
  intros [e1 [E1 F1]] [e2 [E2 F2]]. exists (e1 ++ e2). split.
  - now rewrite E2, E1, app_assoc.
  - apply Forall_app. auto.
Qed.

Lemma emits_weaken (Q Q' : event -> Prop) (s s' : State) :
  (forall ev, Q ev -> Q' ev) -> emits Q s s' -> emits Q' s s'.
Proof.
  intros H [evs [E F]]. exists evs. split; [exact E|].
  eapply Forall_impl; eauto.
Qed.

Lemma emits_log (Q : event -> Prop) (s : State) (ev : event) :
  Q ev -> emits Q s (log s ev).
Proof. intros H. exists [ev]. split; [reflexivity|]. now constructor. Qed.

Lemma emits_nothing (s s' : State) : emits nothing s s' -> trace s' = trace s.
Proof.
  intros [[|ev evs] [E F]]; [now rewrite E, app_nil_r|].
  inversion F; subst. contradiction.
Qed.

Section Only.

Context (Q : event -> Prop) (w : World).

Lemma only_ret {A} (a : A) : only Q w (ret a).
Proof. intros s. apply emits_refl. Qed.

Lemma only_throw {A} (e : exn) : only Q w (@throw A e).
Proof. intros s. apply emits_refl. Qed.

Lemma only_lift {A} (r : result A) : only Q w (lift r).
Proof. intros s. apply emits_refl. Qed.

Lemma only_bind {A B} (m : M A) (k : A -> M B) :
  only Q w m -> (forall a, only Q w (k a)) -> only Q w (bind m k).
Proof.
  intros Hm Hk s. unfold bind. specialize (Hm s).
  destruct (m w s) as [[a|e] s']; simpl in *; [|exact Hm].
  eapply emits_trans; [exact Hm|apply Hk].
Qed.

Lemma only_try_catch {A} (m : M A) (h : exn -> M A) :
  only Q w m -> (forall e, only Q w (h e)) -> only Q w (try_catch m h).
Proof.
  intros Hm Hh s. unfold try_catch. specialize (Hm s).
  destruct (m w s) as [[a|e] s']; simpl in *; [exact Hm|].
  destruct e; try exact Hm; (eapply emits_trans; [exact Hm|apply Hh]).
Qed.

(** [w <- world ;; k w] runs [k] on the world it is run in. *)
Lemma only_world {A} (k : World -> M A) :
  only Q w (k w) -> only Q w (bind world k).
Proof. intros H s. rewrite bind_world. apply H. Qed.

Lemma only_if {A} (b : bool) (m1 m2 : M A) :
  only Q w m1 -> only Q w m2 -> only Q w (if b then m1 else m2).
Proof. destruct b; auto. Qed.

End Only.

Lemma only_weaken {A} (Q Q' : event -> Prop) (w : World) (m : M A) :
  (forall ev, Q ev -> Q' ev) -> only Q w m -> only Q' w m.
Proof. intros H Hm s. eapply emits_weaken; eauto. Qed.

Section OnlyQuiet.

Context (Q : event -> Prop) (w : World).

Lemma quiet_ret {A} (a : A) : only_quiet Q w (ret a).
Proof. intros s. split; [apply emits_refl|reflexivity]. Qed.

Lemma quiet_throw {A} (e : exn) : only_quiet Q w (@throw A e).
Proof. intros s. split; [apply emits_refl|reflexivity]. Qed.

Lemma quiet_lift {A} (r : result A) : only_quiet Q w (lift r).
Proof. intros s. split; [apply emits_refl|reflexivity]. Qed.

Lemma quiet_bind {A B} (m : M A) (k : A -> M B) :
  only_quiet Q w m -> (forall a, only_quiet Q w (k a)) ->
  only_quiet Q w (bind m k).
Proof.
  intros Hm Hk s. unfold bind. specialize (Hm s).
  destruct (m w s) as [[a|e] s']; simpl in *; [|exact Hm].
  destruct Hm as [Hm Hc]. destruct (Hk a s') as [Hk1 Hk2].
  split; [eapply emits_trans; eauto|congruence].
Qed.

Lemma quiet_try_catch {A} (m : M A) (h : exn -> M A) :
  only_quiet Q w m -> (forall e, only_quiet Q w (h e)) ->
  only_quiet Q w (try_catch m h).
Proof.
  intros Hm Hh s. unfold try_catch. specialize (Hm s).
  destruct (m w s) as [[a|e] s']; simpl in *; [exact Hm|].
  destruct Hm as [Hm Hc]. destruct (Hh e s') as [Hh1 Hh2].
  destruct e; try (split; [exact Hm|exact Hc]);
    (split; [eapply emits_trans; eauto|congruence]).
Qed.

Lemma quiet_world {A} (k : World -> M A) :
  only_quiet Q w (k w) -> only_quiet Q w (bind world k).
Proof. intros H s. rewrite bind_world. apply H. Qed.

Lemma quiet_only {A} (m : M A) : only_quiet Q w m -> only Q w m.
Proof. intros H s. apply H. Qed.

End OnlyQuiet.

Lemma quiet_weaken {A} (Q Q' : event -> Prop) (w : World) (m : M A) :
  (forall ev, Q ev -> Q' ev) -> only_quiet Q w m -> only_quiet Q' w m.
Proof.
  intros H Hm s. destruct (Hm s). split; [eapply emits_weaken; eauto|auto].
Qed.

Create HintDb effects.

Ltac effects :=
  repeat first
    [ solve [auto with effects]
    | match goal with
      | |- only_quiet _ _ (ret _) => apply quiet_ret
      | |- only_quiet _ _ (throw _) => apply quiet_throw
      | |- only_quiet _ _ (lift _) => apply quiet_lift
      | |- only_quiet _ _ (bind world _) => apply quiet_world
      | |- only_quiet _ _ (bind _ _) => apply quiet_bind; [|intros ?]
      | |- only_quiet _ _ (try_catch _ _) =>
          apply quiet_try_catch; [|intros ?]
      | |- only_quiet _ _ (if ?b then _ else _) => destruct b
      | |- only_quiet _ _ (match ?x with _ => _ end) => destruct x
      | |- only _ _ (ret _) => apply only_ret
      | |- only _ _ (throw _) => apply only_throw
      | |- only _ _ (lift _) => apply only_lift
      | |- only _ _ (bind world _) => apply only_world
      | |- only _ _ (bind _ _) => apply only_bind; [|intros ?]
      | |- only _ _ (try_catch _ _) => apply only_try_catch; [|intros ?]
      | |- only _ _ (if ?b then _ else _) => destruct b
      | |- only _ _ (match ?x with _ => _ end) => destruct x
      end ].

(** ** The events of the branch automation *)

Lemma quiet_execAsync (w : World) (command : jsstring) :
  only_quiet (git_event w) w (execAsync command (cwd w)).
Proof.
  intros s. split; [|reflexivity]. apply emits_log. now exists command.
Qed.
#[local] Hint Resolve quiet_execAsync : effects.

Lemma quiet_attempt (w : World) (command : jsstring) :
  only_quiet (git_event w) w (attempt command (cwd w)).
Proof. unfold attempt. effects. Qed.
#[local] Hint Resolve quiet_attempt : effects.

Lemma quiet_branchExists (w : World) (branchName : jsstring) :
  only_quiet (git_event w) w (branchExists branchName (cwd w)).
Proof. unfold branchExists. effects. Qed.
#[local] Hint Resolve quiet_branchExists : effects.

Lemma quiet_createGitLabBranch (w : World) (issueKey customBranchName : value) :
  only_quiet (git_event w) w (createGitLabBranch issueKey customBranchName).
Proof. unfold createGitLabBranch. effects. Qed.
#[local] Hint Resolve quiet_createGitLabBranch : effects.

Lemma httpsRequest_state_eq (options : HttpRequest) (w : World) (s : State) :
  snd (httpsRequest options w s) = log s (Https options).
Proof.
  unfold httpsRequest. destruct (https_reply w _ options) as [code body|r|c b];
    [destruct ((200 <=? code) && (code <? 300))%N| |]; reflexivity.
Qed.

Lemma quiet_httpsRequest
  (Q : event -> Prop) (w : World) (options : HttpRequest) :
  Q (Https options) -> only_quiet Q w (httpsRequest options).
Proof.
  intros H s. rewrite httpsRequest_state_eq.
  split; [now apply emits_log|reflexivity].
Qed.

Lemma github_request (w : World) (t0 : N) (t1 : jsstring)
  (path method : jsstring) (extra : list (jsstring * jsstring))
  (data : option jsstring) :
  GITHUB_TOKEN (env w) = Some (t0 :: t1) ->
  github_event w
    (Https {| req_hostname := js "api.github.com"; req_port := VUndef;
              req_path := path; req_method := method;
              req_headers := github_headers (t0 :: t1) ++ extra;
              req_data := data |}).
Proof.
  intros E. eexists. split; [reflexivity|]. split; [reflexivity|].
  rewrite E. reflexivity.
Qed.

Lemma quiet_getDefaultBranchSha
  (w : World) (t0 : N) (t1 : jsstring) (repo branch : jsstring) :
  GITHUB_TOKEN (env w) = Some (t0 :: t1) ->
  only_quiet (github_event w) w (getDefaultBranchSha repo branch (t0 :: t1)).
Proof.
  intros E. unfold getDefaultBranchSha.
  destruct (negb (nonempty (nth 0 (split 47 repo) []))
            || negb (nonempty (nth 1 (split 47 repo) []))); effects.
  apply quiet_httpsRequest.
  rewrite <- (app_nil_r (github_headers (t0 :: t1))).
  now apply github_request.
Qed.

Lemma quiet_createGitHubBranch (w : World) (issueKey customBranchName : value) :
  only_quiet (github_event w) w (createGitHubBranch issueKey customBranchName).
Proof.
  unfold createGitHubBranch. apply quiet_world.
  destruct (GITHUB_TOKEN (env w)) as [[|t0 t1]|] eqn:E; effects.
  - now apply quiet_getDefaultBranchSha.
  - apply quiet_httpsRequest. now apply github_request.
Qed.
#[local] Hint Resolve quiet_createGitHubBranch : effects.

(** ** [handleCreateResponse] *)

(** X1.  [handleCreateResponse] raises no exception whatever the response
    is, even one that is no tool result, and it leaves the client variable
    alone.  It has a key: unless that key is truthy, it returns it and does
    nothing at all; and it returns it whenever every command exits and every
    response is received to its end. *)
Theorem handleCreateResponse_never_throws
  (w : World) (s : State) (res branchNameInput : value) :
  exists v s',
    (handleCreateResponse res branchNameInput w s = (Ok v, s')
     \/ handleCreateResponse res branchNameInput w s = (Throw Unsettled, s'))
    /\ jiraClient s' = jiraClient s
    /\ (truthy v = false ->
        handleCreateResponse res branchNameInput w s = (Ok v, s))
    /\ (commands_exit w -> responses_end w ->
        handleCreateResponse res branchNameInput w s = (Ok v, s')).
Proof.
  destruct (handleCreateResponse_run w s res branchNameInput)
    as [v [_ [E|[T E]]]]; rewrite E.
  - exists v, s. auto.
  - exists v. eexists. split; [|split; [|split]].
    + destruct (unsettled _); [right|left]; reflexivity.
    + unfold makeBranch. rewrite bind_world. destruct (existsSync w _).
      * apply quiet_createGitLabBranch.
      * destruct (_ && _); [apply quiet_createGitHubBranch|reflexivity].
    + congruence.
    + intros He Hr.
      now rewrite (settles_makeBranch w v branchNameInput He Hr s).
Qed.

(** X2.  Where the branch is made: in a git working copy, [handleCreateResponse]
    only runs git commands there, and sends nothing to GitHub even when
    GitHub is configured; elsewhere it only sends requests to
    [api.github.com], under the configured token; and with neither a working
    copy nor the GitHub token and repository, it does nothing. *)
Theorem handleCreateResponse_branch_location
  (w : World) (s : State) (res branchNameInput : value) :
  let s' := snd (handleCreateResponse res branchNameInput w s) in
  if existsSync w (path_join (cwd w) (js ".git"))
  then emits (git_event w) s s'
  else if is_set (GITHUB_TOKEN (env w)) && is_set (GITHUB_REPO (env w))
  then emits (github_event w) s s'
  else s' = s.
Proof.
  destruct (handleCreateResponse_run w s res branchNameInput)
    as [v [_ [E|[T E]]]]; rewrite E; cbn [snd].
  - destruct (existsSync w _); [apply emits_refl|].
    destruct (_ && _); [apply emits_refl|reflexivity].
  - unfold makeBranch. rewrite bind_world.
    destruct (existsSync w _); [apply quiet_createGitLabBranch|].
    destruct (_ && _); [apply quiet_createGitHubBranch|reflexivity].
Qed.

(** ** The requests of [createGitHubBranch] *)

Lemma trace_log (s : State) (ev : event) : trace (log s ev) = trace s ++ [ev].
Proof. reflexivity. Qed.

Lemma length_log (s : State) (ev : event) :
  length (trace (log s ev)) = S (length (trace s)).
Proof. rewrite trace_log, length_app. simpl. lia. Qed.

Lemma snd_swallow {A} (m : M A) (h : A) (w : World) (s : State) :
  snd (try_catch m (fun _ => ret h) w s) = snd (m w s).
Proof.
  unfold try_catch, ret. destruct (m w s) as [[a|[]] s']; reflexivity.
Qed.

Lemma snd_seq_ret {A B} (m : M A) (b : B) (w : World) (s : State) :
  snd ((m ;;; ret b) w s) = snd (m w s).
Proof. unfold bind, ret. destruct (m w s) as [[a|e] s']; reflexivity. Qed.

(** X3.  [createGitHubBranch] sends nothing, or one [GET], or one [GET] and then
    one [POST]; the [POST] is only sent after the [GET] was answered with a
    status from 200 to 299, and it asks for the reference
    [refs/heads/<name>] of the name chosen for the branch. *)
Theorem createGitHubBranch_requests
  (w : World) (s : State) (issueKey customBranchName : value) :
  exists events,
    trace (snd (createGitHubBranch issueKey customBranchName w s))
    = trace s ++ events
    /\ (events = []
        \/ (exists g, events = [Https g] /\ req_method g = js "GET")
        \/ (exists g p code body branchName,
              events = [Https g; Https p]
              /\ req_method g = js "GET" /\ req_method p = js "POST"
              /\ https_reply w (length (trace s)) g = Response code body
              /\ (200 <= code < 300)%N
              /\ chooseBranchName issueKey customBranchName = Ok branchName
              /\ exists sha,
                   req_data p
                   = Some (JSON_stringify w
                             (VObj [ (js "ref",
                                      VStr (js "refs/heads/" ++ branchName));
                                     (js "sha", sha) ])))).
Proof.
  unfold createGitHubBranch. rewrite bind_world.
  destruct (GITHUB_TOKEN (env w)) as [[|t0 t1]|];
    try (exists []; rewrite app_nil_r; now auto).
  destruct (GITHUB_REPO (env w)) as [[|r0 r1]|];
    try (exists []; rewrite app_nil_r; now auto).
  destruct (parseGitHubRepo w (r0 :: r1)) as [[owner repoName]|];
    try (exists []; rewrite app_nil_r; now auto).
  rewrite snd_swallow. unfold bind at 1, lift.
  destruct (chooseBranchName issueKey customBranchName) as [branchName|e];
    [|exists []; rewrite app_nil_r; now auto].
  unfold bind at 1, getDefaultBranchSha.
  destruct (negb _ || negb _); [exists []; rewrite app_nil_r; now auto|].
  unfold bind at 1. unfold httpsRequest at 1.
  set (g := Build_HttpRequest _ _ _ (js "GET") _ _).
  assert (G : exists events : list event,
             trace (log s (Https g)) = trace s ++ events
             /\ (events = []
        \/ (exists g, events = [Https g] /\ req_method g = js "GET")
        \/ (exists g p code body branchName',
              events = [Https g; Https p]
              /\ req_method g = js "GET" /\ req_method p = js "POST"
              /\ https_reply w (length (trace s)) g = Response code body
              /\ (200 <= code < 300)%N
              /\ Ok branchName = Ok branchName'
              /\ exists sha,
                   req_data p
                   = Some (JSON_stringify w
                             (VObj [ (js "ref",
                                      VStr (js "refs/heads/" ++ branchName'));
                                     (js "sha", sha) ])))))
    by (exists [Https g]; split; [reflexivity|right; left; now exists g]).
  destruct (https_reply w (length (trace s)) g) as [code body|r|c b] eqn:R;
    [|exact G|exact G].
  destruct ((200 <=? code) && (code <? 300))%N eqn:C; [|exact G].
  destruct (Json.parse body) as [data|]; [|exact G].
  unfold bind at 1, lift.
  destruct (get data "object") as [object|]; [|exact G].
  destruct (get object "sha") as [sha|]; [|exact G].
  rewrite snd_seq_ret, httpsRequest_state_eq.
  eexists [Https g; Https _]. split.
  - rewrite !trace_log, <- app_assoc. reflexivity.
  - right; right. exists g. eexists. exists code, body, branchName.
    split; [reflexivity|]. repeat split; auto.
    + apply andb_prop in C as [C _]. now apply N.leb_le in C.
    + apply andb_prop in C as [_ C]. now apply N.ltb_lt in C.
    + now exists sha.
Qed.

(** ** The commands of [createGitLabBranch] *)

Lemma bind_run_ok {A B} (m : M A) (k : A -> M B) (w : World) (s s' : State)
  (a : A) :
  m w s = (Ok a, s') -> bind m k w s = k a w s'.
Proof. intros E. unfold bind. now rewrite E. Qed.

Section CommandsExit.

Context (w : World) (Hexit : commands_exit w).

Lemma execAsync_exits (n : nat) (command : jsstring) :
  exec_reply w n command <> Throw Unsettled.
Proof.
  intros E. specialize (Hexit n command). now rewrite E in Hexit.
Qed.

Lemma attempt_run (command dir : jsstring) (s : State) :
  attempt command dir w s = (Ok tt, log s (Exec command dir)).
Proof.
  unfold attempt, try_catch, bind, execAsync, ret.
  pose proof (execAsync_exits (length (trace s)) command) as H.
  destruct (exec_reply w _ command) as [out|[]]; congruence.
Qed.

Lemma branchExists_run (branchName dir : jsstring) (s : State) :
  branchExists branchName dir w s
  = (Ok match exec_reply w (length (trace s))
                (js "git branch --list " ++ branchName) with
        | Ok stdout => nonempty (trim stdout)
        | Throw _ => false
        end,
     log s (Exec (js "git branch --list " ++ branchName) dir)).
Proof.
  unfold branchExists, try_catch, bind, execAsync, ret.
  pose proof (execAsync_exits (length (trace s))
                (js "git branch --list " ++ branchName)) as H.
  destruct (exec_reply w _ _) as [out|[]]; congruence.
Qed.

Lemma checkout_or_create_run
  (command fallback dir : jsstring) (s : State) :
  try_catch (execAsync command dir ;;; ret tt) (fun _ => attempt fallback dir)
    w s
  = (Ok tt,
     if failed (exec_reply w (length (trace s)) command)
     then log (log s (Exec command dir)) (Exec fallback dir)
     else log s (Exec command dir)).
Proof.
  unfold try_catch, bind, execAsync, ret.
  pose proof (execAsync_exits (length (trace s)) command) as H.
  destruct (exec_reply w _ command) as [out|[]];
    try reflexivity; try apply attempt_run; congruence.
Qed.

End CommandsExit.

(** X4.  What [createGitLabBranch] runs.  Outside a git working copy, or when no
    branch name can be chosen, nothing.  Otherwise, in the working directory
    and in this order: the fetch, the checkout of the default branch, its
    creation if that checkout failed, the pull, the listing of the branch of
    the issue, and then the creation of that branch if the listing failed or
    was blank, its checkout if not.  No failure of a command stops the
    sequence.  (This is of a world in which every command exits: one that
    does not exit stops the sequence there.) *)
Theorem createGitLabBranch_commands
  (w : World) (s : State) (issueKey customBranchName : value) :
  commands_exit w ->
  let s' := snd (createGitLabBranch issueKey customBranchName w s) in
  if existsSync w (cwd w) && existsSync w (path_join (cwd w) (js ".git"))
  then
    match chooseBranchName issueKey customBranchName with
    | Throw _ => s' = s
    | Ok branchName =>
        let defaultBranch :=
          get_or (GITLAB_DEFAULT_BRANCH (env w))
            (get_or (GITHUB_DEFAULT_BRANCH (env w)) (js "master")) in
        let n := length (trace s) in
        let fallback :=
          failed (exec_reply w (n + 1) (js "git checkout " ++ defaultBranch)) in
        let listing :=
          exec_reply w (n + 3 + (if fallback then 1 else 0))
            (js "git branch --list " ++ branchName) in
        let create :=
          match listing with
          | Ok stdout => negb (nonempty (trim stdout))
          | Throw _ => true
          end in
        trace s'
        = trace s
          ++ map (fun command => Exec command (cwd w))
               (git_commands defaultBranch branchName fallback create)
    end
  else s' = s.
Proof.
  intros Hexit. unfold createGitLabBranch. rewrite bind_world.
  destruct (existsSync w (cwd w)); [|reflexivity].
  destruct (existsSync w (path_join _ _)); [|reflexivity].
  cbn [negb andb]. cbv zeta. rewrite snd_swallow. unfold bind at 1, lift.
  destruct (chooseBranchName issueKey customBranchName) as [branchName|e];
    [|reflexivity].
  rewrite snd_swallow.
  set (d := get_or (GITLAB_DEFAULT_BRANCH (env w)) _).
  erewrite bind_run_ok by (apply attempt_run; exact Hexit).
  erewrite bind_run_ok by (apply checkout_or_create_run; exact Hexit).
  erewrite bind_run_ok by (apply attempt_run; exact Hexit).
  erewrite bind_run_ok by (apply branchExists_run; exact Hexit).
  rewrite !length_log.
  replace (length (trace s) + 1) with (S (length (trace s))) by lia.
  match goal with
  | |- context [if ?b then log _ _ else log _ _] => destruct b eqn:F
  end;
    rewrite !length_log;
    [ replace (length (trace s) + 3 + 1)
        with (S (S (S (S (length (trace s)))))) by lia
    | replace (length (trace s) + 3 + 0)
        with (S (S (S (length (trace s))))) by lia ];
    (destruct (exec_reply w _ (js "git branch --list " ++ branchName))
       as [out|e]; [destruct (nonempty (trim out))|]);
    cbn [negb]; rewrite attempt_run by exact Hexit; cbn [snd];
    rewrite !trace_log, <- !app_assoc; reflexivity.
Qed.

Lemma createGitLabBranch_commands_witness :
  commands_exit working_copy
  /\ trace (snd (createGitLabBranch (str "OPS-7") VUndef working_copy initial))
     = [ Exec (js "git fetch origin") (js "/work");
         Exec (js "git checkout master") (js "/work");
         Exec (js "git checkout -b master") (js "/work");
         Exec (js "git pull origin master") (js "/work");
         Exec (js "git branch --list ops-7") (js "/work");
         Exec (js "git checkout -b ops-7") (js "/work") ].
Proof.
  assert (H : commands_exit working_copy) by (intros n command; reflexivity).
  split; [exact H|].
  exact (createGitLabBranch_commands working_copy initial (str "OPS-7") VUndef
           H).
Defined.

(** ** The repository of [GITHUB_REPO] *)

Lemma split_no_sep (sep : N) (s seg : jsstring) :
  In seg (split sep s) -> ~ In sep seg.
Proof.
  revert seg. induction s as [|c t IH]; intros seg; simpl.
  - intros [<-|[]] [].
  - destruct (c =? sep)%N eqn:E.
    + intros [<-|I]; [intros []|now apply IH].
    + destruct (split sep t) as [|seg0 rest] eqn:S.
      * intros [<-|[]] [->|[]]. now rewrite N.eqb_refl in E.
      * intros [<-|I].
        -- intros [->|I]; [now rewrite N.eqb_refl in E|].
           apply (IH seg0); [now left|exact I].
        -- apply IH. now right.
Qed.

Lemma split_one (sep : N) (s : jsstring) :
  ~ In sep s -> split sep s = [s].
Proof.
  induction s as [|c t IH]; intros H; simpl; [reflexivity|].
  destruct (c =? sep)%N eqn:E.
  - apply N.eqb_eq in E. subst c. destruct H. now left.
  - rewrite IH; [reflexivity|]. intros I. apply H. now right.
Qed.

Lemma split_two (sep : N) (a b : jsstring) :
  ~ In sep a -> ~ In sep b -> split sep (a ++ sep :: b) = [a; b].
Proof.
  intros Ha Hb. induction a as [|c t IH]; simpl.
  - rewrite N.eqb_refl. now rewrite split_one.
  - destruct (c =? sep)%N eqn:E.
    + apply N.eqb_eq in E. subst c. destruct Ha. now left.
    + rewrite IH; [reflexivity|]. intros I. apply Ha. now right.
Qed.

Lemma nonempty_true (s : jsstring) : nonempty s = true <-> s <> [].
Proof. destruct s; simpl; split; congruence. Qed.

Lemma parseGitHubRepo_split
  (w : World) (repo owner repoName : jsstring) :
  parseGitHubRepo w repo = Some (owner, repoName) ->
  owner <> [] /\ repoName <> []
  /\ ~ In 47%N owner /\ ~ In 47%N repoName
  /\ split 47 (owner ++ js "/" ++ repoName) = [owner; repoName].
Proof.
  unfold parseGitHubRepo. intros H.
  assert (P : exists p rest,
             filter nonempty (split 47 p) = owner :: repoName :: rest).
  { destruct (startsWith _ _ || startsWith _ _);
      [destruct (URL_parse w _) as [url|]; [|discriminate]|];
      match type of H with
      | match filter nonempty (split 47 ?p) with _ => _ end = _ =>
          exists p; destruct (filter nonempty (split 47 p)) as [|a [|b rest]];
          try discriminate; injection H as -> ->; now exists rest
      end. }
  clear H. destruct P as [p [rest P]].
  assert (Io : In owner (filter nonempty (split 47 p)))
    by (rewrite P; now left).
  assert (Ir : In repoName (filter nonempty (split 47 p)))
    by (rewrite P; right; now left).
  apply filter_In in Io as [Io No], Ir as [Ir Nr].
  apply nonempty_true in No, Nr. apply split_no_sep in Io, Ir.
  repeat split; auto. now apply split_two.
Qed.

(** X5.  The two names that [parseGitHubRepo] gives are not empty and hold no
    slash, whatever [GITHUB_REPO] is and whatever [new URL] makes of it; so
    joined by a slash they split into themselves again. *)
Theorem parseGitHubRepo_names
  (w : World) (repo owner repoName : jsstring) :
  parseGitHubRepo w repo = Some (owner, repoName) ->
  owner <> [] /\ repoName <> []
  /\ ~ In 47%N owner /\ ~ In 47%N repoName
  /\ split 47 (owner ++ js "/" ++ repoName) = [owner; repoName].
Proof. apply parseGitHubRepo_split. Qed.

Lemma parseGitHubRepo_names_witness :
  parseGitHubRepo offline (js " acme/shop.git ") = Some (js "acme", js "shop")
  /\ js "acme" <> [] /\ js "shop" <> []
  /\ ~ In 47%N (js "acme") /\ ~ In 47%N (js "shop")
  /\ split 47 (js "acme" ++ js "/" ++ js "shop") = [js "acme"; js "shop"].
Proof.
  split; [reflexivity|].
  exact (parseGitHubRepo_names offline (js " acme/shop.git ") (js "acme")
           (js "shop") eq_refl).
Defined.

(** X6.  With the token and the repository configured, a repository that parses
    and a branch name that can be chosen, [createGitHubBranch] always starts
    by reading the head of the default branch of that repository: the check
    of the format of the repository in [getDefaultBranchSha] never stops
    it. *)
Theorem createGitHubBranch_reads_default_branch
  (w : World) (s : State) (issueKey customBranchName : value)
  (token repo owner repoName branchName : jsstring) :
  GITHUB_TOKEN (env w) = Some token -> token <> [] ->
  GITHUB_REPO (env w) = Some repo -> repo <> [] ->
  parseGitHubRepo w repo = Some (owner, repoName) ->
  chooseBranchName issueKey customBranchName = Ok branchName ->
  exists rest,
    trace (snd (createGitHubBranch issueKey customBranchName w s))
    = trace s ++ Https (default_branch_request w owner repoName token) :: rest.
Proof.
  intros Et Ht Er Hr Ep Eb.
  destruct (parseGitHubRepo_split w repo owner repoName Ep)
    as [No [Nr [_ [_ S]]]].
  unfold createGitHubBranch. rewrite bind_world, Et, Er.
  destruct token as [|t0 t1]; [congruence|].
  destruct repo as [|r0 r1]; [congruence|].
  rewrite Ep, snd_swallow. unfold bind at 1, lift. rewrite Eb.
  unfold bind at 1, getDefaultBranchSha. rewrite S. cbn [nth].
  apply nonempty_true in No, Nr. rewrite No, Nr. cbn [negb orb].
  set (g := Build_HttpRequest _ _ _ (js "GET") _ _).
  change g with (default_branch_request w owner repoName (t0 :: t1)).
  clear g. set (g := default_branch_request _ _ _ _).
  unfold bind at 1.
  destruct (httpsRequest g w s) as [[response|e] s1] eqn:E1;
    pose proof (httpsRequest_state_eq g w s) as H1; rewrite E1 in H1;
    cbn [snd] in H1; subst s1.
  2:{ exists []. reflexivity. }
  destruct (Json.parse response) as [data|]; [|exists []; reflexivity].
  unfold bind at 1, lift.
  destruct (get data "object") as [object|]; [|exists []; reflexivity].
  destruct (get object "sha") as [sha|]; [|exists []; reflexivity].
  rewrite snd_seq_ret, httpsRequest_state_eq.
  eexists [_]. rewrite !trace_log, <- app_assoc. reflexivity.
Qed.

Lemma createGitHubBranch_reads_default_branch_witness :
  exists rest,
    trace (snd (createGitHubBranch (VStr (js "OPS-7")) VUndef
                  (github_world (NetworkError (js "ECONNRESET"))) initial))
    = trace initial
      ++ Https (default_branch_request
                  (github_world (NetworkError (js "ECONNRESET")))
                  (js "acme") (js "shop") (js "ghp_1")) :: rest.
Proof.
  apply (createGitHubBranch_reads_default_branch
           (github_world (NetworkError (js "ECONNRESET"))) initial
           (VStr (js "OPS-7")) VUndef (js "ghp_1") (js "acme/shop.git")
           (js "acme") (js "shop") (js "ops-7"));
    solve [reflexivity | discriminate].
Defined.

(** ** The direct adapter *)

Lemma quiet_callJiraDataCenterAPI
  (w : World) (endpoint method : jsstring) (body : option value) :
  getJiraType w = datacenter ->
  only_quiet (jira_event w) w (callJiraDataCenterAPI endpoint method body).
Proof.
  intros DC s. rewrite callJiraDataCenterAPI_run by exact DC.
  destruct (authHeader (env w)) as [authorization|e];
    [|split; [apply emits_refl|reflexivity]].
  destruct (URL_parse w _) as [url|] eqn:U;
    [|split; [apply emits_refl|reflexivity]].
  cbv zeta. split; [|reflexivity]. apply emits_log.
  exists (jira_request w url authorization endpoint method body), url. auto.
Qed.
#[local] Hint Resolve quiet_callJiraDataCenterAPI : effects.

Lemma quiet_callJiraDataCenterTool (w : World) (name : jsstring) (args : value) :
  getJiraType w = datacenter ->
  only_quiet (jira_event w) w (callJiraDataCenterTool name args).
Proof. intros DC. unfold callJiraDataCenterTool. effects. Qed.
#[local] Hint Resolve quiet_callJiraDataCenterTool : effects.

(** ** Invariants kept by the tools *)

Section Preserves.

Context (I : State -> Prop) (w : World).

Lemma preserves_ret {A} (a : A) : preserves I w (ret a).
Proof. intros s H. exact H. Qed.

Lemma preserves_throw {A} (e : exn) : preserves I w (@throw A e).
Proof. intros s H. exact H. Qed.

Lemma preserves_lift {A} (r : result A) : preserves I w (lift r).
Proof. intros s H. exact H. Qed.

Lemma preserves_bind {A B} (m : M A) (k : A -> M B) :
  preserves I w m -> (forall a, preserves I w (k a)) ->
  preserves I w (bind m k).
Proof.
  intros Hm Hk s H. unfold bind. specialize (Hm s H).
  destruct (m w s) as [[a|e] s']; [now apply Hk|exact Hm].
Qed.

Lemma preserves_try_catch {A} (m : M A) (h : exn -> M A) :
  preserves I w m -> (forall e, preserves I w (h e)) ->
  preserves I w (try_catch m h).
Proof.
  intros Hm Hh s H. unfold try_catch. specialize (Hm s H).
  destruct (m w s) as [[a|e] s']; [exact Hm|].
  destruct e; try exact Hm; now apply Hh.
Qed.

Lemma preserves_world {A} (k : World -> M A) :
  preserves I w (k w) -> preserves I w (bind world k).
Proof. intros H s. rewrite bind_world. apply H. Qed.

Lemma preserves_answer {A} (m : M A) :
  preserves I w m -> preserves I w (answer m).
Proof.
  intros Hm s H. unfold answer. specialize (Hm s H).
  now destruct (m w s) as [r s'].
Qed.

Lemma quiet_preserves {A} (Q : event -> Prop) (m : M A) :
  stable Q I -> only_quiet Q w m -> preserves I w m.
Proof.
  intros HS Hm s H. destruct (Hm s) as [[events [Et F]] Ec].
  revert Et Ec. generalize (snd (m w s)). intros s'. revert s H.
  induction F as [|ev events Hev F IH]; intros s H Et Ec.
  - rewrite app_nil_r in Et. destruct s, s'. simpl in *. now subst.
  - apply (IH (log s ev)); [now apply HS| |exact Ec].
    rewrite Et, trace_log, <- app_assoc. reflexivity.
Qed.

End Preserves.

Ltac invariant :=
  repeat first
    [ solve [auto with effects]
    | match goal with
      | |- preserves _ _ (ret _) => apply preserves_ret
      | |- preserves _ _ (throw _) => apply preserves_throw
      | |- preserves _ _ (lift _) => apply preserves_lift
      | |- preserves _ _ (bind world _) => apply preserves_world
      | |- preserves _ _ (bind _ _) => apply preserves_bind; [|intros ?]
      | |- preserves _ _ (try_catch _ _) =>
          apply preserves_try_catch; [|intros ?]
      | |- preserves _ _ (if ?b then _ else _) => destruct b
      | |- preserves _ _ (match ?x with _ => _ end) => destruct x
      end ].

Lemma preserves_resolveCloudId (I : State -> Prop) (w : World) (args : value) :
  preserves I w (resolveCloudId args).
Proof. unfold resolveCloudId. invariant. Qed.
#[local] Hint Resolve preserves_resolveCloudId : effects.

Lemma preserves_require
  (I : State -> Prop) (w : World) (x : value) (message : string) :
  preserves I w (require x message).
Proof. unfold require. invariant. Qed.
#[local] Hint Resolve preserves_require : effects.

Section Tools.

Context (I : State -> Prop) (w : World) (toolName : jsstring).

Hypothesis HS : stable (fun ev => permitted w toolName ev /\ ev <> Connect) I.
Hypothesis HC : connect_stable w I.

Lemma preserves_callJiraTool (name : jsstring) (args : value) :
  preserves I w (callJiraTool name args).
Proof.
  unfold callJiraTool. apply preserves_world.
  destruct (getJiraType w) eqn:T.
  - apply preserves_bind; [|intros _].
    + intros s H. unfold getJiraClient.
      destruct (jiraClient s) eqn:J; [exact H|]. now apply HC.
    + intros s H. apply HS; [|exact H]. split; [|discriminate].
      left. unfold backend_event. rewrite T. right. eauto.
  - apply (quiet_preserves I w (jira_event w));
      [|now apply quiet_callJiraDataCenterTool].
    intros s ev [request [url [E R]]] H. apply HS; [|exact H].
    split; [|subst ev; discriminate].
    left. unfold backend_event. rewrite T.
    exists request, url. auto.
Qed.

Lemma preserves_createGitLabBranch (issueKey customBranchName : value) :
  str_eqb toolName (js "createJiraIssueWithBranch") = true
  \/ str_eqb toolName (js "analyzeJiraIssue") = true ->
  preserves I w (createGitLabBranch issueKey customBranchName).
Proof.
  intros Ht. apply (quiet_preserves I w (git_event w));
    [|apply quiet_createGitLabBranch].
  intros s ev [command E] H. apply HS; [|exact H].
  split; [|subst ev; discriminate]. right; left. split; [exact Ht|].
  now exists command.
Qed.

Lemma preserves_handleCreateResponse (res branchNameInput : value) :
  str_eqb toolName (js "createJiraIssueWithBranch") = true ->
  preserves I w (handleCreateResponse res branchNameInput).
Proof.
  intros Ht s H.
  destruct (handleCreateResponse_run w s res branchNameInput)
    as [v [_ [E|[T E]]]]; rewrite E; cbn [snd]; [exact H|].
  unfold makeBranch. rewrite bind_world. destruct (existsSync w _).
  - apply preserves_createGitLabBranch; auto.
  - destruct (_ && _); [|exact H].
    apply (quiet_preserves I w (github_event w));
      [|apply quiet_createGitHubBranch|exact H].
    intros s1 ev Hev H1. apply HS; [|exact H1].
    split; [|destruct Hev as [request [-> _]]; discriminate].
    right; right. auto.
Qed.

Lemma preserves_callTool (args : value) :
  preserves I w (callTool toolName args).
Proof.
  pose proof preserves_callJiraTool as P1.
  pose proof preserves_createGitLabBranch as P2.
  pose proof preserves_handleCreateResponse as P3.
  unfold callTool.
  destruct (str_eqb toolName (js "createJiraIssueWithBranch")) eqn:T1.
  { unfold createJiraIssueWithBranch. invariant. }
  destruct (str_eqb toolName (js "assignJiraIssueWithAnalysis")) eqn:T2.
  { unfold assignJiraIssueWithAnalysis. invariant. }
  destruct (str_eqb toolName (js "transitionJiraIssueToReview")) eqn:T3.
  { unfold transitionJiraIssueToReview. invariant. }
  destruct (str_eqb toolName (js "analyzeJiraIssue")) eqn:T4.
  { unfold analyzeJiraIssue. invariant. }
  apply P1.
Qed.

End Tools.

Lemma emits_connected (Q : event -> Prop) (s s' : State) :
  Q Connect -> emits Q s s' -> emits Q s (connected s').
Proof.
  intros H [events [E F]]. exists (events ++ [Connect]). split.
  - simpl. rewrite E, app_assoc. reflexivity.
  - apply Forall_app. auto.
Qed.

(** X7.  What a tool call may do.  Whatever the tool, its arguments, the
    configuration and the answers of the collaborators are, a call only
    talks to the active backend: the remote MCP in Cloud mode, the host of
    the base URL in Data Center mode.  Besides, only [createJiraIssueWithBranch]
    and [analyzeJiraIssue] run commands, all of them in the working
    directory, and only [createJiraIssueWithBranch] sends requests to
    GitHub, all of them to [api.github.com] under the configured token. *)
Theorem callTool_events (w : World) (toolName : jsstring) (args : value) :
  only (permitted w toolName) w (callTool toolName args).
Proof.
  intros s.
  apply (preserves_callTool (emits (permitted w toolName) s) w toolName).
  - intros s1 ev [Hev _] H. eapply emits_trans; [exact H|].
    now apply emits_log.
  - intros T s1 _ H. apply emits_connected; [|exact H].
    left. unfold backend_event. rewrite T. now left.
  - apply emits_refl.
Qed.

(** X8.  In Data Center mode no tool call creates the client of the remote MCP,
    connects to it or calls it. *)
Theorem datacenter_never_uses_proxy
  (w : World) (toolName : jsstring) (args : value) :
  getJiraType w = datacenter ->
  only_quiet (fun ev => ~ proxy_event ev) w (callTool toolName args).
Proof.
  intros DC s.
  apply (preserves_callTool
           (fun s' => emits (fun ev => ~ proxy_event ev) s s'
                      /\ jiraClient s' = jiraClient s) w toolName).
  - intros s1 ev [Hev Hc] [H J]. split; [|exact J].
    eapply emits_trans; [exact H|]. apply emits_log.
    intros [->|[name [a ->]]]; [congruence|].
    destruct Hev as [B|[[_ [c G]]|[_ [r [G _]]]]]; try discriminate.
    unfold backend_event in B. rewrite DC in B.
    destruct B as [r [u [B _]]]. discriminate.
  - intros T. congruence.
  - split; [apply emits_refl|reflexivity].
Qed.

Lemma datacenter_never_uses_proxy_witness :
  only_quiet (fun ev => ~ proxy_event ev) (dc_world (Response 200 (js "{}")))
    (callTool (js "getJiraIssue") (VObj [(js "issueIdOrKey", str "OPS-1")])).
Proof.
  apply (datacenter_never_uses_proxy (dc_world (Response 200 (js "{}")))
           (js "getJiraIssue") (VObj [(js "issueIdOrKey", str "OPS-1")])).
  reflexivity.
Defined.

Lemma connections_app (a b : list event) :
  connections (a ++ b) = connections a + connections b.
Proof. unfold connections. now rewrite filter_app, length_app. Qed.

Lemma connections_log (s : State) (ev : event) :
  ev <> Connect -> connections (trace (log s ev)) = connections (trace s).
Proof.
  intros H. rewrite trace_log, connections_app.
  destruct ev; try congruence; unfold connections; simpl; lia.
Qed.

(** X9.  The lazy connection.  In a session of tool calls handled one after the
    other from the start of the server, the server connects to the remote
    MCP at most once, whatever the calls are and whatever the connection and
    the calls answer: a connection that failed is not made again. *)
Theorem connects_at_most_once
  (w : World) (calls : list (jsstring * value)) :
  connections (trace (snd (session calls w initial))) <= 1.
Proof.
  set (I := fun s => connections (trace s) <= 1
                     /\ (jiraClient s = false -> connections (trace s) = 0)).
  assert (P : preserves I w (session calls)).
  { induction calls as [|[toolName arguments] rest IH]; simpl.
    - apply preserves_ret.
    - apply preserves_bind; [|intros r].
      + apply preserves_answer. apply (preserves_callTool I w toolName).
        * intros s ev [_ Hev] [H1 H2]. unfold I.
          now rewrite connections_log.
        * intros _ s J [H1 H2]. unfold I. simpl.
          rewrite connections_app, (H2 J). unfold connections. simpl.
          split; [lia|discriminate].
      + apply preserves_bind; [exact IH|intros rs; apply preserves_ret]. }
  apply (P initial). split; simpl; auto.
Qed.

(** ** A call that fails has made no branch *)

Lemma only_getJiraClient (w : World) : only proxy_event w getJiraClient.
Proof.
  intros s. unfold getJiraClient. destruct (jiraClient s); [apply emits_refl|].
  exists [Connect]. split; [reflexivity|]. constructor; [now left|constructor].
Qed.

Lemma only_tools_call (w : World) (name : jsstring) (args : value) :
  only proxy_event w (tools_call name args).
Proof. intros s. apply emits_log. right. eauto. Qed.

Lemma only_callJiraTool (w : World) (name : jsstring) (args : value) :
  only (backend_event w) w (callJiraTool name args).
Proof.
  unfold callJiraTool, backend_event. apply only_world.
  destruct (getJiraType w) eqn:T.
  - apply only_bind; [apply only_getJiraClient|intros _; apply only_tools_call].
  - apply quiet_only. now apply quiet_callJiraDataCenterTool.
Qed.
#[local] Hint Resolve only_callJiraTool : effects.

Lemma only_resolveCloudId (Q : event -> Prop) (w : World) (args : value) :
  only Q w (resolveCloudId args).
Proof. unfold resolveCloudId. effects. Qed.
#[local] Hint Resolve only_resolveCloudId : effects.

Lemma only_require
  (Q : event -> Prop) (w : World) (x : value) (message : string) :
  only Q w (require x message).
Proof. unfold require. effects. Qed.
#[local] Hint Resolve only_require : effects.

Section FailsWithin.

Context (Q : event -> Prop) (w : World).

Lemma fails_within_only {A} (m : M A) : only Q w m -> fails_within Q w m.
Proof. intros H s _. apply H. Qed.

Lemma fails_within_bind {A B} (m : M A) (k : A -> M B) :
  only Q w m -> (forall a, fails_within Q w (k a)) ->
  fails_within Q w (bind m k).
Proof.
  intros Hm Hk s. unfold bind. specialize (Hm s).
  destruct (m w s) as [[a|e'] s']; simpl in Hm.
  - intros E. eapply emits_trans; [exact Hm|]. now apply (Hk a s').
  - intros _. exact Hm.
Qed.

Lemma fails_within_world {A} (k : World -> M A) :
  fails_within Q w (k w) -> fails_within Q w (bind world k).
Proof. intros H s. rewrite bind_world. apply H. Qed.

Lemma fails_within_last {A B} (m : M A) (f : A -> B) :
  (forall s, raises (fst (m w s)) = false) ->
  fails_within Q w (a <- m ;; ret (f a)).
Proof.
  intros H s. unfold bind, ret. specialize (H s).
  destruct (m w s) as [[a|e] s']; simpl in *; congruence.
Qed.

End FailsWithin.

Lemma handleCreateResponse_raises
  (w : World) (res branchNameInput : value) (s : State) :
  raises (fst (handleCreateResponse res branchNameInput w s)) = false.
Proof.
  destruct (handleCreateResponse_run w s res branchNameInput)
    as [v [_ [E|[_ E]]]]; rewrite E; [reflexivity|].
  apply raises_swallowed.
Qed.



(** ** The tools of Data Center mode *)

(** X11.  In Data Center mode, a call of a tool that is neither one of the four
    tools of the server nor one of the nine cases of
    [callJiraDataCenterTool] fails with the error that names the tool, and
    nothing is sent: the tools of the remote MCP are not passed on. *)
Theorem unknown_tool_in_datacenter
  (w : World) (s : State) (name : jsstring) (args : value) :
  getJiraType w = datacenter ->
  one_of (customTools ++ datacenterTools ++ unlistedTools) name = false ->
  callTool name args w s = (Throw (Error (not_implemented name)), s).
Proof.
  intros DC H. unfold one_of in H. cbn [existsb app customTools datacenterTools
                                         unlistedTools] in H.
  repeat (apply orb_false_iff in H as [?E H]).
  unfold callTool. rewrite E, E0, E1, E2.
  unfold callJiraTool. rewrite bind_world, DC.
  unfold callJiraDataCenterTool. rewrite bind_world.
  rewrite E3, E4, E5, E6, E7, E8, E9, E10, E11. reflexivity.
Qed.

Lemma unknown_tool_in_datacenter_witness :
  callTool (js "searchJiraIssuesUsingJql") (VObj [(js "jql", str "project = OPS")])
    (dc_world (Response 200 (js "{}"))) initial
  = (Throw (Error (not_implemented (js "searchJiraIssuesUsingJql"))), initial).
Proof.
  apply (unknown_tool_in_datacenter (dc_world (Response 200 (js "{}"))) initial
           (js "searchJiraIssuesUsingJql")
           (VObj [(js "jql", str "project = OPS")]));
    reflexivity.
Defined.

Lemma str_eqb_eq (a b : jsstring) : str_eqb a b = true <-> a = b.
Proof.
  revert b. induction a as [|x a IH]; intros [|y b]; simpl;
    try (split; [discriminate|congruence]); [tauto|].
  rewrite andb_true_iff, N.eqb_eq, IH.
  split; [intros [-> ->]; reflexivity|intros E; injection E; auto].
Qed.

(** Comparing two literals. *)
Ltac literals :=
  repeat match goal with
         | |- context [str_eqb (js ?a) (js ?b)] =>
             let v := eval vm_compute in (str_eqb (js a) (js b)) in
             replace (str_eqb (js a) (js b)) with v by reflexivity
         end;
  cbv iota.



(** X13.  The exchange of the direct adapter.  In Data Center mode, with
    credentials that give an [Authorization] header and a base URL that
    parses, a call sends exactly one request: to the host of the base URL,
    at its port or else at 443 for [https:] and 80 otherwise, for the path
    of the base URL without its final slash followed by the endpoint (under
    [/rest/api/2/] unless it starts with [/rest/api]), with
    [JSON.stringify] of the body if there is one.  An answer with a status
    from 200 to 299 gives the JSON value of its body, or the empty object
    when the body is blank or is no JSON; any other status fails with
    [HTTP <status>: <body>]; a failure of the network is passed on; and an
    answer that is cut before its end leaves the call pending. *)
Theorem callJiraDataCenterAPI_exchange
  (w : World) (s : State) (endpoint method : jsstring) (body : option value)
  (authorization : jsstring) (url : URL) :
  getJiraType w = datacenter ->
  authHeader (env w) = Ok authorization ->
  URL_parse w (get_or (JIRA_BASE_URL (env w)) []) = Some url ->
  callJiraDataCenterAPI endpoint method body w s
  = (match https_reply w (length (trace s))
             (jira_request w url authorization endpoint method body) with
     | Response code response =>
         if ((200 <=? code) && (code <? 300))%N
         then Ok (if negb (nonempty (trim response)) then VObj []
                  else match Json.parse response with
                       | Some v => v
                       | None => VObj []
                       end)
         else Throw (Error (js "HTTP " ++ decimal code ++ js ": " ++ response))
     | NetworkError reason => Throw (Failure reason)
     | Aborted _ _ => Throw Unsettled
     end,
     log s (Https (jira_request w url authorization endpoint method body))).
Proof.
  intros DC A U. rewrite callJiraDataCenterAPI_run by exact DC.
  rewrite A, U. cbv zeta. f_equal. unfold outcome_of, response_value.
  destruct (https_reply w _ _) as [code response|r|c b]; try reflexivity.
  destruct ((200 <=? code) && (code <? 300))%N; [|reflexivity].
  f_equal. destruct response as [|c0 r0]; [reflexivity|]. cbn [nonempty negb orb].
  reflexivity.
Qed.

Lemma callJiraDataCenterAPI_exchange_witness :
  callJiraDataCenterAPI (js "/rest/api/3/myself") GET None
    (dc_world (Response 200 (js "<html>"))) initial
  = (Ok (VObj []),
     log initial
       (Https {| req_hostname := js "jira.example.com";
                 req_port := VNum 443 0;
                 req_path := js "/rest/api/3/myself";
                 req_method := js "GET";
                 req_headers :=
                   [ (js "Authorization", js "Bearer secret");
                     (js "Content-Type", js "application/json");
                     (js "Accept", js "application/json") ];
                 req_data := None |})).
Proof.
  exact (callJiraDataCenterAPI_exchange
           (dc_world (Response 200 (js "<html>"))) initial
           (js "/rest/api/3/myself") GET None (js "Bearer secret")
           {| protocol := js "https:"; hostname := js "jira.example.com";
              port := []; pathname := js "/" |}
           eq_refl eq_refl eq_refl).
Defined.

(** ** Branch names that need no cleaning *)

Lemma lowerUnit_token (c : N) :
  is_lower_alnum c = true \/ c = hyphen -> lowerUnit c = [c].
Proof.
  intros H. unfold lowerUnit, is_lower_alnum, hyphen in *.
  destruct (is_upper c) eqn:U;
    [|destruct (c =? 0x212A)%N eqn:K;
      [|destruct (c =? 0x0130)%N eqn:I;
        [|destruct (in_range 0x0410 0x042F c) eqn:C1;
          [|destruct (in_range 0x0400 0x040F c) eqn:C2;
            [|destruct (c =? 0x0490)%N eqn:G]]]]];
    try reflexivity; exfalso; destruct H as [H|H]; n_bool; lia.
Qed.

Lemma toLowerCase_token (s : jsstring) :
  Forall (fun c => is_lower_alnum c = true \/ c = hyphen) s ->
  toLowerCase s = s.
Proof.
  induction 1 as [|c t Hc _ IH]; [reflexivity|].
  unfold toLowerCase in *. simpl. now rewrite lowerUnit_token, IH.
Qed.

Lemma collapseRuns_hyphenated_id (afterAlnum : bool) (s : jsstring) :
  hyphenated afterAlnum s = true -> collapseRuns (negb afterAlnum) s = s.
Proof.
  revert afterAlnum. induction s as [|c t IH]; intros b; simpl; [auto|].
  destruct (is_lower_alnum c).
  - intros H. f_equal. exact (IH true H).
  - destruct (is_hyphen c) eqn:Hc; [|discriminate].
    apply is_hyphen_eq in Hc. subst c.
    destruct b; simpl; [|discriminate]. intros H. f_equal.
    exact (IH false H).
Qed.

Lemma stripHyphens_id (s : jsstring) :
  (forall post, s <> hyphen :: post) -> (forall pre, s <> pre ++ [hyphen]) ->
  stripHyphens s = s.
Proof.
  intros Hl Hr. unfold stripHyphens, dropWhileEnd.
  assert (E : dropWhile is_hyphen s = s).
  { destruct s as [|c t]; simpl; [reflexivity|].
    destruct (is_hyphen c) eqn:Hc; [|reflexivity].
    apply is_hyphen_eq in Hc. subst c. now destruct (Hl t). }
  rewrite E.
  assert (R : dropWhile is_hyphen (rev s) = rev s).
  { destruct (rev s) as [|c t] eqn:Er; simpl; [reflexivity|].
    destruct (is_hyphen c) eqn:Hc; [|reflexivity].
    apply is_hyphen_eq in Hc. subst c. destruct (Hr (rev t)).
    rewrite <- (rev_involutive s), Er. reflexivity. }
  rewrite R. apply rev_involutive.
Qed.

Lemma sanitize_chain_id (s : jsstring) :
  matches_branch_re s = true -> length s <= 100 ->
  substring 0 100 (stripHyphens (collapseRuns false (toLowerCase s))) = s.
Proof.
  intros H L. apply matches_branch_re_words in H as [Hh [_ Hr]].
  rewrite toLowerCase_token by (eapply hyphenated_chars; eauto).
  rewrite (collapseRuns_hyphenated_id true) by (eapply hyphenated_weaken; eauto).
  rewrite stripHyphens_id; [| |exact Hr].
  2:{ intros post ->. now rewrite hyphenated_no_leading in Hh. }
  rewrite substring_0. now apply firstn_all2.
Qed.

Lemma transliterateToEnglish_below (text : jsstring) :
  Forall (fun c => (c < 0x0400)%N) text ->
  Translit.transliterateToEnglish text = text.
Proof.
  induction 1 as [|c t Hc _ IH]; [reflexivity|].
  unfold Translit.transliterateToEnglish in *. simpl. rewrite IH.
  unfold Translit.translitChar.
  rewrite (lookup_below Translit.transliterationMap c); auto.
Qed.

(** X14.  A name that is already a branch token, that is one that matches
    [^[a-z0-9]+(-[a-z0-9]+)*$] and has at most 100 code units, comes out of
    [sanitizeBranchName] as it went in, in every revision. *)
Theorem sanitizeBranchName_keeps_tokens (name : jsstring) :
  matches_branch_re name = true -> length name <= 100 ->
  sanitizeBranchName name = name /\ Translit.sanitizeBranchName name = name.
Proof.
  intros H L. split; [now apply sanitize_chain_id|].
  unfold Translit.sanitizeBranchName. cbv zeta.
  rewrite transliterateToEnglish_below; [now apply sanitize_chain_id|].
  apply matches_branch_re_words in H as [Hh _].
  apply hyphenated_chars in Hh. eapply Forall_impl; [|exact Hh].
  intros c [Hc| ->]; [|reflexivity].
  unfold is_lower_alnum in Hc. apply orb_prop in Hc as [Hc|Hc]; n_bool; lia.
Qed.

Lemma sanitizeBranchName_keeps_tokens_witness :
  sanitizeBranchName (js "ops-12-fix-login") = js "ops-12-fix-login"
  /\ Translit.sanitizeBranchName (js "ops-12-fix-login")
     = js "ops-12-fix-login".
Proof.
  apply (sanitizeBranchName_keeps_tokens (js "ops-12-fix-login"));
    [reflexivity|simpl; lia].
Defined.

(** X15.  Text without code units from U+0400 on goes through the table of the
    transliterating revision unchanged, so on such text (all Latin text)
    the revisions of [sanitizeBranchName] give the same name. *)
Theorem sanitizeBranchName_revisions_agree (name : jsstring) :
  Forall (fun c => (c < 0x0400)%N) name ->
  Translit.transliterateToEnglish name = name
  /\ Translit.sanitizeBranchName name = sanitizeBranchName name.
Proof.
  intros H. split; [now apply transliterateToEnglish_below|].
  unfold Translit.sanitizeBranchName. cbv zeta.
  now rewrite transliterateToEnglish_below.
Qed.

Lemma sanitizeBranchName_revisions_agree_witness :
  Translit.transliterateToEnglish (js "Fix Login!") = js "Fix Login!"
  /\ Translit.sanitizeBranchName (js "Fix Login!")
     = sanitizeBranchName (js "Fix Login!").
Proof.
  apply (sanitizeBranchName_revisions_agree (js "Fix Login!")).
  repeat constructor.
Defined.

(** ** The calls of the remote MCP *)

Lemma only_callJiraTool_as
  (Q : event -> Prop) (w : World) (name : jsstring) (args : value) :
  Q Connect -> Q (ToolsCall name args) -> (forall request, Q (Https request)) ->
  only Q w (callJiraTool name args).
Proof.
  intros Hc Ht Hh. unfold callJiraTool. apply only_world.
  destruct (getJiraType w) eqn:T.
  - apply only_bind; [|intros _].
    + intros s. unfold getJiraClient.
      destruct (jiraClient s); [apply emits_refl|].
      exists [Connect]. split; [reflexivity|]. now repeat constructor.
    + intros s. now apply emits_log.
  - apply quiet_only.
    apply (quiet_weaken (jira_event w)); [|now apply quiet_callJiraDataCenterTool].
    intros ev [request [_ [-> _]]]. apply Hh.
Qed.

Lemma only_createGitLabBranch_as
  (Q : event -> Prop) (w : World) (issueKey customBranchName : value) :
  (forall command dir, Q (Exec command dir)) ->
  only Q w (createGitLabBranch issueKey customBranchName).
Proof.
  intros He. apply quiet_only.
  apply (quiet_weaken (git_event w)); [|apply quiet_createGitLabBranch].
  intros ev [command ->]. apply He.
Qed.

Lemma only_handleCreateResponse_as
  (Q : event -> Prop) (w : World) (res branchNameInput : value) :
  (forall command dir, Q (Exec command dir)) ->
  (forall request, Q (Https request)) ->
  only Q w (handleCreateResponse res branchNameInput).
Proof.
  intros He Hh s.
  destruct (handleCreateResponse_run w s res branchNameInput)
    as [v [_ [E|[T E]]]]; rewrite E; cbn [snd]; [apply emits_refl|].
  unfold makeBranch. rewrite bind_world.
  destruct (existsSync w _); [now apply only_createGitLabBranch_as|].
  destruct (_ && _); [|apply emits_refl].
  apply quiet_only.
  apply (quiet_weaken (github_event w)); [|apply quiet_createGitHubBranch].
  intros ev [request [-> _]]. apply Hh.
Qed.

(** X16.  Which tools of the remote MCP a tool of the server calls:
    [createJiraIssueWithBranch] only [createJiraIssue],
    [assignJiraIssueWithAnalysis] only [editJiraIssue],
    [transitionJiraIssueToReview] only [getTransitionsForJiraIssue] and
    [transitionJiraIssue], [analyzeJiraIssue] only [getJiraIssue], and any
    other tool only the tool of the same name. *)
Theorem callTool_delegates (w : World) (toolName : jsstring) (args : value) :
  only (calls_only (delegates toolName)) w (callTool toolName args).
Proof.
  assert (P : forall name a,
             one_of (delegates toolName) name = true ->
             only (calls_only (delegates toolName)) w (callJiraTool name a)).
  { intros name a H. apply only_callJiraTool_as; simpl; auto. }
  assert (G : forall k b,
             only (calls_only (delegates toolName)) w (createGitLabBranch k b)).
  { intros k b. apply only_createGitLabBranch_as; simpl; auto. }
  assert (R : forall r b,
             only (calls_only (delegates toolName)) w (handleCreateResponse r b)).
  { intros r b. apply only_handleCreateResponse_as; simpl; auto. }
  revert P G R. unfold callTool, delegates.
  destruct (str_eqb toolName (js "createJiraIssueWithBranch")).
  { intros P G R. unfold createJiraIssueWithBranch. effects. }
  destruct (str_eqb toolName (js "assignJiraIssueWithAnalysis")).
  { intros P G R. unfold assignJiraIssueWithAnalysis. effects. }
  destruct (str_eqb toolName (js "transitionJiraIssueToReview")).
  { intros P G R. unfold transitionJiraIssueToReview. effects. }
  destruct (str_eqb toolName (js "analyzeJiraIssue")).
  { intros P G R. unfold analyzeJiraIssue. effects. }
  intros P G R. apply P. unfold one_of. simpl.
  rewrite (proj2 (str_eqb_eq toolName toolName) eq_refl). reflexivity.
Qed.

Lemma str_eqb_sym (a b : jsstring) : str_eqb a b = str_eqb b a.
Proof.
  revert b. induction a as [|x a IH]; intros [|y b]; simpl; auto.
  now rewrite N.eqb_sym, IH.
Qed.

Lemma assoc_obj_set_other
  (props : list (jsstring * value)) (k k' : jsstring) (v : value) :
  str_eqb k k' = false -> assoc k (obj_set props k' v) = assoc k props.
Proof.
  intros H. induction props as [|[k0 v0] rest IH]; simpl.
  - now rewrite H.
  - destruct (str_eqb k' k0) eqn:E; simpl.
    + apply str_eqb_eq in E. subst k0. now rewrite H.
    + now rewrite IH.
Qed.

Lemma assoc_obj_set_same
  (props : list (jsstring * value)) (k : jsstring) (v : value) :
  assoc k (obj_set props k v) = Some v.
Proof.
  assert (R : str_eqb k k = true) by now apply str_eqb_eq.
  induction props as [|[k0 v0] rest IH]; simpl.
  - now rewrite R.
  - destruct (str_eqb k k0) eqn:E; simpl; [now rewrite R|now rewrite E].
Qed.

(** The additional fields that are kept hold no summary and no
    description. *)
Lemma kept_fields_lack (k : jsstring) (source acc : list (jsstring * value)) :
  str_eqb k (js "summary") || str_eqb k (js "description") = true ->
  assoc k acc = None ->
  assoc k
    (fold_left
       (fun fields kv =>
          if str_eqb (fst kv) (js "summary")
             || str_eqb (fst kv) (js "description")
          then fields else obj_set fields (fst kv) (snd kv))
       source acc) = None.
Proof.
  intros Hk. revert acc. induction source as [|[k0 v0] rest IH]; intros acc H.
  - exact H.
  - simpl. apply IH.
    destruct (str_eqb k0 (js "summary") || str_eqb k0 (js "description"))
      eqn:E; [exact H|].
    rewrite assoc_obj_set_other; [exact H|].
    destruct (str_eqb k k0) eqn:K; [|reflexivity].
    apply str_eqb_eq in K. subst k0. congruence.
Qed.


(** X18.  The search that [handleCreateResponse] falls back on finds a key in
    every text that holds one: when the text has a piece that matches
    [[A-Z]+-[0-9]+] from end to end, the search gives a key, which is a
    piece of the text that matches in the same way and that begins no later
    than the given one. *)
Theorem match_key_finds (pre k post : jsstring) :
  is_issue_key k = true ->
  exists m before after,
    match_key (pre ++ k ++ post) = Some m
    /\ is_issue_key m = true
    /\ pre ++ k ++ post = before ++ m ++ after
    /\ length before <= length pre.
Proof.
  intros H. induction pre as [|c pre IH].
  - destruct (match_key_here_complete k post H) as [m E].
    destruct (match_key_here_prefix _ _ E) as [rest R].
    exists m, [], rest. change ([] ++ k ++ post) with (k ++ post).
    assert (M : match_key (k ++ post) = Some m).
    { revert E. generalize (k ++ post). intros s E.
      destruct s; cbn [match_key]; now rewrite E. }
    repeat split; auto. eapply match_key_here_is_issue_key; eauto.
  - cbn [app match_key].
    destruct (match_key_here (c :: pre ++ k ++ post)) as [m|] eqn:E.
    + destruct (match_key_here_prefix _ _ E) as [rest R].
      exists m, [], rest. repeat split; auto; [|simpl; lia].
      eapply match_key_here_is_issue_key; eauto.
    + destruct IH as [m [before [after [M [K [S L]]]]]].
      exists m, (c :: before), after. repeat split; auto.
      * simpl. now rewrite S.
      * simpl. lia.
Qed.

Lemma match_key_finds_witness :
  exists m before after,
    match_key (js "Created issue " ++ js "OPS-12" ++ js " in project OPS")
    = Some m
    /\ is_issue_key m = true
    /\ js "Created issue " ++ js "OPS-12" ++ js " in project OPS"
       = before ++ m ++ after
    /\ length before <= length (js "Created issue ").
Proof.
  apply (match_key_finds (js "Created issue ") (js "OPS-12")
           (js " in project OPS")).
  reflexivity.
Defined.

(** ** The cloud identifier *)

Lemma unquote_quoted (q q' : N) (id : jsstring) :
  is_quote q = true -> is_quote q' = true -> unquote (q :: id ++ [q']) = id.
Proof.
  intros Hq Hq'. unfold unquote. rewrite Hq, rev_app_distr. simpl.
  rewrite Hq'. apply rev_involutive.
Qed.

(** X19.  In Cloud mode, a cloud identifier that is configured between quotes
    (single or double, the same or not) is used without them and without
    the white space around it; [JIRA_CLOUD_ID] is read before
    [CLOUD_ID]. *)
Theorem getCloudId_unquotes (w : World) (q q' : N) (id : jsstring) :
  getJiraType w = cloud ->
  JIRA_CLOUD_ID (env w) = Some (q :: id ++ [q']) ->
  is_quote q = true -> is_quote q' = true ->
  getCloudId w = Ok (trim id).
Proof.
  intros C E Hq Hq'. unfold getCloudId. rewrite C, E.
  unfold env_or. cbn [is_set]. now rewrite unquote_quoted.
Qed.

Lemma getCloudId_unquotes_witness :
  getCloudId quoted_cloud_world = Ok (js "c-1").
Proof.
  exact (getCloudId_unquotes quoted_cloud_world 34 34 (js " c-1 ")
           eq_refl eq_refl eq_refl eq_refl).
Defined.

(** ** The older revision *)

Lemma quiet_legacy_createGitHubBranch
  (w : World) (issueKey customBranchName : value) :
  only_quiet (github_event w) w
    (Legacy.createGitHubBranch issueKey customBranchName).
Proof.
  unfold Legacy.createGitHubBranch. apply quiet_world.
  destruct (GITHUB_TOKEN (env w)) as [[|t0 t1]|] eqn:E; effects.
  - now apply quiet_getDefaultBranchSha.
  - apply quiet_httpsRequest. now apply github_request.
Qed.

Lemma legacy_createGitLabBranch_run
  (g : GitLabEnv) (encodeURIComponent : jsstring -> option jsstring)
  (w : World) (s s' : State) (issueKey customBranchName : value) :
  snd (Legacy.createGitLabBranch g encodeURIComponent issueKey
         customBranchName w s) = s' ->
  s' = s
  \/ exists request encodedRepo,
       s' = log s (Https request)
       /\ gitlab_event g (Https request)
       /\ encodeURIComponent
            (Legacy.parseGitLabRepo w (get_or (GITLAB_REPO g) []))
          = Some encodedRepo
       /\ req_path request
          = js "/api/v4/projects/" ++ encodedRepo ++ js "/repository/branches".
Proof.
  intros E. unfold Legacy.createGitLabBranch in E. rewrite bind_world in E.
  destruct (GITLAB_TOKEN g) as [[|t0 t1]|] eqn:Et; try (now left).
  destruct (GITLAB_REPO g) as [[|r0 r1]|] eqn:Er; try (now left).
  cbv zeta in E. rewrite snd_swallow in E. unfold bind at 1, lift in E.
  destruct (Legacy.chooseBranchName issueKey customBranchName)
    as [branchName|e]; [|now left].
  destruct (encodeURIComponent _) as [encodedRepo|] eqn:Ee; [|now left].
  rewrite snd_seq_ret, httpsRequest_state_eq in E. right.
  eexists. exists encodedRepo. split; [symmetry; exact E|].
  split; [|split; reflexivity].
  eexists. split; [reflexivity|]. split; [reflexivity|].
  split; [reflexivity|]. rewrite Et. reflexivity.
Qed.

Lemma quiet_legacy_createGitLabBranch
  (g : GitLabEnv) (encodeURIComponent : jsstring -> option jsstring)
  (w : World) (issueKey customBranchName : value) :
  only_quiet (gitlab_event g) w
    (Legacy.createGitLabBranch g encodeURIComponent issueKey customBranchName).
Proof.
  intros s.
  destruct (legacy_createGitLabBranch_run g encodeURIComponent w s _ issueKey
              customBranchName eq_refl) as [E|[request [p [E [H _]]]]];
    rewrite E.
  - split; [apply emits_refl|reflexivity].
  - split; [now apply emits_log|reflexivity].
Qed.

(** X20.  The branch request of the older revision.  [createGitLabBranch] sends
    nothing, or one [POST] under the configured token for the branches of
    the project whose path is [encodeURIComponent] of the repository
    ([GITLAB_REPO] without a final [.git], or the path of the URL it holds).
    The host of the request holds no slash, and is [gitlab.com] when
    [GITLAB_URL] is not set. *)
Theorem legacy_gitlab_request
  (g : GitLabEnv) (encodeURIComponent : jsstring -> option jsstring)
  (w : World) (s : State) (issueKey customBranchName : value) :
  let s' := snd (Legacy.createGitLabBranch g encodeURIComponent issueKey
                   customBranchName w s) in
  s' = s
  \/ exists request encodedRepo,
       s' = log s (Https request)
       /\ gitlab_event g (Https request)
       /\ ~ In 47%N (req_hostname request)
       /\ (is_set (GITLAB_URL g) = false
           -> req_hostname request = js "gitlab.com")
       /\ encodeURIComponent
            (Legacy.parseGitLabRepo w (get_or (GITLAB_REPO g) []))
          = Some encodedRepo
       /\ req_path request
          = js "/api/v4/projects/" ++ encodedRepo ++ js "/repository/branches".
Proof.
  destruct (legacy_createGitLabBranch_run g encodeURIComponent w s _ issueKey
              customBranchName eq_refl) as [E|[request [p [E [H [Ee Ep]]]]]];
    [now left|right].
  exists request, p. split; [exact E|]. split; [exact H|].
  destruct H as [r [Hr [_ [Hh _]]]]. injection Hr as <-.
  rewrite Hh. split; [|split; [|auto]].
  - unfold Legacy.gitlab_host.
    match goal with
    | |- ~ In _ (nth 0 (split 47 ?x) []) =>
        destruct (split 47 x) as [|seg rest] eqn:S; [intros []|]
    end.
    simpl. eapply split_no_sep. rewrite S. now left.
  - intros U. unfold Legacy.gitlab_host.
    destruct (GITLAB_URL g) as [[|c u]|]; try discriminate; reflexivity.
Qed.

Lemma legacy_handleCreateResponse_run
  (g : GitLabEnv) (encodeURIComponent : jsstring -> option jsstring)
  (w : World) (s : State) (res branchNameInput : value) :
  exists v (branch : M unit),
    branch
    = (if is_set (GITHUB_TOKEN (env w)) && is_set (GITHUB_REPO (env w))
       then Legacy.createGitHubBranch v (or_else branchNameInput VUndef)
       else if is_set (GITLAB_TOKEN g) && is_set (GITLAB_REPO g)
       then Legacy.createGitLabBranch g encodeURIComponent v
              (or_else branchNameInput VUndef)
       else ret tt)
    /\ (Legacy.handleCreateResponse g encodeURIComponent res branchNameInput
          w s = (Ok v, s)
        \/ Legacy.handleCreateResponse g encodeURIComponent res
             branchNameInput w s
           = (if unsettled (fst (branch w s)) then Throw Unsettled else Ok v,
              snd (branch w s))).
Proof.
  unfold Legacy.handleCreateResponse. rewrite bind_world.
  destruct (truthy _ || truthy _);
    [exists VNull; eexists; split; [reflexivity|left; reflexivity]|].
  match goal with
  | |- context [let (_, _) := ?p in _] => destruct p as [issueKey left_]
  end.
  destruct left_ as [[]|e];
    [|exists issueKey; eexists; split; [reflexivity|left; reflexivity]].
  destruct (truthy issueKey) eqn:T;
    [|exists issueKey; eexists; split; [reflexivity|left; reflexivity]].
  exists issueKey. eexists. split; [reflexivity|]. right. cbv zeta.
  rewrite try_catch_swallow.
  destruct (is_set (GITHUB_TOKEN (env w)) && is_set (GITHUB_REPO (env w)));
    [|reflexivity].
  destruct (is_set (GITLAB_TOKEN g) && is_set (GITLAB_REPO g)); reflexivity.
Qed.

(** X21.  In the older revision GitHub comes first: [handleCreateResponse]
    raises no exception; with the GitHub token and repository configured it
    only sends requests to GitHub, also when GitLab is configured as well;
    with GitLab alone it only sends the request to the GitLab API; with
    neither it does nothing. *)
Theorem legacy_github_first
  (g : GitLabEnv) (encodeURIComponent : jsstring -> option jsstring)
  (w : World) (s : State) (res branchNameInput : value) :
  exists v s',
    (Legacy.handleCreateResponse g encodeURIComponent res branchNameInput w s
     = (Ok v, s')
     \/ Legacy.handleCreateResponse g encodeURIComponent res branchNameInput
          w s = (Throw Unsettled, s'))
    /\ if is_set (GITHUB_TOKEN (env w)) && is_set (GITHUB_REPO (env w))
       then emits (github_event w) s s'
       else if is_set (GITLAB_TOKEN g) && is_set (GITLAB_REPO g)
       then emits (gitlab_event g) s s'
       else s' = s.
Proof.
  destruct (legacy_handleCreateResponse_run g encodeURIComponent w s res
              branchNameInput) as [v [branch [B [E|E]]]];
    rewrite E; exists v; eexists.
  - split; [left; reflexivity|].
    destruct (_ && _); [apply emits_refl|].
    destruct (_ && _); [apply emits_refl|reflexivity].
  - split; [destruct (unsettled _); [right|left]; reflexivity|].
    subst branch.
    destruct (_ && _); [now apply quiet_legacy_createGitHubBranch|].
    destruct (_ && _); [apply quiet_legacy_createGitLabBranch|reflexivity].
Qed.
